(** * cachetop: the metrics-to-visualisation pipeline of the LVM cache monitor

    A shallow embedding of [cachetop.py] (class [LVMCacheMonitor]): the
    derivation of the metrics from the seven counters printed by [lvs], the
    bounded history deques, the layout computed from the terminal size, the
    bar and line renderers and the monitoring loop; then the functions of
    the module around the class: [detect_cache_volumes], [get_key],
    [interactive_volume_selection] and [main].

    Python numbers are modelled as they are at run time: an [int] is an
    unbounded [Z], a [float] is an IEEE 754 binary64 value, and every
    arithmetic operator dispatches on the dynamic type of its operands and
    raises where Python raises.  Part I holds the definitions, Part II the
    lemmas and the theorems. *)

From Stdlib Require Import ZArith QArith Qround Qabs Qpower String Ascii DecimalString Bool List Lia Lqa.
From Stdlib Require SpecFloat.
Import ListNotations.
Local Open Scope Z_scope.

(* ================================================================== *)
(** * Part I: definitions *)
(* ================================================================== *)

(** ** IEEE 754 binary64, round to nearest, ties to even

    A finite float is represented by the rational it denotes.  The two zeros
    are identified: none of the modelled functions can observe the sign of a
    zero (no formatting of a float is modelled, and a division by zero
    raises in Python whatever the sign). *)

Module Binary64.

Inductive float := Fin (q : Q) | Inf (neg : bool) | NaN.

Definition pow2 (e : Z) : Q := Qpower 2 e.

(** Exponent of the unit in the last place of a number in the binade
    [2^l, 2^(l+1)): 53 significant bits, subnormals below [2^-1022]. *)
Definition fexp (l : Z) : Z := Z.max (l - 52) (-1074).

(** [Qlog2 q] is the integer [l] with [2^l <= q < 2^(l+1)], for [0 < q]. *)
Definition Qlog2 (q : Q) : Z :=
  let l := Z.log2 (Qnum q) - Z.log2 (Zpos (Qden q)) in
  if Qle_bool (pow2 l) q then l else l - 1.

(** Nearest integer, ties to the even one. *)
Definition rne (x : Q) : Z :=
  let f := Qfloor x in
  match Qcompare (x - inject_Z f) (1 # 2) with
  | Lt => f
  | Gt => f + 1
  | Eq => if Z.even f then f else f + 1
  end.

(** Rounding of a positive rational with an unbounded exponent range. *)
Definition round_pos (q : Q) : Q :=
  let e := fexp (Qlog2 q) in
  (inject_Z (rne (q / pow2 e)) * pow2 e)%Q.

(** The float nearest to the rational [q]; overflow gives an infinity. *)
Definition fl (q : Q) : float :=
  match Qcompare q 0 with
  | Eq => Fin 0
  | Gt => let v := round_pos q in
          if Qle_bool (pow2 1024) v then Inf false else Fin v
  | Lt => let v := round_pos (- q) in
          if Qle_bool (pow2 1024) v then Inf true else Fin (- v)
  end.

Definition Qlt_bool (a b : Q) : bool := negb (Qle_bool b a).

Definition fmul (x y : float) : float :=
  match x, y with
  | NaN, _ | _, NaN => NaN
  | Fin a, Fin b => fl (a * b)
  | Fin a, Inf s | Inf s, Fin a =>
      if Qeq_bool a 0 then NaN else Inf (xorb s (Qlt_bool a 0))
  | Inf s, Inf t => Inf (xorb s t)
  end.

Definition fsub (x y : float) : float :=
  match x, y with
  | NaN, _ | _, NaN => NaN
  | Fin a, Fin b => fl (a - b)
  | Fin _, Inf t => Inf (negb t)
  | Inf s, Fin _ => Inf s
  | Inf s, Inf t => if Bool.eqb s t then NaN else Inf s
  end.

(** Division by a divisor that is not zero (Python tests the divisor first). *)
Definition fdiv (x y : float) : float :=
  match x, y with
  | NaN, _ | _, NaN => NaN
  | Fin a, Fin b => fl (a / b)
  | Fin _, Inf _ => Fin 0
  | Inf s, Fin b => Inf (xorb s (Qlt_bool b 0))
  | Inf _, Inf _ => NaN
  end.

Definition is_zero (x : float) : bool :=
  match x with Fin a => Qeq_bool a 0 | _ => false end.

(** Truncation toward zero. *)
Definition Qtrunc (q : Q) : Z :=
  if Qle_bool 0 q then Qfloor q else Qceiling q.

End Binary64.

(** ** Python values, exceptions and operators *)

Module Py.
Import Binary64.

Inductive exn :=
| ZeroDivisionError | OverflowError | ValueError | IndexError | TypeError
| AttributeError | OSError | CalledProcessError.

Definition exn_eqb (a b : exn) : bool :=
  match a, b with
  | ZeroDivisionError, ZeroDivisionError | OverflowError, OverflowError
  | ValueError, ValueError | IndexError, IndexError | TypeError, TypeError
  | AttributeError, AttributeError | OSError, OSError
  | CalledProcessError, CalledProcessError => true
  | _, _ => false
  end.

(** A computation either returns or raises. *)
Inductive result (A : Type) := Ok (a : A) | Raise (e : exn).
Arguments Ok {A} a.
Arguments Raise {A} e.

Definition bind {A B : Type} (c : result A) (k : A -> result B) : result B :=
  match c with Ok a => k a | Raise e => Raise e end.

Notation "x <- c ;; k" := (bind c (fun x => k))
  (at level 61, c at next level, right associativity).

(** [try: c  except (e1, e2, ...): h] *)
Definition try_except {A : Type} (c : result A) (caught : list exn) (h : result A)
  : result A :=
  match c with
  | Ok a => Ok a
  | Raise e => if existsb (exn_eqb e) caught then h else Raise e
  end.

(** A number is an [int] or a [float]. *)
Inductive num := PInt (z : Z) | PFloat (f : float).

(** Conversion of an int to a float ([PyLong_AsDouble]): correctly rounded,
    [OverflowError] when the int is too large. *)
Definition float_of_int (z : Z) : result float :=
  match fl (inject_Z z) with
  | Inf _ => Raise OverflowError
  | f => Ok f
  end.

Definition as_float (n : num) : result float :=
  match n with PInt z => float_of_int z | PFloat f => Ok f end.

(** [a / b] on two ints: the correctly rounded quotient of the integers. *)
Definition int_truediv (a b : Z) : result float :=
  if b =? 0 then Raise ZeroDivisionError
  else match fl (inject_Z a / inject_Z b) with
       | Inf _ => Raise OverflowError
       | f => Ok f
       end.

(** [x / y] on two floats. *)
Definition float_truediv (x y : float) : result float :=
  if is_zero y then Raise ZeroDivisionError else Ok (fdiv x y).

(** The operator [/]. *)
Definition truediv (a b : num) : result num :=
  match a, b with
  | PInt x, PInt y => f <- int_truediv x y ;; Ok (PFloat f)
  | _, _ => x <- as_float a ;; y <- as_float b ;;
            f <- float_truediv x y ;; Ok (PFloat f)
  end.

(** The operator [*]. *)
Definition mul (a b : num) : result num :=
  match a, b with
  | PInt x, PInt y => Ok (PInt (x * y))
  | _, _ => x <- as_float a ;; y <- as_float b ;; Ok (PFloat (fmul x y))
  end.

(** The operator [-]. *)
Definition sub (a b : num) : result num :=
  match a, b with
  | PInt x, PInt y => Ok (PInt (x - y))
  | _, _ => x <- as_float a ;; y <- as_float b ;; Ok (PFloat (fsub x y))
  end.

(** [int(x)]: truncation toward zero. *)
Definition int_of (a : num) : result Z :=
  match a with
  | PInt z => Ok z
  | PFloat (Fin q) => Ok (Qtrunc q)
  | PFloat (Inf _) => Raise OverflowError
  | PFloat NaN => Raise ValueError
  end.

(** [math.floor(x)], used by the specification-level definitions only. *)
Definition floor_of (a : num) : result Z :=
  match a with
  | PInt z => Ok z
  | PFloat (Fin q) => Ok (Qfloor q)
  | PFloat (Inf _) => Raise OverflowError
  | PFloat NaN => Raise ValueError
  end.

(** Comparison of two numbers is exact, also between an int and a float;
    a NaN is unordered. *)
Definition compare (a b : num) : option comparison :=
  let ext (n : num) : float :=
    match n with PInt z => Fin (inject_Z z) | PFloat f => f end in
  match ext a, ext b with
  | NaN, _ | _, NaN => None
  | Fin x, Fin y => Some (Qcompare x y)
  | Fin _, Inf t => Some (if t then Gt else Lt)
  | Inf s, Fin _ => Some (if s then Lt else Gt)
  | Inf s, Inf t => Some (if Bool.eqb s t then Eq else if s then Lt else Gt)
  end.

Definition lt (a b : num) : bool :=
  match compare a b with Some Lt => true | _ => false end.
Definition gt (a b : num) : bool :=
  match compare a b with Some Gt => true | _ => false end.
Definition eq (a b : num) : bool :=
  match compare a b with Some Eq => true | _ => false end.
Definition ne (a b : num) : bool := negb (eq a b).

(** [min(data)] and [max(data)]: the first extremal element;
    [ValueError] on an empty sequence. *)
Definition min_of (data : list num) : result num :=
  match data with
  | [] => Raise ValueError
  | x :: rest => Ok (fold_left (fun m y => if lt y m then y else m) rest x)
  end.

Definition max_of (data : list num) : result num :=
  match data with
  | [] => Raise ValueError
  | x :: rest => Ok (fold_left (fun m y => if gt y m then y else m) rest x)
  end.

(** A [str] is a sequence of Unicode code points. *)
Definition str := list N.

Definition lit (s : string) : str := map N_of_ascii (list_ascii_of_string s).

(** [s * n]: empty when [n <= 0]. *)
Definition str_repeat (s : str) (n : Z) : str := concat (repeat s (Z.to_nat n)).

(** [xs * n] on a list. *)
Definition list_repeat {A : Type} (xs : list A) (n : Z) : list A :=
  concat (repeat xs (Z.to_nat n)).

(** [xs[i]] and [xs[i] = v] for an index [0 <= i]. *)
Definition getitem {A : Type} (xs : list A) (i : Z) : result A :=
  match nth_error xs (Z.to_nat i) with
  | Some a => Ok a
  | None => Raise IndexError
  end.

Fixpoint set_nth {A : Type} (xs : list A) (i : nat) (v : A) : list A :=
  match xs, i with
  | [], _ => []
  | _ :: rest, O => v :: rest
  | x :: rest, S j => x :: set_nth rest j v
  end.

Definition setitem {A : Type} (xs : list A) (i : Z) (v : A) : result (list A) :=
  if (Z.to_nat i <? length xs)%nat then Ok (set_nth xs (Z.to_nat i) v)
  else Raise IndexError.

(** [xs[-n:]] *)
Definition slice_last {A : Type} (xs : list A) (n : Z) : list A :=
  if 0 <? n then skipn (length xs - Z.to_nat n)%nat xs
  else skipn (Z.to_nat (- n)) xs.

End Py.

Import Binary64 Py.

(** ** The state of an [LVMCacheMonitor] *)

(** [collections.deque(maxlen=n)] *)
Module Deque.

Record deque := { maxlen : Z; items : list num }.

(** [deque(maxlen=n)] raises [ValueError] on a negative [n]. *)
Definition new (n : Z) : result deque :=
  if n <? 0 then Raise ValueError else Ok {| maxlen := n; items := [] |}.

(** [d.append(x)]: push at the right end, then drop the leftmost element
    when the length exceeds [maxlen]. *)
Definition append (d : deque) (x : num) : deque :=
  let xs := items d ++ [x] in
  {| maxlen := maxlen d;
     items := if maxlen d <? Z.of_nat (length xs) then tl xs else xs |}.

Definition len (d : deque) : Z := Z.of_nat (length (items d)).

End Deque.

Record monitor := {
  vg_name : str;
  lv_name : str;
  max_history : Z;
  cache_usage_history : Deque.deque;
  hit_ratio_history : Deque.deque;
  dirty_ratio_history : Deque.deque;
  read_hit_ratio_history : Deque.deque;
  write_hit_ratio_history : Deque.deque;
  terminal_width : Z;
  terminal_height : Z
}.

Definition ESC : N := 27.
Definition FULL_BLOCK : N := 9608.
Definition LIGHT_SHADE : N := 9617.
Definition BLACK_CIRCLE : N := 9679.
Definition SPACE : N := 32.

(** [self.colors] *)
Definition colors : list (string * str) :=
  [ ("reset"%string,  ESC :: lit "[0m");
    ("green"%string,  ESC :: lit "[92m");
    ("yellow"%string, ESC :: lit "[93m");
    ("red"%string,    ESC :: lit "[91m");
    ("blue"%string,   ESC :: lit "[94m");
    ("cyan"%string,   ESC :: lit "[96m");
    ("bold"%string,   ESC :: lit "[1m");
    ("dim"%string,    ESC :: lit "[2m") ].

(** [self.colors.get(key, '')]; on the eight keys above it is
    [self.colors[key]]. *)
Definition color (key : string) : str :=
  match find (fun kv => String.eqb (fst kv) key) colors with
  | Some kv => snd kv
  | None => []
  end.

(** What the terminal and the environment answer when they are asked:
    [shutil.get_terminal_size()] returns (columns, lines) or raises;
    [os.environ.get('COLUMNS')] is unset ([None]) or a text, modelled by what
    [int()] gives on it ([Some None] when [int()] raises [ValueError]). *)
Record terminal := {
  get_terminal_size : result (Z * Z);
  env_COLUMNS : option (option Z);
  env_LINES : option (option Z)
}.

(** [int(os.environ.get(NAME, default))] *)
Definition env_int (v : option (option Z)) (default : Z) : result Z :=
  match v with
  | None => Ok default
  | Some (Some z) => Ok z
  | Some None => Raise ValueError
  end.

Definition set_terminal_size (self : monitor) (w h : Z) : monitor :=
  {| vg_name := vg_name self; lv_name := lv_name self;
     max_history := max_history self;
     cache_usage_history := cache_usage_history self;
     hit_ratio_history := hit_ratio_history self;
     dirty_ratio_history := dirty_ratio_history self;
     read_hit_ratio_history := read_hit_ratio_history self;
     write_hit_ratio_history := write_hit_ratio_history self;
     terminal_width := w; terminal_height := h |}.

Definition update_terminal_size (t : terminal) (self : monitor) : result monitor :=
  try_except
    (size <- get_terminal_size t ;;
     Ok (set_terminal_size self (fst size) (snd size)))
    [AttributeError; OSError]
    (try_except
       (w <- env_int (env_COLUMNS t) 80 ;;
        h <- env_int (env_LINES t) 24 ;;
        Ok (set_terminal_size self w h))
       [ValueError; TypeError]
       (Ok (set_terminal_size self 80 24))).

(** [LVMCacheMonitor.__init__] *)
Definition init (t : terminal) (vg lv : str) (max_history : Z) : result monitor :=
  h1 <- Deque.new max_history ;;
  h2 <- Deque.new max_history ;;
  h3 <- Deque.new max_history ;;
  h4 <- Deque.new max_history ;;
  h5 <- Deque.new max_history ;;
  update_terminal_size t
    {| vg_name := vg; lv_name := lv; max_history := max_history;
       cache_usage_history := h1; hit_ratio_history := h2;
       dirty_ratio_history := h3; read_hit_ratio_history := h4;
       write_hit_ratio_history := h5;
       terminal_width := 80; terminal_height := 24 |}.

(** ** Layout *)

Record widths := { bar_width : Z; graph_width : Z; widths_terminal_width : Z }.

Definition get_dynamic_widths (t : terminal) (self : monitor)
  : result (widths * monitor) :=
  self <- update_terminal_size t self ;;
  let label_space := 20 in
  let percentage_space := 8 in
  let margin := 4 in
  let bar_width :=
    Z.max 20 (terminal_width self - label_space - percentage_space - margin) in
  let graph_label_space := 8 in
  let graph_margin := 4 in
  let graph_width :=
    Z.max 30 (terminal_width self - graph_label_space - graph_margin) in
  Ok ({| bar_width := bar_width; graph_width := graph_width;
         widths_terminal_width := terminal_width self |}, self).

(** [if width is None: width = self.get_dynamic_widths()[key]] *)
Definition default_width (t : terminal) (width : option Z) (key : widths -> Z)
  (self : monitor) : result (Z * monitor) :=
  match width with
  | Some w => Ok (w, self)
  | None => ws <- get_dynamic_widths t self ;; Ok (key (fst ws), snd ws)
  end.

(** ** Metrics *)

(** The dictionary [get_lvm_cache_stats] returns. *)
Record stats := {
  total_blocks : Z;
  used_blocks : Z;
  dirty_blocks : Z;
  cache_usage_pct : num;
  dirty_ratio_pct : num;
  hit_ratio_pct : num;
  read_hit_ratio_pct : num;
  write_hit_ratio_pct : num;
  read_hits : Z;
  read_misses : Z;
  write_hits : Z;
  write_misses : Z;
  total_reads : Z;
  total_writes : Z;
  total_ops : Z;
  block_size : Z;
  pool_size_bytes : Z;
  estimated_read_blocks : Z;
  estimated_write_blocks : Z
}.

(** The eight integers read from the two [lvs] outputs. *)
Record raw_sample := {
  raw_pool_size_bytes : Z;
  raw_total_blocks : Z;
  raw_used_blocks : Z;
  raw_dirty_blocks : Z;
  raw_read_hits : Z;
  raw_read_misses : Z;
  raw_write_hits : Z;
  raw_write_misses : Z
}.

(** [(n / d * 100) if d > 0 else 0] *)
Definition percent (n d : Z) : result num :=
  if 0 <? d then q <- truediv (PInt n) (PInt d) ;; mul q (PInt 100)
  else Ok (PInt 0).

(** [pool_size_bytes // total_blocks if total_blocks > 0 else 4096] *)
Definition cache_block_size (pool_size_bytes total_blocks : Z) : Z :=
  if 0 <? total_blocks then pool_size_bytes / total_blocks else 4096.

(** The computation [get_lvm_cache_stats] performs once the eight integers
    are parsed: from "Calculate cache block size" to the returned dict. *)
Definition derive (r : raw_sample) : result stats :=
  let pool_size_bytes := raw_pool_size_bytes r in
  let total_blocks := raw_total_blocks r in
  let used_blocks := raw_used_blocks r in
  let dirty_blocks := raw_dirty_blocks r in
  let read_hits := raw_read_hits r in
  let read_misses := raw_read_misses r in
  let write_hits := raw_write_hits r in
  let write_misses := raw_write_misses r in
  let block_size := cache_block_size pool_size_bytes total_blocks in
  cache_usage_pct <- percent used_blocks total_blocks ;;
  dirty_ratio_pct <- percent dirty_blocks total_blocks ;;
  let total_reads := read_hits + read_misses in
  let total_writes := write_hits + write_misses in
  let total_ops := total_reads + total_writes in
  hit_ratio_pct <- percent (read_hits + write_hits) total_ops ;;
  read_hit_ratio_pct <- percent read_hits total_reads ;;
  write_hit_ratio_pct <- percent write_hits total_writes ;;
  read_weight <-
    (if 0 <? total_ops then truediv (PInt total_reads) (PInt total_ops)
     else Ok (PFloat (Fin (1 # 2)))) ;;
  write_weight <-
    (if 0 <? total_ops then truediv (PInt total_writes) (PInt total_ops)
     else Ok (PFloat (Fin (1 # 2)))) ;;
  product <- mul (PInt used_blocks) read_weight ;;
  estimated_read_blocks <- int_of product ;;
  let estimated_write_blocks := used_blocks - estimated_read_blocks in
  Ok {| total_blocks := total_blocks;
        used_blocks := used_blocks;
        dirty_blocks := dirty_blocks;
        cache_usage_pct := cache_usage_pct;
        dirty_ratio_pct := dirty_ratio_pct;
        hit_ratio_pct := hit_ratio_pct;
        read_hit_ratio_pct := read_hit_ratio_pct;
        write_hit_ratio_pct := write_hit_ratio_pct;
        read_hits := read_hits;
        read_misses := read_misses;
        write_hits := write_hits;
        write_misses := write_misses;
        total_reads := total_reads;
        total_writes := total_writes;
        total_ops := total_ops;
        block_size := block_size;
        pool_size_bytes := pool_size_bytes;
        estimated_read_blocks := estimated_read_blocks;
        estimated_write_blocks := estimated_write_blocks |}.

(** What one poll gives: each [subprocess.run(..., check=True)] returns the
    standard output or raises.  The text of the pool query is modelled by
    what [int(stdout.strip())] gives on it, the text of the volume query by
    the list [output.split()] in which each token carries what [int()] gives
    on it; [None] is a text on which [int()] raises [ValueError]. *)
Record poll := {
  pool_run : result (option Z);
  lvs_run : result (list (option Z))
}.

Definition parse_int (text : option Z) : result Z :=
  match text with Some z => Ok z | None => Raise ValueError end.

Definition get_lvm_cache_stats (p : poll) : result (option stats) :=
  try_except
    (pool_text <- pool_run p ;;
     pool_size_bytes <- parse_int pool_text ;;
     values <- lvs_run p ;;
     match values with
     | [] => Ok None
     | _ =>
       if 7 <=? Z.of_nat (length values) then
         total_blocks <- (v <- getitem values 0 ;; parse_int v) ;;
         used_blocks <- (v <- getitem values 1 ;; parse_int v) ;;
         dirty_blocks <- (v <- getitem values 2 ;; parse_int v) ;;
         read_hits <- (v <- getitem values 3 ;; parse_int v) ;;
         read_misses <- (v <- getitem values 4 ;; parse_int v) ;;
         write_hits <- (v <- getitem values 5 ;; parse_int v) ;;
         write_misses <- (v <- getitem values 6 ;; parse_int v) ;;
         st <- derive {| raw_pool_size_bytes := pool_size_bytes;
                         raw_total_blocks := total_blocks;
                         raw_used_blocks := used_blocks;
                         raw_dirty_blocks := dirty_blocks;
                         raw_read_hits := read_hits;
                         raw_read_misses := read_misses;
                         raw_write_hits := write_hits;
                         raw_write_misses := write_misses |} ;;
         Ok (Some st)
       else Ok None
     end)
    [CalledProcessError; ValueError; IndexError]
    (Ok None).

(** ** Renderers *)

Definition create_bar_graph (t : terminal) (value max_value : num)
  (width : option Z) (color_key : string) (self : monitor)
  : result (str * monitor) :=
  ws <- default_width t width bar_width self ;;
  let width := fst ws in
  let self := snd ws in
  filled <-
    (if Py.eq max_value (PInt 0) then Ok 0
     else ratio <- truediv value max_value ;;
          cells <- mul ratio (PInt width) ;;
          int_of cells) ;;
  let bar := str_repeat [FULL_BLOCK] filled
             ++ str_repeat [LIGHT_SHADE] (width - filled) in
  let color_code := color color_key in
  let reset := color "reset" in
  Ok (color_code ++ bar ++ reset, self).

Definition create_dual_cache_bar (t : terminal)
  (read_blocks write_blocks total_blocks : Z) (width : option Z)
  (self : monitor) : result (str * monitor) :=
  ws <- default_width t width bar_width self ;;
  let width := fst ws in
  let self := snd ws in
  if total_blocks =? 0 then Ok (str_repeat [LIGHT_SHADE] width, self)
  else
    read_portion <-
      (ratio <- truediv (PInt read_blocks) (PInt total_blocks) ;;
       cells <- mul ratio (PInt width) ;; int_of cells) ;;
    write_portion <-
      (ratio <- truediv (PInt write_blocks) (PInt total_blocks) ;;
       cells <- mul ratio (PInt width) ;; int_of cells) ;;
    let used_portion := read_portion + write_portion in
    let portions :=
      if width <? used_portion then
        if write_portion <=? read_portion
        then (width - write_portion, write_portion)
        else (read_portion, width - read_portion)
      else (read_portion, write_portion) in
    let read_portion := fst portions in
    let write_portion := snd portions in
    let used_portion := read_portion + write_portion in
    let empty_portion := width - used_portion in
    let green := color "green" in
    let red := color "red" in
    let reset := color "reset" in
    let read_bar := green ++ str_repeat [FULL_BLOCK] read_portion ++ reset in
    let write_bar := red ++ str_repeat [FULL_BLOCK] write_portion ++ reset in
    let empty_bar := str_repeat [LIGHT_SHADE] empty_portion in
    Ok (read_bar ++ write_bar ++ empty_bar, self).

(** The row on which [create_line_graph] draws [value]. *)
Definition plot_row (min_val range_val : num) (height : Z) (value : num)
  : result Z :=
  d <- sub value min_val ;;
  ratio <- truediv d range_val ;;
  scaled <- mul ratio (PInt (height - 1)) ;;
  cells <- int_of scaled ;;
  let y := height - 1 - cells in
  Ok (Z.max 0 (Z.min (height - 1) y)).

(** The body of [for i, value in enumerate(data[-width:])], from index [i]. *)
Fixpoint plot_points (min_val range_val : num) (width height : Z)
  (points : list num) (i : Z) (lines : list str) : result (list str) :=
  match points with
  | [] => Ok lines
  | value :: rest =>
    let x := i in
    if width <=? x then Ok lines
    else
      y <- plot_row min_val range_val height value ;;
      line <- getitem lines y ;;
      line_list <- setitem line x BLACK_CIRCLE ;;
      lines <- setitem lines y line_list ;;
      plot_points min_val range_val width height rest (i + 1) lines
  end.

Definition create_line_graph (t : terminal) (data : list num)
  (width : option Z) (height : Z) (self : monitor)
  : result (list str * monitor) :=
  ws <- default_width t width graph_width self ;;
  let width := fst ws in
  let self := snd ws in
  if (length data <? 2)%nat then Ok (list_repeat [[]] height, self)
  else
    min_val <- min_of data ;;
    max_val <- max_of data ;;
    range_val <- (if ne max_val min_val then sub max_val min_val
                  else Ok (PInt 1)) ;;
    let lines := map (fun _ => str_repeat [SPACE] width)
                     (seq 0 (Z.to_nat height)) in
    lines <- plot_points min_val range_val width height
               (slice_last data width) 0 lines ;;
    Ok (lines, self).

(** ** The frame *)

(** What the program does to the terminal. *)
Inductive action :=
| Print (line : str)         (* [print(line)] *)
| ClearScreen                (* [os.system('clear')] *)
| Sleep (seconds : Z).       (* [time.sleep(seconds)] *)

(** [str(z)] and [f"{z:3d}"] on an int. *)
Definition str_of_int (z : Z) : str := lit (NilZero.string_of_int (Z.to_int z)).

Definition format_3d (z : Z) : str :=
  let digits := str_of_int z in
  str_repeat [SPACE] (3 - Z.of_nat (length digits)) ++ digits.

Section Frame.

(** [f"{x:.1f}"] on a float: the decimal formatting of the Python runtime is
    not modelled. *)
Variable format_1f : float -> str.

Definition fmt_1f (x : num) : result str :=
  f <- as_float x ;; Ok (format_1f f).

(** The loop shared by [format_size] and [format_bytes]. *)
Fixpoint format_units (units : list str) (bytes_size : num) : result str :=
  match units with
  | [] => digits <- fmt_1f bytes_size ;; Ok (digits ++ lit "PB")
  | unit :: rest =>
    if lt bytes_size (PFloat (Fin 1024)) then
      digits <- fmt_1f bytes_size ;; Ok (digits ++ unit)
    else
      bytes_size <- truediv bytes_size (PFloat (Fin 1024)) ;;
      format_units rest bytes_size
  end.

Definition units : list str := [lit "B"; lit "KB"; lit "MB"; lit "GB"; lit "TB"].

Definition format_size (blocks : Z) (block_size : option Z) : result str :=
  let block_size := match block_size with None => 4096 | Some b => b end in
  format_units units (PInt (blocks * block_size)).

Definition format_bytes (bytes_size : Z) : result str :=
  format_units units (PInt bytes_size).

(** [for i, line in enumerate(lines): print(f"{100 - (i * 100 // len(lines)):3d}%|{line}|")] *)
Definition print_graph (lines : list str) : list action :=
  map (fun il : nat * str =>
         Print (format_3d (100 - Z.of_nat (fst il) * 100 / Z.of_nat (length lines))
                ++ lit "%|" ++ snd il ++ lit "|"))
      (combine (seq 0 (length lines)) lines).

(** The two lines under a graph. *)
Definition print_axis (history : Deque.deque) (graph_width : Z) : list action :=
  [ Print (lit "    " ++ str_repeat (lit "-") graph_width);
    Print (lit "    " ++ str_of_int (Deque.len history) ++ lit " samples ago"
           ++ str_repeat [SPACE] (graph_width - 15) ++ lit "now") ].

(** [green if pct > 80 else yellow if pct > 60 else red] *)
Definition hit_color (pct : num) : string :=
  if gt pct (PInt 80) then "green"%string
  else if gt pct (PInt 60) then "yellow"%string
  else "red"%string.

Definition error_line_1 : str :=
  color "red" ++ lit "Error: Could not retrieve LVM cache statistics"
  ++ color "reset".

Definition error_line_2 : str :=
  lit "Make sure the volume group and logical volume exist and you have sudo privileges.".

(** One historical graph: title, chart with its axis labels, caption. *)
Definition display_graph (t : terminal) (title : str) (history : Deque.deque)
  (graph_width : option Z) (default_graph_width : Z) (self : monitor)
  : result (list action * Z * monitor) :=
  ls <- create_line_graph t (Deque.items history) None 8 self ;;
  let lines := fst ls in
  let self := snd ls in
  let graph_width :=
    match graph_width with
    | Some w => w
    | None => match lines with
              | first :: _ => Z.of_nat (length first)
              | [] => default_graph_width
              end
    end in
  Ok (Print title :: print_graph lines ++ print_axis history graph_width,
      graph_width, self).

Definition display_history (t : terminal) (ws : widths) (self : monitor)
  : result (list action * monitor) :=
  if 1 <? Deque.len (cache_usage_history self) then
    g1 <- display_graph t
            (color "green" ++ lit "Cache Usage Over Time:" ++ color "reset")
            (cache_usage_history self) None (graph_width ws) self ;;
    let graph_width := snd (fst g1) in
    let self := snd g1 in
    g2 <- display_graph t
            (color "blue" ++ lit "Hit Ratio Over Time:" ++ color "reset")
            (hit_ratio_history self) (Some graph_width) graph_width self ;;
    let self := snd g2 in
    g3 <- display_graph t
            (color "cyan" ++ lit "Read Hit Ratio Over Time:" ++ color "reset")
            (read_hit_ratio_history self) (Some graph_width) graph_width self ;;
    let self := snd g3 in
    g4 <- display_graph t
            (color "yellow" ++ lit "Write Hit Ratio Over Time:" ++ color "reset")
            (write_hit_ratio_history self) (Some graph_width) graph_width self ;;
    let self := snd g4 in
    Ok ([ Print (color "bold" ++ lit "Historical Trends (last "
                 ++ str_of_int (Deque.len (cache_usage_history self))
                 ++ lit " samples):" ++ color "reset");
          Print [] ]
        ++ fst (fst g1) ++ [Print []]
        ++ fst (fst g2) ++ [Print []]
        ++ fst (fst g3) ++ [Print []]
        ++ fst (fst g4),
        self)
  else Ok ([], self).

(** A bar of the "Real-time Status" block with its label and percentage. *)
Definition display_bar (t : terminal) (label : str) (pct : num)
  (color_key : string) (self : monitor) : result (list action * monitor) :=
  b <- create_bar_graph t pct (PInt 100) None color_key self ;;
  digits <- fmt_1f pct ;;
  Ok ([Print (label ++ lit "[" ++ fst b ++ lit "] " ++ digits ++ lit "%")],
      snd b).

Definition display_stats (t : terminal) (st : option stats) (self : monitor)
  : result (list action * monitor) :=
  match st with
  | None => Ok ([Print error_line_1; Print error_line_2], self)
  | Some stats =>
    ws <- get_dynamic_widths t self ;;
    let widths := fst ws in
    let self := snd ws in
    let header_text :=
      lit "cachetop - " ++ vg_name self ++ lit "/" ++ lv_name self in
    let separator :=
      str_repeat (lit "=")
        (Z.min (Z.of_nat (length header_text) + 10)
               (widths_terminal_width widths)) in
    cache_pool_size <- format_bytes (pool_size_bytes stats) ;;
    used_cache_size <-
      format_size (used_blocks stats) (Some (block_size stats)) ;;
    dirty_cache_size <-
      format_size (dirty_blocks stats) (Some (block_size stats)) ;;
    read_cache_size <-
      format_size (estimated_read_blocks stats) (Some (block_size stats)) ;;
    write_cache_size <-
      format_size (estimated_write_blocks stats) (Some (block_size stats)) ;;
    usage <- fmt_1f (cache_usage_pct stats) ;;
    dirty <- fmt_1f (dirty_ratio_pct stats) ;;
    hit <- fmt_1f (hit_ratio_pct stats) ;;
    read_hit <- fmt_1f (read_hit_ratio_pct stats) ;;
    write_hit <- fmt_1f (write_hit_ratio_pct stats) ;;
    dual <- create_dual_cache_bar t (estimated_read_blocks stats)
              (estimated_write_blocks stats) (total_blocks stats) None self ;;
    let self := snd dual in
    b1 <- display_bar t (lit "Dirty Blocks  ") (dirty_ratio_pct stats)
            "blue" self ;;
    b2 <- display_bar t (lit "Hit Ratio     ") (hit_ratio_pct stats)
            (hit_color (hit_ratio_pct stats)) (snd b1) ;;
    b3 <- display_bar t (lit "Read Hits     ") (read_hit_ratio_pct stats)
            (hit_color (read_hit_ratio_pct stats)) (snd b2) ;;
    b4 <- display_bar t (lit "Write Hits    ") (write_hit_ratio_pct stats)
            (hit_color (write_hit_ratio_pct stats)) (snd b3) ;;
    hs <- display_history t widths (snd b4) ;;
    let self := snd hs in
    Ok ([ ClearScreen;
          Print (color "bold" ++ color "cyan" ++ header_text ++ color "reset");
          Print separator;
          Print [];
          Print (color "bold" ++ lit "Current Statistics:" ++ color "reset");
          Print (lit "Cache Pool:   " ++ cache_pool_size ++ lit " total");
          Print (lit "Cache Usage:  " ++ usage ++ lit "% (" ++ used_cache_size
                 ++ lit " used)");
          Print (lit "  " ++ [9500%N; 9472%N] ++ lit " Reads:   ~"
                 ++ read_cache_size ++ lit " ("
                 ++ str_of_int (estimated_read_blocks stats) ++ lit " blocks)");
          Print (lit "  " ++ [9492%N; 9472%N] ++ lit " Writes:  ~"
                 ++ write_cache_size ++ lit " ("
                 ++ str_of_int (estimated_write_blocks stats) ++ lit " blocks)");
          Print (lit "Dirty Blocks: " ++ dirty ++ lit "% (" ++ dirty_cache_size
                 ++ lit " dirty)");
          Print (lit "Hit Ratio:    " ++ hit ++ lit "% ("
                 ++ str_of_int (total_ops stats) ++ lit " total operations)");
          Print (lit "Read Hits:    " ++ read_hit ++ lit "% ("
                 ++ str_of_int (total_reads stats) ++ lit " read operations)");
          Print (lit "Write Hits:   " ++ write_hit ++ lit "% ("
                 ++ str_of_int (total_writes stats) ++ lit " write operations)");
          Print [];
          Print (color "bold" ++ lit "Real-time Status:" ++ color "reset");
          Print (lit "Cache Usage   [" ++ fst dual ++ lit "] " ++ usage
                 ++ lit "%");
          Print (lit "              " ++ color "green" ++ [FULL_BLOCK]
                 ++ color "reset" ++ lit " Read cache  " ++ color "red"
                 ++ [FULL_BLOCK] ++ color "reset" ++ lit " Write cache  "
                 ++ [LIGHT_SHADE] ++ lit " Free") ]
        ++ fst b1 ++ fst b2 ++ fst b3 ++ fst b4 ++ [Print []]
        ++ fst hs
        ++ [ Print [];
             Print (color "dim" ++ lit "Terminal: "
                    ++ str_of_int (widths_terminal_width widths) ++ lit "x"
                    ++ str_of_int (terminal_height self)
                    ++ lit " | Bar width: " ++ str_of_int (bar_width widths)
                    ++ lit " | Graph width: "
                    ++ str_of_int (graph_width widths)
                    ++ lit " | Press Ctrl+C to exit" ++ color "reset") ],
        self)
  end.

(** ** The monitoring loop *)

(** The five appends of [run]. *)
Definition store_history (stats : stats) (self : monitor) : monitor :=
  {| vg_name := vg_name self; lv_name := lv_name self;
     max_history := max_history self;
     cache_usage_history :=
       Deque.append (cache_usage_history self) (cache_usage_pct stats);
     hit_ratio_history :=
       Deque.append (hit_ratio_history self) (hit_ratio_pct stats);
     dirty_ratio_history :=
       Deque.append (dirty_ratio_history self) (dirty_ratio_pct stats);
     read_hit_ratio_history :=
       Deque.append (read_hit_ratio_history self) (read_hit_ratio_pct stats);
     write_hit_ratio_history :=
       Deque.append (write_hit_ratio_history self) (write_hit_ratio_pct stats);
     terminal_width := terminal_width self;
     terminal_height := terminal_height self |}.

(** [time.sleep(seconds)] raises [ValueError] on a negative length. *)
Definition sleep (seconds : Z) : result (list action) :=
  if seconds <? 0 then Raise ValueError else Ok [Sleep seconds].

(** One iteration of [while True] in [run]. *)
Definition tick (refresh_interval : Z) (p : poll) (t : terminal)
  (self : monitor) : result (list action * monitor) :=
  stats <- get_lvm_cache_stats p ;;
  let self := match stats with
              | Some st => store_history st self
              | None => self
              end in
  frame <- display_stats t stats self ;;
  pause <- sleep refresh_interval ;;
  Ok (fst frame ++ pause, snd frame).

(** What happens at an iteration: the loop polls (the environment answers
    with the outputs of [lvs] and the state of the terminal) or the operator
    interrupts it.  An interrupt is modelled at the boundary of an
    iteration. *)
Inductive event :=
| Poll (p : poll) (t : terminal)
| KeyboardInterrupt.

Inductive status :=
| Running (self : monitor)   (* the loop waits for its next iteration *)
| Exited (code : Z)          (* [sys.exit(code)] *)
| Crashed (e : exn).         (* an exception left [run] *)

(** [while True: ...] under [except KeyboardInterrupt], on the events of a
    finite prefix of an execution. *)
Fixpoint loop (refresh_interval : Z) (events : list event) (self : monitor)
  : list action * status :=
  match events with
  | [] => ([], Running self)
  | KeyboardInterrupt :: _ =>
    ([Print ([10%N] ++ color "cyan" ++ lit "Monitoring stopped."
             ++ color "reset")],
     Exited 0)
  | Poll p t :: rest =>
    match tick refresh_interval p t self with
    | Raise e => ([], Crashed e)
    | Ok (out, self) =>
      let r := loop refresh_interval rest self in (out ++ fst r, snd r)
    end
  end.

Definition run (refresh_interval : Z) (events : list event) (self : monitor)
  : list action * status :=
  let r := loop refresh_interval events self in
  ([ Print (color "cyan" ++ lit "Starting cachetop..." ++ color "reset");
     Print (lit "Monitoring: " ++ vg_name self ++ lit "/" ++ lv_name self);
     Print (lit "Refresh interval: " ++ str_of_int refresh_interval
            ++ lit " seconds");
     Sleep 2 ] ++ fst r,
   snd r).

End Frame.

(** ** The selection menu *)

(** What arrives on the standard input of a terminal in raw mode while
    [get_key] waits: a character, or the signal of an interrupt. *)
Inductive input := Typed (ch : N) | Sigint.

(** What a call of [get_key] gives to its caller: the key read, or the
    [KeyboardInterrupt] raised while it waits. *)
Inductive keypress := Key (key : str) | Interrupt.

(** [get_key] on the input that is pending: [sys.stdin.read(1)], and
    [sys.stdin.read(2)] more after an ESC.  The result is the key with the
    input left, or [None] while the input does not complete a key yet. *)
Definition get_key (pending : list input) : option (keypress * list input) :=
  match pending with
  | [] => None
  | Sigint :: rest => Some (Interrupt, rest)
  | Typed ch :: rest =>
    if (ch =? ESC)%N then
      match rest with
      | Typed a :: Typed b :: rest => Some (Key [ch; a; b], rest)
      | Sigint :: rest => Some (Interrupt, rest)
      | Typed _ :: Sigint :: rest => Some (Interrupt, rest)
      | _ => None
      end
    else Some (Key [ch], rest)
  end.

(** [a == b] on two strings. *)
Fixpoint str_eqb (a b : str) : bool :=
  match a, b with
  | [], [] => true
  | x :: a, y :: b => (x =? y)%N && str_eqb a b
  | _, _ => false
  end.

(** [xs[i]], with the negative indices of Python. *)
Definition subscript {A : Type} (xs : list A) (i : Z) : result A :=
  let n := Z.of_nat (length xs) in
  let j := if i <? 0 then i + n else i in
  if (j <? 0) || (n <=? j) then Raise IndexError
  else match nth_error xs (Z.to_nat j) with
       | Some a => Ok a
       | None => Raise IndexError
       end.

(** [a % b] on two ints. *)
Definition py_mod (a b : Z) : result Z :=
  if b =? 0 then Raise ZeroDivisionError else Ok (a mod b).

(** [print(s)] on the text of the standard output. *)
Definition print_text (s : str) : str := s ++ [10%N].

Definition KEY_UP : str := ESC :: lit "[A".
Definition KEY_DOWN : str := ESC :: lit "[B".

(** How [interactive_volume_selection] ends, or where it waits. *)
Inductive menu_status :=
| Selecting (selected : Z)                  (* waiting in [get_key] *)
| Returned (vg_name lv_name : option str)   (* [return vg_name, lv_name] *)
| MenuExited (code : Z)                     (* [sys.exit(code)] *)
| MenuCrashed (e : exn).                    (* an exception left the menu *)

(** The cursor movement and the lines of the menu. *)
Definition draw_menu (cache_volumes : list (str * str)) (selected : Z) : str :=
  ([ESC] ++ lit "[" ++ str_of_int (Z.of_nat (length cache_volumes) + 2)
   ++ lit "A")
  ++ ([ESC] ++ lit "[J")
  ++ concat
       (map (fun iv : nat * (str * str) =>
               let i := fst iv in
               let vg := fst (snd iv) in
               let lv := snd (snd iv) in
               if Z.of_nat i =? selected then
                 print_text (lit "  " ++ [8594%N] ++ lit " " ++ [ESC]
                             ++ lit "[92m" ++ vg ++ lit "/" ++ lv ++ [ESC]
                             ++ lit "[0m")
               else print_text (lit "    " ++ vg ++ lit "/" ++ lv))
            (combine (seq 0 (length cache_volumes)) cache_volumes)).

Definition cancelled : str :=
  print_text ([10%N] ++ [ESC] ++ lit "[91mSelection cancelled." ++ [ESC]
              ++ lit "[0m").

(** [while True: ...] of [interactive_volume_selection], on the keys the
    successive calls of [get_key] give; the text is what is written to the
    standard output. *)
Fixpoint menu_loop (cache_volumes : list (str * str)) (keys : list keypress)
  (selected : Z) : str * menu_status :=
  let menu := draw_menu cache_volumes selected in
  match subscript cache_volumes selected with
  | Raise e => (menu, MenuCrashed e)
  | Ok current =>
    let shown :=
      menu ++ print_text ([10%N] ++ lit "Selected: " ++ [ESC] ++ lit "[93m"
                          ++ fst current ++ lit "/" ++ snd current ++ [ESC]
                          ++ lit "[0m") in
    match keys with
    | [] => (shown, Selecting selected)
    | Interrupt :: _ => (shown ++ cancelled, MenuExited 0)
    | Key key :: rest =>
      if str_eqb key KEY_UP then
        match py_mod (selected - 1) (Z.of_nat (length cache_volumes)) with
        | Raise e => (shown, MenuCrashed e)
        | Ok selected =>
          let r := menu_loop cache_volumes rest selected in
          (shown ++ fst r, snd r)
        end
      else if str_eqb key KEY_DOWN then
        match py_mod (selected + 1) (Z.of_nat (length cache_volumes)) with
        | Raise e => (shown, MenuCrashed e)
        | Ok selected =>
          let r := menu_loop cache_volumes rest selected in
          (shown ++ fst r, snd r)
        end
      else if str_eqb key [13%N] || str_eqb key [10%N] then
        match subscript cache_volumes selected with
        | Raise e => (shown, MenuCrashed e)
        | Ok (vg_name, lv_name) =>
          (shown
           ++ print_text ([10%N] ++ [ESC] ++ lit "[96mSelected: " ++ vg_name
                          ++ lit "/" ++ lv_name ++ [ESC] ++ lit "[0m")
           ++ print_text (lit "Starting monitor..." ++ [10%N]),
           Returned (Some vg_name) (Some lv_name))
        end
      else if str_eqb key [3%N] then (shown ++ cancelled, MenuExited 0)
      else
        let r := menu_loop cache_volumes rest selected in
        (shown ++ fst r, snd r)
    end
  end.

Definition interactive_volume_selection (cache_volumes : list (str * str))
  (keys : list keypress) : str * menu_status :=
  match cache_volumes with
  | [] => (print_text (lit "No LVM cache volumes detected."),
           Returned None None)
  | _ =>
    let r := menu_loop cache_volumes keys 0 in
    (print_text ([10%N] ++ str_repeat (lit "=") 60)
     ++ print_text (lit "cachetop - LVM Cache Volume Selection")
     ++ print_text (str_repeat (lit "=") 60)
     ++ print_text (lit "Use " ++ [8593%N] ++ lit "/" ++ [8595%N]
                    ++ lit " arrow keys to navigate, Enter to select, Ctrl+C to exit"
                    ++ [10%N])
     ++ fst r,
     snd r)
  end.

(** ** The detection of the cache volumes *)

(** The characters [str.strip()] removes: those [str.isspace()] holds
    for. *)
Definition isspace (ch : N) : bool :=
  ((9 <=? ch) && (ch <=? 13) || (28 <=? ch) && (ch <=? 32)
   || (ch =? 133) || (ch =? 160) || (ch =? 5760)
   || (8192 <=? ch) && (ch <=? 8202)
   || (ch =? 8232) || (ch =? 8233) || (ch =? 8239) || (ch =? 8287)
   || (ch =? 12288))%N.

Fixpoint lstrip (s : str) : str :=
  match s with
  | ch :: rest => if isspace ch then lstrip rest else s
  | [] => []
  end.

Definition rstrip (s : str) : str := rev (lstrip (rev s)).

(** [s.strip()] *)
Definition strip (s : str) : str := rstrip (lstrip s).

(** [s.split(sep)] for a separator of one character. *)
Fixpoint split (sep : N) (s : str) : list str :=
  match s with
  | [] => [[]]
  | ch :: rest =>
    if (ch =? sep)%N then [] :: split sep rest
    else match split sep rest with
         | part :: parts => (ch :: part) :: parts
         | [] => [[ch]]
         end
  end.

Definition LINE_FEED : N := 10.
Definition PIPE : N := 124.

(** The truth value of a string. *)
Definition nonempty (s : str) : bool :=
  match s with [] => false | _ => true end.

(** [for line in ...: ...] of [detect_cache_volumes], from the volumes
    found so far. *)
Fixpoint scan_volumes (lines : list str) (cache_volumes : list (str * str))
  : list (str * str) :=
  match lines with
  | [] => cache_volumes
  | line :: lines =>
    if nonempty (strip line) then
      let parts := map strip (split PIPE line) in
      match parts with
      | vg_name :: lv_name :: policy :: _ =>
        if nonempty policy
        then scan_volumes lines (cache_volumes ++ [(vg_name, lv_name)])
        else scan_volumes lines cache_volumes
      | _ => scan_volumes lines cache_volumes
      end
    else scan_volumes lines cache_volumes
  end.

(** What [subprocess.run(cmd, ..., check=True)] does in
    [detect_cache_volumes]: it returns the standard output, or it raises --
    [FileNotFoundError], or another exception; [Raised OSError] stands for
    an [OSError] that is not a [FileNotFoundError]. *)
Inductive run_outcome :=
| Completed (stdout : str)
| FileNotFoundError
| Raised (e : exn).

Definition detect_cache_volumes (run : run_outcome)
  : result (list (str * str)) :=
  match run with
  | Completed stdout => Ok (scan_volumes (split LINE_FEED (strip stdout)) [])
  | FileNotFoundError => Ok []
  | Raised e => if exn_eqb e CalledProcessError then Ok [] else Raise e
  end.

(** ** The entry point *)

(** The namespace [parser.parse_args()] returns. *)
Record arguments := {
  args_vg : option str;
  args_lv : option str;
  args_interval : Z;
  args_history : Z;
  args_pick : bool
}.

(** What the environment of [main] answers: the [lvs] of the detection, the
    keys read by the menu, the [lvs -o cache_policy] of the verification
    (the standard output for the path [vg/lv], or an exception), the
    terminal when the monitor is built, and the iterations of the
    monitoring loop. *)
Record world := {
  detection : run_outcome;
  keys : list keypress;
  verification : str -> result str;
  terminal_at_start : terminal;
  events : list event
}.

(** The truth value of a variable that holds [None] or a string. *)
Definition truthy (name : option str) : bool :=
  match name with Some s => nonempty s | None => false end.

(** [f"{name}"] on such a variable. *)
Definition text_of (name : option str) : str :=
  match name with Some s => s | None => lit "None" end.

(** What [main] does, in order. *)
Inductive main_step :=
| Say (line : str)                  (* [print(line)] in [main] *)
| Menu (text : str)                 (* the text the menu writes *)
| Monitoring (out : list action).   (* what [monitor.run] does *)

(** How [main] ends, or where it waits. *)
Inductive main_status :=
| MainExited (code : Z)             (* [sys.exit(code)] *)
| MainCrashed (e : exn)             (* an exception left [main] *)
| MainSelecting (selected : Z)      (* the menu waits for a key *)
| MainRunning (self : monitor).     (* the monitoring loop runs *)

(** The volume [main] goes on with, or the end of [main]. *)
Inductive selection :=
| Selected (vg_name lv_name : option str)
| Stopped (status : main_status).

(** [main] up to "Verify the selected volume has cache". *)
Definition select_volume (args : arguments) (w : world)
  : list main_step * selection :=
  let vg_name := args_vg args in
  let lv_name := args_lv args in
  if truthy vg_name && truthy lv_name && negb (args_pick args) then
    ([Say ([ESC] ++ lit "[96mUsing specified volume: " ++ text_of vg_name
           ++ lit "/" ++ text_of lv_name ++ [ESC] ++ lit "[0m")],
     Selected vg_name lv_name)
  else
    let detecting :=
      Say ([ESC] ++ lit "[96mDetecting LVM cache volumes..." ++ [ESC]
           ++ lit "[0m") in
    match detect_cache_volumes (detection w) with
    | Raise e => ([detecting], Stopped (MainCrashed e))
    | Ok cache_volumes =>
      match cache_volumes with
      | [] =>
        ([detecting;
          Say ([ESC] ++ lit "[91mNo LVM cache volumes found." ++ [ESC]
               ++ lit "[0m");
          Say (lit "Make sure you have LVM cache configured and proper sudo privileges.")],
         Stopped (MainExited 1))
      | first :: others =>
        if (Z.of_nat (length cache_volumes) =? 1) && negb (args_pick args)
        then
          let vg_name := Some (fst first) in
          let lv_name := Some (snd first) in
          ([detecting;
            Say ([ESC] ++ lit "[92mAuto-detected cache volume: "
                 ++ text_of vg_name ++ lit "/" ++ text_of lv_name ++ [ESC]
                 ++ lit "[0m")],
           Selected vg_name lv_name)
        else
          let found :=
            if args_pick args
            then Say (lit "Interactive selection requested with --pick flag")
            else Say (lit "Found "
                      ++ str_of_int (Z.of_nat (length cache_volumes))
                      ++ lit " cache volumes") in
          let r := interactive_volume_selection cache_volumes (keys w) in
          let steps := [detecting; found; Menu (fst r)] in
          match snd r with
          | Returned vg_name lv_name =>
            if negb (truthy vg_name) || negb (truthy lv_name) then
              (steps ++ [Say ([ESC] ++ lit "[91mNo volume selected." ++ [ESC]
                              ++ lit "[0m")],
               Stopped (MainExited 1))
            else (steps, Selected vg_name lv_name)
          | MenuExited code => (steps, Stopped (MainExited code))
          | MenuCrashed e => (steps, Stopped (MainCrashed e))
          | Selecting selected => (steps, Stopped (MainSelecting selected))
          end
      end
    end.

Section Main.

Variable format_1f : float -> str.

Definition main (args : arguments) (w : world)
  : list main_step * main_status :=
  let chosen := select_volume args w in
  match snd chosen with
  | Stopped status => (fst chosen, status)
  | Selected vg_name lv_name =>
    let path := text_of vg_name ++ lit "/" ++ text_of lv_name in
    match verification w path with
    | Raise e =>
      if exn_eqb e CalledProcessError then
        (fst chosen
         ++ [Say ([ESC] ++ lit "[91mError: Cannot access " ++ path
                  ++ lit ". Check volume names and permissions." ++ [ESC]
                  ++ lit "[0m")],
         MainExited 1)
      else (fst chosen, MainCrashed e)
    | Ok stdout =>
      if nonempty (strip stdout) then
        match init (terminal_at_start w) (text_of vg_name) (text_of lv_name)
                   (args_history args) with
        | Raise e => (fst chosen, MainCrashed e)
        | Ok monitor =>
          let r := run format_1f (args_interval args) (events w) monitor in
          (fst chosen ++ [Monitoring (fst r)],
           match snd r with
           | Running self => MainRunning self
           | Exited code => MainExited code
           | Crashed e => MainCrashed e
           end)
        end
      else
        (fst chosen
         ++ [Say ([ESC] ++ lit "[91mError: " ++ path
                  ++ lit " does not appear to have cache configured."
                  ++ [ESC] ++ lit "[0m")],
         MainExited 1)
    end
  end.

End Main.

(** ** Vocabulary of the specification

    These definitions do not come from the program: they say what the
    specification talks about. *)

(** The cells of a string that show on the terminal: an escape sequence
    [ESC ... m] selects a colour and takes no cell. *)
Fixpoint strip_escapes (in_escape : bool) (s : str) : str :=
  match s with
  | [] => []
  | c :: rest =>
    if in_escape then strip_escapes (negb (N.eqb c 109)) rest
    else if N.eqb c ESC then strip_escapes true rest
    else c :: strip_escapes false rest
  end.

Definition visible (s : str) : str := strip_escapes false s.

Definition visible_length (s : str) : Z := Z.of_nat (length (visible s)).

(** The rationals [M * 2^E] with [0 <= M <= 2^53] and [-1074 <= E]: the
    non-negative values a binary64 float can take, up to overflow. *)
Definition on_grid (K : Q) : Prop :=
  exists M E : Z,
    0 <= M <= 2 ^ 53 /\ -1074 <= E /\ (K == inject_Z M * pow2 E)%Q.

(** A number the program can hold without an infinity or a NaN: an int of
    magnitude at most [2^1023], or a finite float. *)
Definition finite_num (n : num) : Prop :=
  match n with
  | PInt z => - 2 ^ 1023 <= z <= 2 ^ 1023
  | PFloat (Fin q) => on_grid (Qabs q) /\ (Qabs q < pow2 1024)%Q
  | PFloat _ => False
  end.

(** The rational a finite number denotes. *)
Definition value_of (n : num) : Q :=
  match n with
  | PInt z => inject_Z z
  | PFloat (Fin q) => q
  | PFloat _ => 0
  end.

(** The last [n] elements of a list. *)
Definition lastn {A : Type} (n : nat) (xs : list A) : list A :=
  skipn (length xs - n) xs.

Fixpoint mapM {A B : Type} (f : A -> result B) (xs : list A) : result (list B) :=
  match xs with
  | [] => Ok []
  | x :: rest => y <- f x ;; ys <- mapM f rest ;; Ok (y :: ys)
  end.

Definition clamp (lo hi x : Z) : Z := Z.max lo (Z.min hi x).

(** "row = height - 1 - floor((value - min_val) / range * (height - 1)),
    clamped to [0, height - 1]" *)
Definition chart_row (min_val range_val : num) (height : Z) (value : num)
  : result Z :=
  d <- sub value min_val ;;
  ratio <- truediv d range_val ;;
  scaled <- mul ratio (PInt (height - 1)) ;;
  cells <- floor_of scaled ;;
  Ok (clamp 0 (height - 1) (height - 1 - cells)).

(** The glyph at column [x] of row [y] when the point of column [x] is on
    row [rows[x]]. *)
Definition glyph_at (rows : list Z) (x y : nat) : N :=
  match nth_error rows x with
  | Some r => if r =? Z.of_nat y then BLACK_CIRCLE else SPACE
  | None => SPACE
  end.

(** The chart in which column [x] carries one glyph, on row [rows[x]]. *)
Definition chart_of_rows (width height : Z) (rows : list Z) : list str :=
  map (fun y : nat => map (fun x : nat => glyph_at rows x y)
                          (seq 0 (Z.to_nat width)))
      (seq 0 (Z.to_nat height)).

(** The line chart as the specification describes it. *)
Definition line_chart_spec (data : list num) (width height : Z)
  : result (list str) :=
  if (length data <? 2)%nat then Ok (repeat [] (Z.to_nat height))
  else
    min_val <- min_of data ;;
    max_val <- max_of data ;;
    range_val <- (if Py.eq max_val min_val then Ok (PInt 1)
                  else sub max_val min_val) ;;
    rows <- mapM (chart_row min_val range_val height)
                 (lastn (Z.to_nat width) data) ;;
    Ok (chart_of_rows width height rows).

(** The contents of a series after the values [vs] were appended to it. *)
Definition append_all (d : Deque.deque) (vs : list num) : Deque.deque :=
  fold_left Deque.append vs d.

(** A series built by [deque(maxlen=n)] and appends holds at most [maxlen]
    values. *)
Definition deque_ok (d : Deque.deque) : Prop :=
  0 <= Deque.maxlen d /\ Deque.len d <= Deque.maxlen d.

(** The five series of a monitor have the capacity [max_history]. *)
Definition monitor_ok (self : monitor) : Prop :=
  Forall (fun d => deque_ok d /\ Deque.maxlen d = max_history self)
    [ cache_usage_history self; hit_ratio_history self;
      dirty_ratio_history self; read_hit_ratio_history self;
      write_hit_ratio_history self ].

(** The monitor after the samples [sts] were stored, oldest first. *)
Definition store_all (sts : list stats) (self : monitor) : monitor :=
  fold_left (fun m st => store_history st m) sts self.

(** A RawSample: the counters are non-negative integers. *)
Definition raw_sample_ok (r : raw_sample) : Prop :=
  0 <= raw_pool_size_bytes r /\ 0 <= raw_total_blocks r
  /\ 0 <= raw_used_blocks r /\ 0 <= raw_dirty_blocks r
  /\ 0 <= raw_read_hits r /\ 0 <= raw_read_misses r
  /\ 0 <= raw_write_hits r /\ 0 <= raw_write_misses r.

(** [read_weight] of the derivation. *)
Definition read_weight_of (r : raw_sample) : result num :=
  let total_reads := raw_read_hits r + raw_read_misses r in
  let total_ops := total_reads + (raw_write_hits r + raw_write_misses r) in
  if 0 <? total_ops then truediv (PInt total_reads) (PInt total_ops)
  else Ok (PFloat (Fin (1 # 2))).

(** The series of the example of the specification. *)
Definition series_10_20 : list num := [PInt 10; PInt 20; PInt 10; PInt 20].

(** The floats of the Standard Library's executable specification of
    IEEE 754 ([SpecFloat], with 53 bits of precision and [emax = 1024]), to
    compare [fl] with. *)
Definition of_spec_float (x : SpecFloat.spec_float) : float :=
  match x with
  | SpecFloat.S754_zero _ => Fin 0
  | SpecFloat.S754_infinity s => Inf s
  | SpecFloat.S754_nan => NaN
  | SpecFloat.S754_finite s m e =>
      Fin (inject_Z (if s then Zneg m else Zpos m) * pow2 e)
  end.

Definition float_eqb (x y : float) : bool :=
  match x, y with
  | Fin a, Fin b => Qeq_bool a b
  | Inf s, Inf t => Bool.eqb s t
  | NaN, NaN => true
  | _, _ => false
  end.

Definition spec_of_Z (z : Z) : SpecFloat.spec_float :=
  SpecFloat.binary_normalize 53 1024 z 0 false.

Definition spec_value (x : SpecFloat.spec_float) : Q :=
  match of_spec_float x with Fin q => q | _ => 0 end.

(** Pairs of integers whose quotients serve as sample floats. *)
Definition sample_pairs : list (Z * Z) :=
  [ (1, 49); (2, 3); (1, 3); (22, 7); (355, 113); (1, 10); (7, 1000);
    (2 ^ 60 + 5, 2 ^ 61 - 1); (1, 2 ^ 1000); (2 ^ 1000, 3);
    (123456789, 987654321); (-5, 3); (5, -7); (2 ^ 53 - 1, 2 ^ 1074);
    (3, 2 ^ 1075); (2 ^ 1023, 1) ].

Definition sample_floats : list SpecFloat.spec_float :=
  map (fun ab => SpecFloat.SFdiv 53 1024 (spec_of_Z (fst ab))
                   (spec_of_Z (snd ab)))
      sample_pairs.

(** A value a history series can hold without trouble: a finite
    non-negative number, whose conversion to a float is exact when it is an
    int. *)
Definition plain_value (v : num) : Prop :=
  finite_num v /\ (0 <= value_of v)%Q
  /\ match v with PInt z => z <= 2 ^ 53 | PFloat _ => True end.

(** Two monitors that differ by the cached size of the terminal at most. *)
Definition same_histories (a b : monitor) : Prop :=
  vg_name b = vg_name a /\ lv_name b = lv_name a
  /\ max_history b = max_history a
  /\ cache_usage_history b = cache_usage_history a
  /\ hit_ratio_history b = hit_ratio_history a
  /\ dirty_ratio_history b = dirty_ratio_history a
  /\ read_hit_ratio_history b = read_hit_ratio_history a
  /\ write_hit_ratio_history b = write_hit_ratio_history a.

(** The iteration of the event [ev] polls the sample [st]. *)
Definition polled (ev : event) (st : stats) : Prop :=
  exists (p : poll) (t : terminal),
    ev = Poll p t /\ get_lvm_cache_stats p = Ok (Some st).

(** A consistent sample: the used and the dirty blocks are among the
    [total_blocks], of which there are at most 2^53, and the size of the
    pool fits 64 bits. *)
Definition sane_sample (r : raw_sample) : Prop :=
  raw_sample_ok r
  /\ raw_used_blocks r <= raw_total_blocks r
  /\ raw_dirty_blocks r <= raw_total_blocks r
  /\ raw_total_blocks r <= 2 ^ 53
  /\ raw_pool_size_bytes r <= 2 ^ 64.

(** A percentage as the specification wants it: a plain value at most
    100. *)
Definition percentage (v : num) : Prop :=
  plain_value v /\ (value_of v <= 100)%Q.

(** The metrics of a consistent sample. *)
Definition sane_stats (st : stats) : Prop :=
  Forall percentage
    [ cache_usage_pct st; dirty_ratio_pct st; hit_ratio_pct st;
      read_hit_ratio_pct st; write_hit_ratio_pct st ]
  /\ 0 <= total_blocks st <= 2 ^ 53
  /\ 0 <= used_blocks st <= total_blocks st
  /\ 0 <= dirty_blocks st <= total_blocks st
  /\ 0 <= estimated_read_blocks st <= used_blocks st
  /\ 0 <= estimated_write_blocks st <= used_blocks st
  /\ estimated_read_blocks st + estimated_write_blocks st = used_blocks st
  /\ 0 <= pool_size_bytes st <= 2 ^ 64
  /\ 0 <= block_size st <= 2 ^ 64.





(** The keys the successive calls of [get_key] read from the input typed
    so far; an interrupt ends the reading. *)
Fixpoint keys_of (pending : list input) : list keypress :=
  match pending with
  | [] => []
  | Sigint :: _ => [Interrupt]
  | Typed ch :: rest =>
    if (ch =? ESC)%N then
      match rest with
      | Typed a :: Typed b :: rest => Key [ch; a; b] :: keys_of rest
      | Sigint :: _ => [Interrupt]
      | Typed _ :: Sigint :: _ => [Interrupt]
      | _ => []
      end
    else Key [ch] :: keys_of rest
  end.

(** A string that does not begin, or end, with a space. *)
Definition starts_clean (s : str) : Prop :=
  match s with [] => True | ch :: _ => isspace ch = false end.

Definition ends_clean (s : str) : Prop := starts_clean (rev s).

(** A field of the report of [lvs]: no separator, no line feed, no space at
    its ends. *)
Definition clean (field : str) : Prop :=
  ~ In PIPE field /\ ~ In LINE_FEED field /\ strip field = field.

(** The line of [lvs --noheadings -o vg_name,lv_name,cache_policy
    --separator '|'] for a volume. *)
Definition report_line (row : str * str * str) : str :=
  lit "  " ++ fst (fst row) ++ [PIPE] ++ snd (fst row) ++ [PIPE] ++ snd row.

(** The lines of a report, each one ended by a line feed. *)
Definition report (rows : list (str * str * str)) : str :=
  concat (map (fun row => report_line row ++ [LINE_FEED]) rows).

(** The volumes of a report that have a cache policy. *)
Definition cached (rows : list (str * str * str)) : list (str * str) :=
  map fst (filter (fun row => nonempty (snd row)) rows).

(** ** A terminal and a monitor to evaluate the definitions on *)

(** A terminal of 80 columns and 24 lines, no environment variable set. *)
Definition terminal_80x24 : terminal :=
  {| get_terminal_size := Ok (80, 24); env_COLUMNS := None; env_LINES := None |}.

(** The monitor [LVMCacheMonitor("vg_games", "games", n)] builds on a
    terminal of 80 columns and 24 lines, for [0 <= n]. *)
Definition fresh_monitor (n : Z) : monitor :=
  let empty := {| Deque.maxlen := n; Deque.items := [] |} in
  {| vg_name := lit "vg_games"; lv_name := lit "games"; max_history := n;
     cache_usage_history := empty; hit_ratio_history := empty;
     dirty_ratio_history := empty; read_hit_ratio_history := empty;
     write_hit_ratio_history := empty;
     terminal_width := 80; terminal_height := 24 |}.

(** A command line and an environment of [main]: two volumes are reported,
    one of them cached; the operator interrupts the monitor at once. *)
Definition sample_arguments (pick : bool) (history : Z) : arguments :=
  {| args_vg := Some (lit "vg_games"); args_lv := Some (lit "games");
     args_interval := 2; args_history := history; args_pick := pick |}.

Definition sample_world : world :=
  {| detection :=
       Completed (report [ (lit "vg_games", lit "games", lit "smq");
                           (lit "vg_games", lit "scratch", []) ]);
     keys := [Key [13%N]];
     verification := fun _ => Ok (lit "  smq");
     terminal_at_start := terminal_80x24;
     events := [KeyboardInterrupt] |}.

(* ================================================================== *)
(** * Part II: lemmas and theorems *)
(* ================================================================== *)

(** ** Strings *)

Lemma str_repeat_single (c : N) (n : Z) :
  str_repeat [c] n = repeat c (Z.to_nat n).
Proof.
  unfold str_repeat. induction (Z.to_nat n) as [|k IH]; simpl.
  - reflexivity.
  - now rewrite IH.
Qed.

Lemma str_repeat_length (c : N) (n : Z) :
  Z.of_nat (length (str_repeat [c] n)) = Z.max 0 n.
Proof. rewrite str_repeat_single, repeat_length. lia. Qed.

Lemma strip_escapes_app_plain (s1 s2 : str) :
  ~ In ESC s1 ->
  strip_escapes false (s1 ++ s2) = s1 ++ strip_escapes false s2.
Proof.
  induction s1 as [|c s1 IH]; simpl; intros H.
  - reflexivity.
  - destruct (N.eqb_spec c ESC) as [E|E].
    + exfalso. apply H. now left.
    + f_equal. apply IH. intros HI. apply H. now right.
Qed.

Lemma visible_repeat (c : N) (n : nat) (s : str) :
  c <> ESC -> visible (repeat c n ++ s) = repeat c n ++ visible s.
Proof.
  intros Hc. unfold visible. apply strip_escapes_app_plain.
  intros HI. apply repeat_spec in HI. congruence.
Qed.

Lemma visible_color (key : string) (s : str) :
  visible (color key ++ s) = visible s.
Proof.
  unfold color. simpl.
  repeat match goal with
         | |- context [if ?b then _ else _] => destruct b; [reflexivity|]
         end.
  reflexivity.
Qed.

(** ** The dual bar on an empty cache (C10) *)



(** ** The block size (C7) *)

Lemma derive_block_size (r : raw_sample) (st : stats) :
  derive r = Ok st ->
  block_size st = cache_block_size (raw_pool_size_bytes r) (raw_total_blocks r).
Proof.
  unfold derive, bind. intros H.
  repeat match type of H with
         | match ?c with _ => _ end = _ => destruct c; try discriminate
         end.
  now inversion H.
Qed.

(** C7, as the code has it.  The block size is the floor of
    [pool_size_bytes / total_blocks] when [total_blocks > 0] and 4096 when
    [total_blocks = 0]; for a non-negative pool size it is non-negative, and
    it is positive exactly when the pool holds at least one byte per
    block. *)
Theorem block_size_floor (pool_size_bytes total_blocks : Z) :
  0 <= pool_size_bytes ->
  (total_blocks = 0 -> cache_block_size pool_size_bytes total_blocks = 4096)
  /\ (0 < total_blocks ->
      cache_block_size pool_size_bytes total_blocks
        = pool_size_bytes / total_blocks
      /\ total_blocks * cache_block_size pool_size_bytes total_blocks
           <= pool_size_bytes
           < total_blocks * (cache_block_size pool_size_bytes total_blocks + 1)
      /\ 0 <= cache_block_size pool_size_bytes total_blocks
      /\ (0 < cache_block_size pool_size_bytes total_blocks
          <-> total_blocks <= pool_size_bytes)).
Proof.
  intros Hp. unfold cache_block_size. split.
  - intros ->. reflexivity.
  - intros Ht. destruct (Z.ltb_spec 0 total_blocks) as [_|C]; [|lia].
    pose proof (Z.mul_div_le pool_size_bytes total_blocks Ht).
    pose proof (Z.mul_succ_div_gt pool_size_bytes total_blocks Ht).
    pose proof (Z.div_pos pool_size_bytes total_blocks Hp Ht).
    repeat split; try lia; nia.
Qed.

Lemma block_size_floor_witness :
  cache_block_size 4096000 1000 = 4096 /\ 0 < cache_block_size 4096000 1000.
Proof.
  destruct (block_size_floor 4096000 1000 ltac:(lia)) as [_ H].
  destruct (H ltac:(lia)) as (H1 & _ & _ & H4).
  split; [rewrite H1; reflexivity | apply H4; lia].
Defined.

(** C7 fails as stated: a pool smaller than the number of blocks gives the
    block size 0, which is not positive. *)
Lemma block_size_not_positive :
  exists st : stats,
    derive {| raw_pool_size_bytes := 1000; raw_total_blocks := 4096;
              raw_used_blocks := 0; raw_dirty_blocks := 0;
              raw_read_hits := 0; raw_read_misses := 0;
              raw_write_hits := 0; raw_write_misses := 0 |} = Ok st
    /\ ~ 0 < block_size st.
Proof.
  eexists. split; [vm_compute; reflexivity|]. simpl. lia.
Qed.

(** ** The layout (C9) *)

Lemma widths_of_measured (t : terminal) (self : monitor) (w h : Z) :
  get_terminal_size t = Ok (w, h) ->
  get_dynamic_widths t self
    = Ok ({| bar_width := Z.max 20 (w - 32); graph_width := Z.max 30 (w - 12);
             widths_terminal_width := w |},
          set_terminal_size self w h).
Proof.
  intros H. unfold get_dynamic_widths, update_terminal_size. rewrite H. simpl.
  do 3 f_equal; f_equal; lia.
Qed.

(** C9, as the code has it.  When the query of the terminal size fails and
    the variables COLUMNS and LINES are unset, or one of them is not an
    integer, the layout is the one of an 80x24 terminal: [bar_width = 48] and
    [graph_width = 68].  A size that was measured is used as it is: for the
    width 0 the two formulas give their minimums, 20 and 30. *)
Theorem layout_fallback (t : terminal) (self : monitor) :
  (forall e : exn,
      get_terminal_size t = Raise e ->
      e = OSError \/ e = AttributeError ->
      (env_COLUMNS t = None /\ env_LINES t = None)
      \/ env_COLUMNS t = Some None
      \/ ((env_COLUMNS t = None \/ exists c, env_COLUMNS t = Some (Some c))
          /\ env_LINES t = Some None) ->
      get_dynamic_widths t self
        = Ok ({| bar_width := 48; graph_width := 68;
                 widths_terminal_width := 80 |},
              set_terminal_size self 80 24))
  /\ (forall h : Z,
         get_terminal_size t = Ok (0, h) ->
         get_dynamic_widths t self
           = Ok ({| bar_width := 20; graph_width := 30;
                    widths_terminal_width := 0 |},
                 set_terminal_size self 0 h)).
Proof.
  split.
  - intros e He Hk Henv.
    unfold get_dynamic_widths, update_terminal_size. rewrite He.
    destruct Hk as [-> | ->]; simpl;
      destruct Henv as [[-> ->] | [-> | [[-> | [c ->]] ->]]]; reflexivity.
  - intros h H. now rewrite (widths_of_measured t self 0 h H).
Qed.

Lemma layout_fallback_witness :
  get_dynamic_widths
    {| get_terminal_size := Raise OSError; env_COLUMNS := None;
       env_LINES := None |}
    (fresh_monitor 60)
  = Ok ({| bar_width := 48; graph_width := 68; widths_terminal_width := 80 |},
        set_terminal_size (fresh_monitor 60) 80 24).
Proof.
  apply (proj1 (layout_fallback
                  {| get_terminal_size := Raise OSError; env_COLUMNS := None;
                     env_LINES := None |} (fresh_monitor 60)) OSError).
  - reflexivity.
  - left. reflexivity.
  - left. split; reflexivity.
Defined.

(** C9 fails as stated: a terminal that reports the width 0 is not replaced
    by 80 columns; the layout is derived from the width 0. *)
Lemma layout_zero_width_not_80 :
  exists (ws : widths) (self : monitor),
    get_dynamic_widths
      {| get_terminal_size := Ok (0, 0); env_COLUMNS := None;
         env_LINES := None |}
      (fresh_monitor 60) = Ok (ws, self)
    /\ terminal_width self = 0
    /\ bar_width ws = 20 /\ graph_width ws = 30
    /\ ~ (bar_width ws = 48 /\ graph_width ws = 68).
Proof.
  do 2 eexists. split; [reflexivity|]. simpl.
  repeat split; try reflexivity. intros [H _]. discriminate.
Qed.

(** The same holds on the path of the environment variables: COLUMNS=0 is
    taken as the width. *)
Lemma layout_zero_COLUMNS (self : monitor) :
  get_dynamic_widths
    {| get_terminal_size := Raise OSError; env_COLUMNS := Some (Some 0);
       env_LINES := Some (Some 24) |} self
  = Ok ({| bar_width := 20; graph_width := 30; widths_terminal_width := 0 |},
        set_terminal_size self 0 24).
Proof. reflexivity. Qed.

(** ** The history series (C5) *)

Section History.

Local Open Scope nat_scope.

Lemma lastn_all {A : Type} (n : nat) (xs : list A) :
  length xs <= n -> lastn n xs = xs.
Proof.
  intros H. unfold lastn. replace (length xs - n) with 0 by lia. reflexivity.
Qed.

Lemma lastn_length {A : Type} (n : nat) (xs : list A) :
  length (lastn n xs) = Nat.min n (length xs).
Proof. unfold lastn. rewrite length_skipn. lia. Qed.

Lemma lastn_app_long {A : Type} (n : nat) (xs ys : list A) :
  n <= length ys -> lastn n (xs ++ ys) = lastn n ys.
Proof.
  intros H. unfold lastn. rewrite skipn_app, length_app.
  rewrite (skipn_all2 xs) by lia. simpl. f_equal. lia.
Qed.

Lemma lastn_drop_head {A : Type} (n : nat) (x : A) (xs : list A) :
  n <= length xs -> lastn n (x :: xs) = lastn n xs.
Proof.
  intros H. unfold lastn. simpl length.
  replace (S (length xs) - n) with (S (length xs - n)) by lia. reflexivity.
Qed.

End History.

Lemma append_maxlen (d : Deque.deque) (x : num) :
  Deque.maxlen (Deque.append d x) = Deque.maxlen d.
Proof. reflexivity. Qed.

Lemma append_all_cons (d : Deque.deque) (v : num) (vs : list num) :
  append_all d (v :: vs) = append_all (Deque.append d v) vs.
Proof. reflexivity. Qed.

Lemma append_all_maxlen (vs : list num) (d : Deque.deque) :
  Deque.maxlen (append_all d vs) = Deque.maxlen d.
Proof.
  revert d. induction vs as [|v vs IH]; intros d.
  - reflexivity.
  - now rewrite append_all_cons, IH.
Qed.

(** One append keeps the last [maxlen] elements of what was appended. *)
Lemma append_items (d : Deque.deque) (x : num) :
  deque_ok d ->
  Deque.items (Deque.append d x)
    = lastn (Z.to_nat (Deque.maxlen d)) (Deque.items d ++ [x]).
Proof.
  intros [H0 Hlen]. unfold Deque.len in Hlen. unfold Deque.append. simpl.
  rewrite length_app. simpl length.
  destruct (Z.ltb_spec (Deque.maxlen d)
              (Z.of_nat (length (Deque.items d) + 1))) as [C|C].
  - assert (E : length (Deque.items d) = Z.to_nat (Deque.maxlen d)) by lia.
    destruct (Deque.items d) as [|y ys] eqn:Ei.
    + simpl in *. assert (Deque.maxlen d = 0) by lia.
      replace (Deque.maxlen d) with 0 by lia. reflexivity.
    + simpl app. simpl tl. rewrite lastn_drop_head.
      * symmetry. apply lastn_all. rewrite length_app. simpl in *. lia.
      * rewrite length_app. simpl in *. lia.
  - symmetry. apply lastn_all. rewrite length_app. simpl. lia.
Qed.

Lemma append_ok (d : Deque.deque) (x : num) :
  deque_ok d -> deque_ok (Deque.append d x).
Proof.
  intros H. pose proof (append_items d x H) as E. destruct H as [H0 Hlen].
  split; [exact H0|]. unfold Deque.len. rewrite E, lastn_length.
  rewrite append_maxlen. lia.
Qed.

Lemma lastn_lastn_app {A : Type} (n : nat) (xs ys : list A) :
  lastn n (lastn n xs ++ ys) = lastn n (xs ++ ys).
Proof.
  assert (E : xs ++ ys
              = firstn (length xs - n) xs ++ (lastn n xs ++ ys)).
  { unfold lastn. now rewrite app_assoc, firstn_skipn. }
  destruct (Nat.le_gt_cases n (length (lastn n xs ++ ys))) as [C|C].
  - rewrite E. symmetry. apply lastn_app_long. exact C.
  - rewrite length_app, lastn_length in C.
    rewrite (lastn_all n xs) by lia. reflexivity.
Qed.

(** The series after a sequence of appends. *)
Lemma append_all_items (vs : list num) (d : Deque.deque) :
  deque_ok d ->
  Deque.items (append_all d vs)
    = lastn (Z.to_nat (Deque.maxlen d)) (Deque.items d ++ vs).
Proof.
  revert d. induction vs as [|v vs IH]; intros d Hd.
  - simpl. rewrite app_nil_r. symmetry. apply lastn_all.
    destruct Hd as [H0 H1]. unfold Deque.len in H1. lia.
  - rewrite append_all_cons, IH by now apply append_ok.
    rewrite append_maxlen, append_items by exact Hd.
    rewrite lastn_lastn_app, <- app_assoc. reflexivity.
Qed.

Lemma append_all_last (vs : list num) (d : Deque.deque) (k : Z) :
  deque_ok d ->
  Z.of_nat (length vs) = Deque.maxlen d + k -> 0 <= k ->
  Deque.items (append_all d vs) = lastn (Z.to_nat (Deque.maxlen d)) vs
  /\ Deque.len (append_all d vs) = Deque.maxlen d.
Proof.
  intros Hd Hl Hk. pose proof Hd as [H0 H1].
  rewrite append_all_items by exact Hd.
  rewrite lastn_app_long by lia. split; [reflexivity|].
  unfold Deque.len. rewrite append_all_items by exact Hd.
  rewrite lastn_app_long by lia. rewrite lastn_length. lia.
Qed.

Lemma store_all_histories (sts : list stats) (self : monitor) :
  cache_usage_history (store_all sts self)
    = append_all (cache_usage_history self) (map cache_usage_pct sts)
  /\ hit_ratio_history (store_all sts self)
    = append_all (hit_ratio_history self) (map hit_ratio_pct sts)
  /\ dirty_ratio_history (store_all sts self)
    = append_all (dirty_ratio_history self) (map dirty_ratio_pct sts)
  /\ read_hit_ratio_history (store_all sts self)
    = append_all (read_hit_ratio_history self) (map read_hit_ratio_pct sts)
  /\ write_hit_ratio_history (store_all sts self)
    = append_all (write_hit_ratio_history self) (map write_hit_ratio_pct sts).
Proof.
  revert self. induction sts as [|st sts IH]; intros self.
  - repeat split.
  - unfold store_all in *. simpl fold_left.
    destruct (IH (store_history st self)) as (H1 & H2 & H3 & H4 & H5).
    rewrite H1, H2, H3, H4, H5. repeat split.
Qed.

Lemma series_last (d : Deque.deque) (cap : Z) (vs : list num) (k : Z) :
  deque_ok d /\ Deque.maxlen d = cap -> 1 <= k ->
  Z.of_nat (length vs) = cap + k ->
  Deque.items (append_all d vs) = lastn (Z.to_nat cap) vs.
Proof.
  intros [Hd <-] Hk Hl. apply (append_all_last vs d k); lia || assumption.
Qed.

(** Probing the terminal changes the two cached dimensions only. *)
Lemma update_terminal_size_sets (t : terminal) (self self' : monitor) :
  update_terminal_size t self = Ok self' ->
  exists w h : Z, self' = set_terminal_size self w h.
Proof.
  unfold update_terminal_size.
  destruct (get_terminal_size t) as [[w h]|e]; simpl.
  - intros H. injection H as <-. now exists w, h.
  - destruct e; cbn; try (intros H; discriminate H);
      destruct (env_COLUMNS t) as [[c|]|], (env_LINES t) as [[l|]|];
      cbn; intros H; injection H as <-; eauto.
Qed.


(** ** The frame leaves the series alone *)

Lemma same_histories_refl (a : monitor) : same_histories a a.
Proof. repeat split. Qed.

Lemma same_histories_trans (a b c : monitor) :
  same_histories a b -> same_histories b c -> same_histories a c.
Proof.
  unfold same_histories. intros H1 H2. intuition congruence.
Qed.

Ltac bind_inv H :=
  repeat match type of H with
         | bind ?c _ = Ok _ =>
           let E := fresh "E" in
           destruct c as [[? ?]|?] eqn:E; [|discriminate H]; cbn [bind fst snd] in H
         | bind ?c _ = Ok _ =>
           let E := fresh "E" in
           destruct c eqn:E; [|discriminate H]; cbn [bind fst snd] in H
         end.

Lemma update_terminal_size_same (t : terminal) (self self' : monitor) :
  update_terminal_size t self = Ok self' -> same_histories self self'.
Proof.
  intros H. apply update_terminal_size_sets in H as (w & h & ->).
  repeat split.
Qed.

Lemma get_dynamic_widths_same (t : terminal) (self self' : monitor) (ws : widths) :
  get_dynamic_widths t self = Ok (ws, self') -> same_histories self self'.
Proof.
  unfold get_dynamic_widths. intros H. bind_inv H.
  injection H as _ <-. now apply (update_terminal_size_same t).
Qed.

Lemma default_width_same (t : terminal) (width : option Z) (key : widths -> Z)
  (self self' : monitor) (w : Z) :
  default_width t width key self = Ok (w, self') -> same_histories self self'.
Proof.
  unfold default_width. destruct width as [w0|].
  - intros H. injection H as _ <-. apply same_histories_refl.
  - intros H. bind_inv H. injection H as _ <-.
    eapply get_dynamic_widths_same. eassumption.
Qed.

Lemma create_bar_graph_same (t : terminal) (value max_value : num)
  (width : option Z) (color_key : string) (self self' : monitor) (bar : str) :
  create_bar_graph t value max_value width color_key self = Ok (bar, self') ->
  same_histories self self'.
Proof.
  unfold create_bar_graph. intros H. bind_inv H. injection H as _ <-.
  eapply default_width_same. eassumption.
Qed.

Lemma create_dual_cache_bar_same (t : terminal)
  (read_blocks write_blocks total_blocks : Z) (width : option Z)
  (self self' : monitor) (bar : str) :
  create_dual_cache_bar t read_blocks write_blocks total_blocks width self
  = Ok (bar, self') ->
  same_histories self self'.
Proof.
  unfold create_dual_cache_bar. intros H. bind_inv H.
  destruct (total_blocks =? 0).
  - injection H as _ <-. eapply default_width_same. eassumption.
  - bind_inv H. injection H as _ <-. eapply default_width_same. eassumption.
Qed.

Lemma create_line_graph_same (t : terminal) (data : list num)
  (width : option Z) (height : Z) (self self' : monitor) (lines : list str) :
  create_line_graph t data width height self = Ok (lines, self') ->
  same_histories self self'.
Proof.
  unfold create_line_graph. intros H. bind_inv H.
  destruct (length data <? 2)%nat.
  - injection H as _ <-. eapply default_width_same. eassumption.
  - bind_inv H. injection H as _ <-. eapply default_width_same. eassumption.
Qed.

Section FrameHistories.

Variable format_1f : float -> str.

Lemma display_graph_same (t : terminal) (title : str) (history : Deque.deque)
  (graph_width : option Z) (default_graph_width : Z) (self self' : monitor)
  (out : list action) (w : Z) :
  display_graph t title history graph_width default_graph_width self
  = Ok (out, w, self') ->
  same_histories self self'.
Proof.
  unfold display_graph. intros H. bind_inv H. injection H as _ _ <-.
  eapply create_line_graph_same. eassumption.
Qed.

Lemma display_history_same (t : terminal) (ws : widths) (self self' : monitor)
  (out : list action) :
  display_history t ws self = Ok (out, self') -> same_histories self self'.
Proof.
  unfold display_history. intros H.
  destruct (1 <? Deque.len (cache_usage_history self)).
  - repeat match type of H with
           | bind ?c _ = Ok _ =>
             let E := fresh "E" in
             destruct c as [[[? ?] ?]|?] eqn:E; [|discriminate H];
             cbn [bind fst snd] in H;
             apply display_graph_same in E
           end.
    injection H as _ <-.
    repeat (eapply same_histories_trans; [eassumption|]).
    apply same_histories_refl.
  - injection H as _ <-. apply same_histories_refl.
Qed.

Lemma display_bar_same (t : terminal) (label : str) (pct : num)
  (color_key : string) (self self' : monitor) (out : list action) :
  display_bar format_1f t label pct color_key self = Ok (out, self') ->
  same_histories self self'.
Proof.
  unfold display_bar. intros H. bind_inv H. injection H as _ <-.
  eapply create_bar_graph_same. eassumption.
Qed.

Lemma display_stats_same (t : terminal) (st : option stats)
  (self self' : monitor) (out : list action) :
  display_stats format_1f t st self = Ok (out, self') ->
  same_histories self self'.
Proof.
  unfold display_stats. destruct st as [st|].
  - intros H. bind_inv H. injection H as _ <-.
    repeat match goal with
           | E : get_dynamic_widths _ _ = Ok _ |- _ =>
             apply get_dynamic_widths_same in E
           | E : create_dual_cache_bar _ _ _ _ _ _ = Ok _ |- _ =>
             apply create_dual_cache_bar_same in E
           | E : display_bar _ _ _ _ _ _ = Ok _ |- _ =>
             apply display_bar_same in E
           | E : display_history _ _ _ = Ok _ |- _ =>
             apply display_history_same in E
           end.
    repeat (eapply same_histories_trans; [eassumption|]).
    apply same_histories_refl.
  - intros H. injection H as _ <-. apply same_histories_refl.
Qed.

(** An iteration on a sample stores it; the frame does not touch the
    series. *)
Lemma tick_stores (refresh_interval : Z) (p : poll) (t : terminal)
  (self self' : monitor) (st : stats) (out : list action) :
  get_lvm_cache_stats p = Ok (Some st) ->
  tick format_1f refresh_interval p t self = Ok (out, self') ->
  same_histories (store_history st self) self'.
Proof.
  intros Hp. unfold tick. rewrite Hp. cbn [bind]. intros H. bind_inv H.
  injection H as _ <-. eapply display_stats_same. eassumption.
Qed.

End FrameHistories.

Lemma store_history_same (st : stats) (a b : monitor) :
  same_histories a b ->
  same_histories (store_history st a) (store_history st b).
Proof.
  unfold same_histories, store_history. simpl.
  intros (H1 & H2 & H3 & H4 & H5 & H6 & H7 & H8).
  rewrite H1, H2, H3, H4, H5, H6, H7, H8. repeat split.
Qed.

Lemma store_all_same (sts : list stats) (a b : monitor) :
  same_histories a b -> same_histories (store_all sts a) (store_all sts b).
Proof.
  revert a b. induction sts as [|st sts IH]; intros a b H.
  - exact H.
  - apply (IH (store_history st a) (store_history st b)).
    now apply store_history_same.
Qed.

(** The loop, as long as it runs, stores the samples it polls. *)
Lemma loop_stores (format_1f : float -> str) (refresh_interval : Z)
  (events : list event) (sts : list stats) (self self' : monitor)
  (out : list action) :
  Forall2 polled events sts ->
  loop format_1f refresh_interval events self = (out, Running self') ->
  same_histories (store_all sts self) self'.
Proof.
  intros Hev. revert self out.
  induction Hev as [|ev st events sts (p & t & -> & Hp) _ IH]; intros self out.
  - simpl. intros H. injection H as _ <-. apply same_histories_refl.
  - cbn [loop].
    destruct (tick format_1f refresh_interval p t self) as [[o s1]|e] eqn:Et;
      [|discriminate].
    destruct (loop format_1f refresh_interval events s1) as [o' status] eqn:El.
    cbn [fst snd]. intros H. injection H as _ ->.
    apply same_histories_trans with (store_all sts s1).
    + apply (store_all_same sts (store_history st self) s1).
      now apply (tick_stores format_1f refresh_interval p t self s1 st o).
    + now apply (IH s1 o').
Qed.

(** The five series after the samples [sts] were stored. *)
Lemma store_all_keeps_last (self : monitor) (sts : list stats) (k : Z) :
  monitor_ok self -> 1 <= k ->
  Z.of_nat (length sts) = max_history self + k ->
  let cap := Z.to_nat (max_history self) in
  Deque.items (cache_usage_history (store_all sts self))
    = lastn cap (map cache_usage_pct sts)
  /\ Deque.items (hit_ratio_history (store_all sts self))
    = lastn cap (map hit_ratio_pct sts)
  /\ Deque.items (dirty_ratio_history (store_all sts self))
    = lastn cap (map dirty_ratio_pct sts)
  /\ Deque.items (read_hit_ratio_history (store_all sts self))
    = lastn cap (map read_hit_ratio_pct sts)
  /\ Deque.items (write_hit_ratio_history (store_all sts self))
    = lastn cap (map write_hit_ratio_pct sts).
Proof.
  intros Hok Hk Hl cap. unfold monitor_ok in Hok.
  repeat match goal with
         | H : Forall _ (_ :: _) |- _ => inversion_clear H
         end.
  destruct (store_all_histories sts self) as (E1 & E2 & E3 & E4 & E5).
  subst cap. rewrite E1, E2, E3, E4, E5.
  repeat split; apply series_last with (k := k);
    try assumption; rewrite length_map; exact Hl.
Qed.

(** C5. After [capacity + k] appends, [k >= 1], a series holds exactly
    [capacity] values: the last [capacity] values appended, oldest first.
    An append to a full series drops the oldest value in the same call.  In
    the loop, each of the five series holds the last [max_history] values of
    its percentage. *)
Theorem history_keeps_last :
  (forall (d : Deque.deque) (vs : list num) (k : Z),
      deque_ok d -> 1 <= k ->
      Z.of_nat (length vs) = Deque.maxlen d + k ->
      Deque.items (append_all d vs) = lastn (Z.to_nat (Deque.maxlen d)) vs
      /\ Deque.len (append_all d vs) = Deque.maxlen d)
  /\ (forall (d : Deque.deque) (x : num),
         deque_ok d -> 0 < Deque.maxlen d -> Deque.len d = Deque.maxlen d ->
         Deque.items (Deque.append d x) = tl (Deque.items d) ++ [x])
  /\ (forall (format_1f : float -> str) (refresh_interval : Z)
             (events : list event) (sts : list stats) (self self' : monitor)
             (out : list action) (k : Z),
         monitor_ok self -> 1 <= k ->
         Z.of_nat (length sts) = max_history self + k ->
         Forall2 polled events sts ->
         loop format_1f refresh_interval events self = (out, Running self') ->
         let cap := Z.to_nat (max_history self) in
         Deque.items (cache_usage_history self')
           = lastn cap (map cache_usage_pct sts)
         /\ Deque.items (hit_ratio_history self')
           = lastn cap (map hit_ratio_pct sts)
         /\ Deque.items (dirty_ratio_history self')
           = lastn cap (map dirty_ratio_pct sts)
         /\ Deque.items (read_hit_ratio_history self')
           = lastn cap (map read_hit_ratio_pct sts)
         /\ Deque.items (write_hit_ratio_history self')
           = lastn cap (map write_hit_ratio_pct sts)).
Proof.
  split; [|split].
  - intros d vs k Hd Hk Hl. apply append_all_last with (k := k); lia || assumption.
  - intros d x Hd Hpos Hfull. unfold Deque.len in Hfull.
    unfold Deque.append. simpl. rewrite length_app. simpl length.
    destruct (Z.ltb_spec (Deque.maxlen d)
                (Z.of_nat (length (Deque.items d) + 1))) as [C|C]; [|lia].
    destruct (Deque.items d) as [|y ys]; [simpl in Hfull; lia | reflexivity].
  - intros format_1f refresh_interval events sts self self' out k
           Hok Hk Hl Hev Hloop cap.
    destruct (loop_stores format_1f refresh_interval events sts self self' out
                Hev Hloop) as (_ & _ & _ & S1 & S2 & S3 & S4 & S5).
    rewrite S1, S2, S3, S4, S5.
    now apply store_all_keeps_last with (k := k).
Qed.

Lemma history_keeps_last_witness :
  Deque.items
    (append_all {| Deque.maxlen := 2; Deque.items := [] |}
                [PInt 1; PInt 2; PInt 3])
  = [PInt 2; PInt 3]
  /\ Deque.len
       (append_all {| Deque.maxlen := 2; Deque.items := [] |}
                   [PInt 1; PInt 2; PInt 3]) = 2.
Proof.
  apply (proj1 history_keeps_last
               {| Deque.maxlen := 2; Deque.items := [] |}
               [PInt 1; PInt 2; PInt 3] 1).
  - split; simpl; unfold Deque.len; simpl; lia.
  - lia.
  - reflexivity.
Defined.

(** ** An unavailable sample (C6) *)




(** ** Rounding to binary64

    The facts on [fl] the claims need: the rounding is sandwiched by the
    points of the grid, so it is exact on them and never crosses one. *)

Section Rounding.

Local Open Scope Q_scope.

Lemma pow2_pos e : 0 < pow2 e.
Proof. apply Qpower_0_lt. reflexivity. Qed.

Lemma pow2_add a b : pow2 (a + b) == pow2 a * pow2 b.
Proof. apply Qpower_plus. discriminate. Qed.

Lemma pow2_le a b : (a <= b)%Z -> pow2 a <= pow2 b.
Proof. intros H. apply Qpower_le_compat_l; [exact H | discriminate]. Qed.

Lemma pow2_lt a b : (a < b)%Z -> pow2 a < pow2 b.
Proof. intros H. apply Qpower_lt_compat_l; [exact H | reflexivity]. Qed.

Lemma pow2_Z e : (0 <= e)%Z -> pow2 e == inject_Z (2 ^ e).
Proof. intros H. unfold pow2. now rewrite Zpower_Qpower. Qed.

Lemma pow2_sub a b : pow2 (a - b) == pow2 a / pow2 b.
Proof.
  unfold Z.sub. rewrite pow2_add. unfold pow2 at 2.
  rewrite Qpower_opp. reflexivity.
Qed.

Lemma pow2_0 : pow2 0 == 1.
Proof. reflexivity. Qed.

Lemma div_pow2 q e : q / pow2 e == q * pow2 (- e).
Proof. unfold pow2. rewrite Qpower_opp. reflexivity. Qed.

Lemma Qlog2_spec q : 0 < q -> pow2 (Qlog2 q) <= q /\ q < pow2 (Qlog2 q + 1).
Proof.
  intros Hq. destruct q as [n d]. unfold Qlog2. cbn [Qnum Qden].
  assert (Hn : (0 < n)%Z).
  { unfold Qlt in Hq. cbn in Hq. lia. }
  destruct (Z.log2_spec n Hn) as [Hn1 Hn2].
  destruct (Z.log2_spec (Zpos d) (Pos2Z.is_pos d)) as [Hd1 Hd2].
  set (a := Z.log2 n) in *. set (b := Z.log2 (Zpos d)) in *.
  assert (Ha : (0 <= a)%Z) by apply Z.log2_nonneg.
  assert (Hb : (0 <= b)%Z) by apply Z.log2_nonneg.
  assert (Hq' : n # d == inject_Z n / inject_Z (Zpos d)) by apply Qmake_Qdiv.
  assert (Hdpos : 0 < inject_Z (Zpos d)) by (unfold Qlt; cbn; lia).
  assert (HA : pow2 a == inject_Z (2 ^ a)) by now apply pow2_Z.
  assert (HB : pow2 b == inject_Z (2 ^ b)) by now apply pow2_Z.
  assert (HA1 : pow2 (a + 1) == inject_Z (2 ^ (a + 1))) by (apply pow2_Z; lia).
  assert (HB1 : pow2 (b + 1) == inject_Z (2 ^ (b + 1))) by (apply pow2_Z; lia).
  assert (Hn1q : pow2 a <= inject_Z n) by (rewrite HA, <- Zle_Qle; exact Hn1).
  assert (Hn2q : inject_Z n < pow2 (a + 1)) by (rewrite HA1, <- Zlt_Qlt; exact Hn2).
  assert (Hd1q : pow2 b <= inject_Z (Zpos d)) by (rewrite HB, <- Zle_Qle; exact Hd1).
  assert (Hd2q : inject_Z (Zpos d) < pow2 (b + 1)) by (rewrite HB1, <- Zlt_Qlt; exact Hd2).
  pose proof (pow2_pos b) as Pb. pose proof (pow2_pos a) as Pa.
  assert (Hdiv : forall x y, 0 < y -> x / y * y == x).
  { intros x y Hy. rewrite Qmult_comm. apply Qmult_div_r.
    intros H0. rewrite H0 in Hy. discriminate. }
  destruct (Qle_bool (pow2 (a - b)) (n # d)) eqn:E.
  - apply Qle_bool_iff in E. split; [exact E|].
    rewrite Hq'. apply Qlt_shift_div_r; [exact Hdpos|].
    replace (a - b + 1)%Z with ((a + 1) - b)%Z by lia.
    rewrite pow2_sub.
    apply Qlt_le_trans with (pow2 (a + 1)); [exact Hn2q|].
    rewrite <- (Hdiv (pow2 (a + 1)) (pow2 b) Pb) at 1.
    apply Qmult_le_l; [|exact Hd1q].
    apply Qlt_shift_div_l; [exact Pb|]. rewrite Qmult_0_l. apply pow2_pos.
  - assert (E' : n # d < pow2 (a - b)).
    { apply Qnot_le_lt. intros H. apply Qle_bool_iff in H. congruence. }
    replace (a - b - 1 + 1)%Z with (a - b)%Z by lia.
    split; [|exact E'].
    rewrite Hq'. apply Qle_shift_div_l; [exact Hdpos|].
    replace (a - b - 1)%Z with (a - (b + 1))%Z by lia.
    rewrite pow2_sub.
    apply Qle_trans with (pow2 a); [|exact Hn1q].
    rewrite <- (Hdiv (pow2 a) (pow2 (b + 1)) (pow2_pos _)) at 2.
    apply Qmult_le_l; [|apply Qlt_le_weak; exact Hd2q].
    apply Qlt_shift_div_l; [apply pow2_pos|]. rewrite Qmult_0_l. exact Pa.
Qed.

Lemma rne_bounds x : (Qfloor x <= rne x <= Qfloor x + 1)%Z.
Proof.
  unfold rne. destruct (Qcompare _ _); [destruct (Z.even _)| |]; lia.
Qed.

Lemma rne_comp x y : x == y -> rne x = rne y.
Proof.
  intros H. unfold rne. rewrite (Qfloor_comp _ _ H).
  assert (H' : x - inject_Z (Qfloor y) == y - inject_Z (Qfloor y)) by now rewrite H.
  now rewrite H'.
Qed.

Lemma rne_le_int x z : x <= inject_Z z -> (rne x <= z)%Z.
Proof.
  intros H. pose proof (Qfloor_resp_le _ _ H) as Hf. rewrite Qfloor_Z in Hf.
  destruct (Z.eq_dec (Qfloor x) z) as [E|E].
  - unfold rne. rewrite E.
    destruct (Qcompare_spec (x - inject_Z z) (1 # 2)) as [C|C|C]; try lia; lra.
  - pose proof (rne_bounds x). lia.
Qed.

Lemma rne_ge_int x z : inject_Z z <= x -> (z <= rne x)%Z.
Proof.
  intros H. pose proof (Qfloor_resp_le _ _ H) as Hf. rewrite Qfloor_Z in Hf.
  pose proof (rne_bounds x). lia.
Qed.

Lemma rne_Z z : rne (inject_Z z) = z.
Proof.
  apply Z.le_antisymm; [apply rne_le_int | apply rne_ge_int]; apply Qle_refl.
Qed.

Lemma rne_mono x y : x <= y -> (rne x <= rne y)%Z.
Proof.
  intros H. pose proof (Qfloor_resp_le _ _ H) as Hf.
  destruct (Z.eq_dec (Qfloor x) (Qfloor y)) as [E|E].
  - unfold rne. rewrite E.
    destruct (Qcompare_spec (x - inject_Z (Qfloor y)) (1 # 2)) as [C|C|C];
      destruct (Qcompare_spec (y - inject_Z (Qfloor y)) (1 # 2)) as [D|D|D];
      try destruct (Z.even (Qfloor y)); try lia; lra.
  - pose proof (rne_bounds x). pose proof (rne_bounds y). lia.
Qed.

Lemma scale_int M E e : (e <= E)%Z ->
  inject_Z M * pow2 E / pow2 e == inject_Z (M * 2 ^ (E - e)).
Proof.
  intros H. rewrite inject_Z_mult, <- pow2_Z by lia. rewrite pow2_sub.
  unfold Qdiv. ring.
Qed.

Lemma Qdiv_le_compat q K p : 0 < p -> q <= K -> q / p <= K / p.
Proof.
  intros Hp H. unfold Qdiv. apply Qmult_le_compat_r; [exact H|].
  apply Qlt_le_weak, Qinv_lt_0_compat, Hp.
Qed.

Lemma Qdiv_mult_pow2 q e : q / pow2 e * pow2 e == q.
Proof.
  rewrite Qmult_comm. apply Qmult_div_r.
  intros H. pose proof (pow2_pos e) as P. rewrite H in P. discriminate.
Qed.

Lemma round_pos_le q K : 0 < q -> q <= K -> on_grid K -> round_pos q <= K.
Proof.
  intros Hq HK (M & E & HM & HE & HKe). unfold round_pos.
  destruct (Qlog2_spec q Hq) as [L1 L2].
  set (l := Qlog2 q) in *. set (e := fexp l).
  pose proof (pow2_pos e) as Pe.
  destruct (Z_le_gt_dec e E) as [C|C].
  - assert (H1 : (rne (q / pow2 e) <= M * 2 ^ (E - e))%Z).
    { apply rne_le_int. rewrite <- scale_int by exact C.
      apply Qdiv_le_compat; [exact Pe|]. now rewrite <- HKe. }
    rewrite HKe. rewrite <- (Qdiv_mult_pow2 (inject_Z M * pow2 E) e).
    apply Qmult_le_compat_r; [|apply Qlt_le_weak, Pe].
    rewrite scale_int by exact C. now rewrite <- Zle_Qle.
  - assert (He : e = (l - 52)%Z) by (unfold e, fexp in *; lia).
    assert (Hl : (l <= 53 + E)%Z).
    { apply Qpower_le_compat_l_inv with (q := 2); [|reflexivity].
      fold (pow2 l). fold (pow2 (53 + E)). rewrite pow2_add.
      apply Qle_trans with q; [exact L1|]. apply Qle_trans with K; [exact HK|].
      rewrite HKe. apply Qmult_le_compat_r; [|apply Qlt_le_weak, pow2_pos].
      rewrite pow2_Z by lia. rewrite <- Zle_Qle. lia. }
    assert (El : l = (53 + E)%Z) by lia.
    assert (HKq : q == pow2 l).
    { apply Qle_antisym; [|exact L1]. apply Qle_trans with K; [exact HK|].
      rewrite HKe, El, pow2_add.
      apply Qmult_le_compat_r; [|apply Qlt_le_weak, pow2_pos].
      rewrite pow2_Z by lia. rewrite <- Zle_Qle. lia. }
    assert (Hm : q / pow2 e == inject_Z (2 ^ 52)).
    { rewrite HKq, <- pow2_sub, He. replace (l - (l - 52))%Z with 52%Z by lia.
      apply pow2_Z. lia. }
    rewrite (rne_comp _ _ Hm), rne_Z, <- Hm, Qdiv_mult_pow2. exact HK.
Qed.

Lemma round_pos_ge q K : 0 < q -> K <= q -> on_grid K -> K <= round_pos q.
Proof.
  intros Hq HK (M & E & HM & HE & HKe). unfold round_pos.
  destruct (Qlog2_spec q Hq) as [L1 L2].
  set (l := Qlog2 q) in *. set (e := fexp l).
  pose proof (pow2_pos e) as Pe.
  destruct (Z_le_gt_dec e E) as [C|C].
  - assert (H1 : (M * 2 ^ (E - e) <= rne (q / pow2 e))%Z).
    { apply rne_ge_int. rewrite <- scale_int by exact C.
      apply Qdiv_le_compat; [exact Pe|]. now rewrite <- HKe. }
    rewrite HKe. rewrite <- (Qdiv_mult_pow2 (inject_Z M * pow2 E) e).
    apply Qmult_le_compat_r; [|apply Qlt_le_weak, Pe].
    rewrite scale_int by exact C. now rewrite <- Zle_Qle.
  - assert (He : e = (l - 52)%Z) by (unfold e, fexp in *; lia).
    assert (H1 : (2 ^ 52 <= rne (q / pow2 e))%Z).
    { apply rne_ge_int. rewrite <- pow2_Z by lia.
      replace 52%Z with (l - e)%Z by lia. rewrite pow2_sub.
      apply Qdiv_le_compat; [exact Pe | exact L1]. }
    apply Qle_trans with (pow2 l).
    + rewrite HKe. replace l with (52 + e)%Z by lia.
      apply Qle_trans with (inject_Z (2 ^ 53) * pow2 E).
      * apply Qmult_le_compat_r; [|apply Qlt_le_weak, pow2_pos].
        rewrite <- Zle_Qle. lia.
      * rewrite <- pow2_Z by lia. rewrite <- pow2_add. apply pow2_le. lia.
    + replace l with (52 + e)%Z at 1 by lia. rewrite pow2_add.
      apply Qmult_le_compat_r; [|apply Qlt_le_weak, Pe].
      rewrite pow2_Z by lia. now rewrite <- Zle_Qle.
Qed.

End Rounding.

Section RoundingBounds.

Local Open Scope Q_scope.

Lemma on_grid_0 : on_grid 0.
Proof. exists 0%Z, 0%Z. split; [lia | split; [lia | reflexivity]]. Qed.

Lemma on_grid_Z (n : Z) : (0 <= n <= 2 ^ 53)%Z -> on_grid (inject_Z n).
Proof.
  intros H. exists n, 0%Z. split; [lia | split; [lia|]].
  rewrite pow2_0. ring.
Qed.

Lemma on_grid_pow2 (j : Z) : (-1074 <= j)%Z -> on_grid (pow2 j).
Proof.
  intros H. exists 1%Z, j. split; [lia | split; [lia | ring]].
Qed.

Lemma round_pos_nonneg (q : Q) : 0 < q -> 0 <= round_pos q.
Proof.
  intros H. apply round_pos_ge; [exact H | now apply Qlt_le_weak | exact on_grid_0].
Qed.

(** A non-negative rational below a point of the grid rounds to a finite
    float between 0 and that point. *)
Lemma fl_bounds (q K : Q) :
  0 <= q -> q <= K -> on_grid K -> K < pow2 1024 ->
  exists v : Q, fl q = Fin v /\ 0 <= v /\ v <= K.
Proof.
  intros H0 HK Hg Hov. unfold fl.
  destruct (Qcompare_spec q 0) as [E|E|E].
  - exists 0. repeat split; [apply Qle_refl | now rewrite <- E].
  - exfalso. apply (Qlt_irrefl q). now apply Qlt_le_trans with 0.
  - pose proof (round_pos_le q K E HK Hg) as H1.
    pose proof (round_pos_nonneg q E) as H2.
    destruct (Qle_bool (pow2 1024) (round_pos q)) eqn:B.
    + apply Qle_bool_iff in B. exfalso. apply (Qlt_irrefl K).
      apply Qlt_le_trans with (pow2 1024); [exact Hov|].
      now apply Qle_trans with (round_pos q).
    + exists (round_pos q). repeat split; assumption.
Qed.

(** A rational above a point of the grid does not round below it. *)
Lemma fl_lower (q K v : Q) :
  0 < q -> K <= q -> on_grid K -> fl q = Fin v -> K <= v.
Proof.
  intros H0 HK Hg. unfold fl.
  destruct (Qcompare_spec q 0) as [E|E|E].
  - rewrite E in H0. discriminate.
  - exfalso. apply (Qlt_irrefl q). now apply Qlt_trans with 0.
  - destruct (Qle_bool (pow2 1024) (round_pos q)); [discriminate|].
    intros H. injection H as <-. now apply round_pos_ge.
Qed.

(** Rounding is exact on the grid. *)
Lemma fl_exact (q : Q) :
  on_grid q -> q < pow2 1024 -> 0 <= q ->
  exists v : Q, fl q = Fin v /\ v == q.
Proof.
  intros Hg Hov H0.
  destruct (fl_bounds q q H0 (Qle_refl q) Hg Hov) as (v & Hv & Hv0 & Hvq).
  exists v. split; [exact Hv|]. apply Qle_antisym; [exact Hvq|].
  destruct (Qlt_le_dec 0 q) as [P|P].
  - now apply (fl_lower q q v P (Qle_refl q) Hg).
  - assert (E : q == 0) by now apply Qle_antisym.
    unfold fl in Hv. destruct (Qcompare_spec q 0) as [E'|E'|E'].
    + injection Hv as <-. rewrite E. apply Qle_refl.
    + rewrite E in E'. discriminate.
    + rewrite E in E'. discriminate.
Qed.

Lemma pow2_1023_lt : pow2 1023 < pow2 1024.
Proof. apply pow2_lt. lia. Qed.

Lemma inject_Z_le_pow2 (n j : Z) :
  (0 <= j)%Z -> (n <= 2 ^ j)%Z -> inject_Z n <= pow2 j.
Proof. intros Hj H. rewrite pow2_Z by exact Hj. now rewrite <- Zle_Qle. Qed.

Lemma Qfloor_bounds (p : Q) (n : Z) :
  0 <= p -> p <= inject_Z n -> (0 <= Qfloor p <= n)%Z.
Proof.
  intros H0 Hn. split.
  - change 0%Z with (Qfloor 0). now apply Qfloor_resp_le.
  - rewrite <- (Qfloor_Z n). now apply Qfloor_resp_le.
Qed.

Lemma Qtrunc_nonneg (p : Q) : 0 <= p -> Qtrunc p = Qfloor p.
Proof.
  intros H. unfold Qtrunc. apply Qle_bool_iff in H. now rewrite H.
Qed.

End RoundingBounds.

(** [fl] agrees with the Standard Library's specification of binary64 on the
    conversion of integers, including ties, the largest finite float and
    the overflow threshold, and on the quotients, products and differences
    of sample floats, subnormals included. *)
Example fl_agrees_on_conversion :
  forallb (fun z => float_eqb (fl (inject_Z z)) (of_spec_float (spec_of_Z z)))
    [ 0; 1; 100; 2 ^ 53 + 1; 2 ^ 53 + 3; 2 ^ 64 - 1; 2 ^ 1024;
      2 ^ 1024 - 2 ^ 970; 2 ^ 1024 - 2 ^ 970 - 1; - (2 ^ 53 + 3);
      12345678901234567890123 ] = true.
Proof. vm_compute. reflexivity. Qed.

Example fl_agrees_on_division :
  forallb (fun x =>
    forallb (fun y =>
      if Qeq_bool (spec_value y) 0 then true
      else float_eqb (fl (spec_value x / spec_value y))
                     (of_spec_float (SpecFloat.SFdiv 53 1024 x y)))
      sample_floats) sample_floats = true.
Proof. vm_compute. reflexivity. Qed.

Example fl_agrees_on_multiplication :
  forallb (fun x =>
    forallb (fun y =>
      float_eqb (fl (spec_value x * spec_value y))
                (of_spec_float (SpecFloat.SFmul 53 1024 x y)))
      sample_floats) sample_floats = true.
Proof. vm_compute. reflexivity. Qed.

Example fl_agrees_on_subtraction :
  forallb (fun x =>
    forallb (fun y =>
      float_eqb (fl (spec_value x - spec_value y))
                (of_spec_float (SpecFloat.SFsub 53 1024 x y)))
      sample_floats) sample_floats = true.
Proof. vm_compute. reflexivity. Qed.

(** ** The operators on the numbers of the program *)

Section Operators.

Local Open Scope Q_scope.

Lemma one_lt_pow2_1024 : 1 < pow2 1024.
Proof. change 1 with (pow2 0). apply pow2_lt. lia. Qed.

Lemma on_grid_1 : on_grid 1.
Proof. apply (on_grid_Z 1). lia. Qed.

Lemma Qdiv_unit (a b : Z) :
  (0 <= a <= b)%Z -> (0 < b)%Z ->
  0 <= inject_Z a / inject_Z b /\ inject_Z a / inject_Z b <= 1.
Proof.
  intros Ha Hb.
  assert (Pb : 0 < inject_Z b) by (change 0 with (inject_Z 0); rewrite <- Zlt_Qlt; lia).
  split.
  - apply Qle_shift_div_l; [exact Pb|]. rewrite Qmult_0_l.
    change 0 with (inject_Z 0). rewrite <- Zle_Qle. lia.
  - apply Qle_shift_div_r; [exact Pb|]. rewrite Qmult_1_l.
    rewrite <- Zle_Qle. lia.
Qed.

Lemma Qdiv_le_num (a b : Z) :
  (0 <= a)%Z -> (0 < b)%Z ->
  0 <= inject_Z a / inject_Z b /\ inject_Z a / inject_Z b <= inject_Z a.
Proof.
  intros Ha Hb.
  assert (Pb : 0 < inject_Z b) by (change 0 with (inject_Z 0); rewrite <- Zlt_Qlt; lia).
  split.
  - apply Qle_shift_div_l; [exact Pb|]. rewrite Qmult_0_l.
    change 0 with (inject_Z 0). rewrite <- Zle_Qle. lia.
  - apply Qle_shift_div_r; [exact Pb|]. rewrite <- inject_Z_mult, <- Zle_Qle. nia.
Qed.

(** A quotient of two ints in the unit interval is a float in it. *)
Lemma int_truediv_unit (a b : Z) :
  (0 <= a <= b)%Z -> (0 < b)%Z ->
  exists w : Q, int_truediv a b = Ok (Fin w) /\ 0 <= w /\ w <= 1.
Proof.
  intros Ha Hb. unfold int_truediv.
  destruct (Z.eqb_spec b 0) as [E|_]; [lia|].
  destruct (Qdiv_unit a b Ha Hb) as [H0 H1].
  destruct (fl_bounds _ 1 H0 H1 on_grid_1 one_lt_pow2_1024) as (w & Hw & B).
  exists w. rewrite Hw. now split.
Qed.

(** A quotient of a bounded int by a positive int does not overflow. *)
Lemma int_truediv_bounded (a b : Z) :
  (0 <= a <= 2 ^ 1023)%Z -> (0 < b)%Z ->
  exists w : Q, int_truediv a b = Ok (Fin w) /\ 0 <= w.
Proof.
  intros Ha Hb. unfold int_truediv.
  destruct (Z.eqb_spec b 0) as [E|_]; [lia|].
  destruct (Qdiv_le_num a b (proj1 Ha) Hb) as [H0 H1].
  assert (H2 : inject_Z a / inject_Z b <= pow2 1023).
  { apply Qle_trans with (inject_Z a); [exact H1|].
    apply inject_Z_le_pow2; lia. }
  destruct (fl_bounds _ _ H0 H2 (on_grid_pow2 1023 ltac:(lia)) pow2_1023_lt)
    as (w & Hw & B & _).
  exists w. rewrite Hw. now split.
Qed.

Lemma float_of_int_exact (n : Z) :
  (0 <= n <= 2 ^ 53)%Z ->
  exists v : Q, float_of_int n = Ok (Fin v) /\ v == inject_Z n.
Proof.
  intros H. unfold float_of_int.
  destruct (fl_exact (inject_Z n)) as (v & Hv & E).
  - now apply on_grid_Z.
  - apply Qle_lt_trans with (pow2 53); [apply inject_Z_le_pow2; lia|].
    apply pow2_lt. lia.
  - change 0 with (inject_Z 0). rewrite <- Zle_Qle. lia.
  - exists v. rewrite Hv. now split.
Qed.

Lemma float_of_int_bounded (n : Z) :
  (0 <= n <= 2 ^ 1023)%Z ->
  exists v : Q, float_of_int n = Ok (Fin v) /\ 0 <= v /\ v <= pow2 1023.
Proof.
  intros H. unfold float_of_int.
  destruct (fl_bounds (inject_Z n) (pow2 1023)) as (v & Hv & B).
  - change 0 with (inject_Z 0). rewrite <- Zle_Qle. lia.
  - apply inject_Z_le_pow2; lia.
  - apply on_grid_pow2. lia.
  - exact pow2_1023_lt.
  - exists v. rewrite Hv. now split.
Qed.

(** The product of a float of the unit interval and a float below a point of
    the grid stays below that point. *)
Lemma fl_mul_unit (w u K : Q) :
  0 <= w -> w <= 1 -> 0 <= u -> u <= K -> on_grid K -> K < pow2 1024 ->
  exists p : Q, fl (w * u) = Fin p /\ 0 <= p /\ p <= K.
Proof.
  intros Hw0 Hw1 Hu0 HuK Hg Hov.
  apply fl_bounds; try assumption.
  - now apply Qmult_le_0_compat.
  - apply Qle_trans with u; [|exact HuK].
    rewrite <- (Qmult_1_l u) at 2. now apply Qmult_le_compat_r.
Qed.

Lemma Qmult_le_l_weak (z x y : Q) : 0 <= z -> x <= y -> z * x <= z * y.
Proof.
  intros Hz H. rewrite !(Qmult_comm z). now apply Qmult_le_compat_r.
Qed.

End Operators.

(** ** The derivation of the metrics (C1, C2) *)

Lemma percent_zero (n d : Z) : d <= 0 -> percent n d = Ok (PInt 0).
Proof.
  intros H. unfold percent. destruct (Z.ltb_spec 0 d) as [C|C]; [lia|reflexivity].
Qed.

Lemma mul_float_100 (w : Q) :
  exists v : float, mul (PFloat (Fin w)) (PInt 100) = Ok (PFloat v).
Proof.
  unfold mul. simpl as_float.
  destruct (float_of_int_exact 100 ltac:(lia)) as (v & Hv & _).
  rewrite Hv. simpl. eauto.
Qed.

(** A percentage of a part in its whole is computed without an exception. *)
Lemma percent_unit (n d : Z) :
  0 <= n <= d -> exists v : num, percent n d = Ok v.
Proof.
  intros H. unfold percent. destruct (Z.ltb_spec 0 d) as [C|C]; [|eauto].
  unfold truediv. destruct (int_truediv_unit n d H C) as (w & Hw & _).
  rewrite Hw. simpl. destruct (mul_float_100 w) as (v & Hv). eauto.
Qed.

Lemma percent_bounded (n d : Z) :
  0 <= n <= 2 ^ 1023 -> exists v : num, percent n d = Ok v.
Proof.
  intros H. unfold percent. destruct (Z.ltb_spec 0 d) as [C|C]; [|eauto].
  unfold truediv. destruct (int_truediv_bounded n d H C) as (w & Hw & _).
  rewrite Hw. simpl. destruct (mul_float_100 w) as (v & Hv). eauto.
Qed.

(** The weight of the reads is a float of the unit interval, one half when
    no operation was counted. *)
Lemma read_weight_unit (r : raw_sample) :
  raw_sample_ok r ->
  exists w : Q,
    read_weight_of r = Ok (PFloat (Fin w)) /\ (0 <= w)%Q /\ (w <= 1)%Q.
Proof.
  intros (_ & _ & _ & _ & H1 & H2 & H3 & H4). unfold read_weight_of. cbv zeta.
  destruct (Z.ltb_spec 0 (raw_read_hits r + raw_read_misses r
                          + (raw_write_hits r + raw_write_misses r))) as [C|C].
  - unfold truediv.
    destruct (int_truediv_unit (raw_read_hits r + raw_read_misses r)
                (raw_read_hits r + raw_read_misses r
                 + (raw_write_hits r + raw_write_misses r)))
      as (w & Hw & B); [lia | exact C |].
    rewrite Hw. simpl. eauto.
  - exists (1 # 2). repeat split; discriminate.
Qed.

Lemma write_weight_ok (r : raw_sample) :
  raw_sample_ok r ->
  let total_writes := raw_write_hits r + raw_write_misses r in
  let total_ops := raw_read_hits r + raw_read_misses r + total_writes in
  exists w : num,
    (if 0 <? total_ops then truediv (PInt total_writes) (PInt total_ops)
     else Ok (PFloat (Fin (1 # 2)))) = Ok w.
Proof.
  intros (_ & _ & _ & _ & H1 & H2 & H3 & H4). cbv zeta.
  destruct (Z.ltb_spec 0 (raw_read_hits r + raw_read_misses r
                          + (raw_write_hits r + raw_write_misses r))) as [C|C];
    [|eauto].
  unfold truediv.
  destruct (int_truediv_unit (raw_write_hits r + raw_write_misses r)
              (raw_read_hits r + raw_read_misses r
               + (raw_write_hits r + raw_write_misses r)))
    as (w & Hw & B); [lia | exact C |].
  rewrite Hw. simpl. eauto.
Qed.

(** The product [used_blocks * read_weight] is a finite non-negative float;
    it does not exceed [used_blocks] when this count converts exactly. *)
Lemma used_times_weight (used : Z) (w : Q) :
  0 <= used <= 2 ^ 1023 -> (0 <= w)%Q -> (w <= 1)%Q ->
  exists p : Q,
    mul (PInt used) (PFloat (Fin w)) = Ok (PFloat (Fin p))
    /\ (0 <= p)%Q
    /\ (used <= 2 ^ 53 -> (p <= inject_Z used)%Q).
Proof.
  intros Hu Hw0 Hw1. unfold mul. simpl as_float.
  destruct (Z_le_gt_dec used (2 ^ 53)) as [C|C].
  - destruct (float_of_int_exact used ltac:(lia)) as (u & Hu' & E).
    rewrite Hu'. simpl.
    destruct (fl_bounds (u * w) (inject_Z used)) as (p & Hp & P0 & P1).
    + apply Qmult_le_0_compat; [|exact Hw0]. rewrite E.
      change 0%Q with (inject_Z 0). rewrite <- Zle_Qle. lia.
    + rewrite E. rewrite <- (Qmult_1_r (inject_Z used)) at 2.
      apply Qmult_le_l_weak; [|exact Hw1].
      change 0%Q with (inject_Z 0). rewrite <- Zle_Qle. lia.
    + apply on_grid_Z. lia.
    + apply Qle_lt_trans with (pow2 53); [apply inject_Z_le_pow2; lia|].
      apply pow2_lt. lia.
    + exists p. rewrite Hp. repeat split; auto.
  - destruct (float_of_int_bounded used Hu) as (u & Hu' & U0 & U1).
    rewrite Hu'. simpl.
    destruct (fl_bounds (u * w) (pow2 1023)) as (p & Hp & P0 & P1).
    + now apply Qmult_le_0_compat.
    + apply Qle_trans with u; [|exact U1].
      rewrite <- (Qmult_1_r u) at 2. now apply Qmult_le_l_weak.
    + apply on_grid_pow2. lia.
    + exact pow2_1023_lt.
    + exists p. rewrite Hp. repeat split; auto. lia.
Qed.

(** The derivation returns: each step is given with the value it computes. *)
Lemma derive_ok (r : raw_sample) :
  raw_sample_ok r ->
  raw_used_blocks r <= 2 ^ 1023 -> raw_dirty_blocks r <= 2 ^ 1023 ->
  exists (cu dr hr rhr whr : num) (w p : Q),
    percent (raw_used_blocks r) (raw_total_blocks r) = Ok cu
    /\ percent (raw_dirty_blocks r) (raw_total_blocks r) = Ok dr
    /\ percent (raw_read_hits r + raw_write_hits r)
         (raw_read_hits r + raw_read_misses r
          + (raw_write_hits r + raw_write_misses r)) = Ok hr
    /\ percent (raw_read_hits r) (raw_read_hits r + raw_read_misses r) = Ok rhr
    /\ percent (raw_write_hits r) (raw_write_hits r + raw_write_misses r)
       = Ok whr
    /\ read_weight_of r = Ok (PFloat (Fin w))
    /\ (0 <= w)%Q /\ (w <= 1)%Q
    /\ mul (PInt (raw_used_blocks r)) (PFloat (Fin w)) = Ok (PFloat (Fin p))
    /\ (0 <= p)%Q
    /\ (raw_used_blocks r <= 2 ^ 53 -> (p <= inject_Z (raw_used_blocks r))%Q)
    /\ derive r
       = Ok {| total_blocks := raw_total_blocks r;
               used_blocks := raw_used_blocks r;
               dirty_blocks := raw_dirty_blocks r;
               cache_usage_pct := cu;
               dirty_ratio_pct := dr;
               hit_ratio_pct := hr;
               read_hit_ratio_pct := rhr;
               write_hit_ratio_pct := whr;
               read_hits := raw_read_hits r;
               read_misses := raw_read_misses r;
               write_hits := raw_write_hits r;
               write_misses := raw_write_misses r;
               total_reads := raw_read_hits r + raw_read_misses r;
               total_writes := raw_write_hits r + raw_write_misses r;
               total_ops := raw_read_hits r + raw_read_misses r
                            + (raw_write_hits r + raw_write_misses r);
               block_size := cache_block_size (raw_pool_size_bytes r)
                               (raw_total_blocks r);
               pool_size_bytes := raw_pool_size_bytes r;
               estimated_read_blocks := Qfloor p;
               estimated_write_blocks := raw_used_blocks r - Qfloor p |}.
Proof.
  intros Hr Hu Hd. pose proof Hr as (Hp & Ht & Hu0 & Hd0 & H1 & H2 & H3 & H4).
  destruct (percent_bounded (raw_used_blocks r) (raw_total_blocks r))
    as (cu & Hcu); [lia|].
  destruct (percent_bounded (raw_dirty_blocks r) (raw_total_blocks r))
    as (dr & Hdr); [lia|].
  destruct (percent_unit (raw_read_hits r + raw_write_hits r)
              (raw_read_hits r + raw_read_misses r
               + (raw_write_hits r + raw_write_misses r)))
    as (hr & Hhr); [lia|].
  destruct (percent_unit (raw_read_hits r)
              (raw_read_hits r + raw_read_misses r)) as (rhr & Hrhr); [lia|].
  destruct (percent_unit (raw_write_hits r)
              (raw_write_hits r + raw_write_misses r)) as (whr & Hwhr); [lia|].
  destruct (read_weight_unit r Hr) as (w & Hw & W0 & W1).
  destruct (write_weight_ok r Hr) as (ww & Hww).
  destruct (used_times_weight (raw_used_blocks r) w) as (p & Hmul & P0 & P1);
    [lia | exact W0 | exact W1 |].
  exists cu, dr, hr, rhr, whr, w, p.
  repeat (split; [assumption|]).
  unfold read_weight_of in Hw. cbv zeta in Hw, Hww.
  unfold derive. cbv zeta.
  rewrite Hcu, Hdr, Hhr, Hrhr, Hwhr. cbn [bind].
  rewrite Hw. cbn [bind]. rewrite Hww. cbn [bind].
  rewrite Hmul. cbn [bind int_of].
  rewrite (Qtrunc_nonneg p P0). reflexivity.
Qed.

(** C1, as the code has it.  On a RawSample whose used and dirty block
    counts do not exceed 2^1023 the derivation returns a record, and every
    ratio with a zero denominator is the integer 0: with [total_blocks = 0]
    the usage and the dirty percentages are 0 and the block size is 4096;
    with [total_ops = 0], [total_reads = 0] or [total_writes = 0] the
    corresponding hit ratio is 0. *)
Theorem derive_total (r : raw_sample) :
  raw_sample_ok r ->
  raw_used_blocks r <= 2 ^ 1023 -> raw_dirty_blocks r <= 2 ^ 1023 ->
  exists st : stats,
    derive r = Ok st
    /\ total_blocks st = raw_total_blocks r
    /\ total_reads st = raw_read_hits r + raw_read_misses r
    /\ total_writes st = raw_write_hits r + raw_write_misses r
    /\ total_ops st = total_reads st + total_writes st
    /\ (total_blocks st = 0 ->
        cache_usage_pct st = PInt 0 /\ dirty_ratio_pct st = PInt 0
        /\ block_size st = 4096)
    /\ (total_ops st = 0 -> hit_ratio_pct st = PInt 0)
    /\ (total_reads st = 0 -> read_hit_ratio_pct st = PInt 0)
    /\ (total_writes st = 0 -> write_hit_ratio_pct st = PInt 0).
Proof.
  intros Hr Hu Hd.
  destruct (derive_ok r Hr Hu Hd)
    as (cu & dr & hr & rhr & whr & w & p & Hcu & Hdr & Hhr & Hrhr & Hwhr
        & _ & _ & _ & _ & _ & _ & Hderive).
  eexists. split; [exact Hderive|]. simpl.
  do 4 (split; [reflexivity|]).
  split; [intros E; split; [|split] | split; [|split]; intros E].
  - rewrite percent_zero in Hcu by lia. congruence.
  - rewrite percent_zero in Hdr by lia. congruence.
  - unfold cache_block_size. rewrite E. reflexivity.
  - rewrite percent_zero in Hhr by lia. congruence.
  - rewrite percent_zero in Hrhr by lia. congruence.
  - rewrite percent_zero in Hwhr by lia. congruence.
Qed.

Lemma derive_total_witness :
  exists st : stats,
    derive {| raw_pool_size_bytes := 4096000; raw_total_blocks := 0;
              raw_used_blocks := 0; raw_dirty_blocks := 0;
              raw_read_hits := 0; raw_read_misses := 0;
              raw_write_hits := 0; raw_write_misses := 0 |} = Ok st
    /\ total_blocks st = 0
    /\ total_reads st = 0 + 0
    /\ total_writes st = 0 + 0
    /\ total_ops st = total_reads st + total_writes st
    /\ (total_blocks st = 0 ->
        cache_usage_pct st = PInt 0 /\ dirty_ratio_pct st = PInt 0
        /\ block_size st = 4096)
    /\ (total_ops st = 0 -> hit_ratio_pct st = PInt 0)
    /\ (total_reads st = 0 -> read_hit_ratio_pct st = PInt 0)
    /\ (total_writes st = 0 -> write_hit_ratio_pct st = PInt 0).
Proof.
  apply (derive_total
           {| raw_pool_size_bytes := 4096000; raw_total_blocks := 0;
              raw_used_blocks := 0; raw_dirty_blocks := 0;
              raw_read_hits := 0; raw_read_misses := 0;
              raw_write_hits := 0; raw_write_misses := 0 |}).
  - unfold raw_sample_ok. simpl. lia.
  - simpl. lia.
  - simpl. lia.
Defined.

(** C1 fails as stated: the derivation is not total on the non-negative
    integers.  A count of used blocks of 2^1024 makes the first division
    raise [OverflowError], which [get_lvm_cache_stats] does not catch. *)
Lemma derive_overflow :
  let r := {| raw_pool_size_bytes := 4096; raw_total_blocks := 1;
              raw_used_blocks := 2 ^ 1024; raw_dirty_blocks := 0;
              raw_read_hits := 0; raw_read_misses := 0;
              raw_write_hits := 0; raw_write_misses := 0 |} in
  raw_sample_ok r
  /\ derive r = Raise OverflowError
  /\ get_lvm_cache_stats
       {| pool_run := Ok (Some 4096);
          lvs_run := Ok [Some 1; Some (2 ^ 1024); Some 0; Some 0; Some 0;
                         Some 0; Some 0] |}
     = Raise OverflowError.
Proof.
  split; [|split].
  - unfold raw_sample_ok. simpl. lia.
  - vm_compute. reflexivity.
  - vm_compute. reflexivity.
Qed.

(** C2, as the code has it.  On a RawSample with [used_blocks <= 2^53] (and
    a dirty count for which the derivation returns) the estimate of the read
    blocks is the floor of the float product [used_blocks * read_weight],
    where [read_weight] is the float quotient [total_reads / total_ops], or
    0.5 when [total_ops = 0]; the estimate of the write blocks is the
    difference, so the two add up to [used_blocks], and both are
    non-negative. *)
Theorem read_write_estimate (r : raw_sample) :
  raw_sample_ok r ->
  raw_used_blocks r <= 2 ^ 53 -> raw_dirty_blocks r <= 2 ^ 1023 ->
  exists (st : stats) (read_weight : num),
    derive r = Ok st
    /\ used_blocks st = raw_used_blocks r
    /\ total_reads st = raw_read_hits r + raw_read_misses r
    /\ total_ops st = total_reads st + (raw_write_hits r + raw_write_misses r)
    /\ (if 0 <? total_ops st
        then truediv (PInt (total_reads st)) (PInt (total_ops st))
        else Ok (PFloat (Fin (1 # 2)))) = Ok read_weight
    /\ (product <- mul (PInt (used_blocks st)) read_weight ;;
        floor_of product) = Ok (estimated_read_blocks st)
    /\ estimated_write_blocks st = used_blocks st - estimated_read_blocks st
    /\ estimated_read_blocks st + estimated_write_blocks st = used_blocks st
    /\ 0 <= estimated_read_blocks st
    /\ 0 <= estimated_write_blocks st.
Proof.
  intros Hr Hu Hd.
  destruct (derive_ok r Hr) as
      (cu & dr & hr & rhr & whr & w & p & _ & _ & _ & _ & _
       & Hw & _ & _ & Hmul & P0 & P1 & Hderive); [lia | exact Hd |].
  specialize (P1 Hu).
  destruct (Qfloor_bounds p (raw_used_blocks r) P0 P1) as [F0 F1].
  exists {| total_blocks := raw_total_blocks r;
            used_blocks := raw_used_blocks r;
            dirty_blocks := raw_dirty_blocks r;
            cache_usage_pct := cu; dirty_ratio_pct := dr;
            hit_ratio_pct := hr; read_hit_ratio_pct := rhr;
            write_hit_ratio_pct := whr;
            read_hits := raw_read_hits r; read_misses := raw_read_misses r;
            write_hits := raw_write_hits r;
            write_misses := raw_write_misses r;
            total_reads := raw_read_hits r + raw_read_misses r;
            total_writes := raw_write_hits r + raw_write_misses r;
            total_ops := raw_read_hits r + raw_read_misses r
                         + (raw_write_hits r + raw_write_misses r);
            block_size := cache_block_size (raw_pool_size_bytes r)
                            (raw_total_blocks r);
            pool_size_bytes := raw_pool_size_bytes r;
            estimated_read_blocks := Qfloor p;
            estimated_write_blocks := raw_used_blocks r - Qfloor p |},
         (PFloat (Fin w)).
  cbn [used_blocks total_reads total_ops estimated_read_blocks
       estimated_write_blocks].
  split; [exact Hderive|].
  do 3 (split; [reflexivity|]).
  split; [exact Hw|].
  split; [rewrite Hmul; reflexivity|].
  split; [reflexivity|].
  repeat split; lia.
Qed.

Lemma read_write_estimate_witness :
  exists (st : stats) (read_weight : num),
    derive {| raw_pool_size_bytes := 4096000; raw_total_blocks := 1000;
              raw_used_blocks := 500; raw_dirty_blocks := 50;
              raw_read_hits := 80; raw_read_misses := 20;
              raw_write_hits := 60; raw_write_misses := 40 |} = Ok st
    /\ used_blocks st = 500
    /\ total_reads st = 80 + 20
    /\ total_ops st = total_reads st + (60 + 40)
    /\ (if 0 <? total_ops st
        then truediv (PInt (total_reads st)) (PInt (total_ops st))
        else Ok (PFloat (Fin (1 # 2)))) = Ok read_weight
    /\ (product <- mul (PInt (used_blocks st)) read_weight ;;
        floor_of product) = Ok (estimated_read_blocks st)
    /\ estimated_write_blocks st = used_blocks st - estimated_read_blocks st
    /\ estimated_read_blocks st + estimated_write_blocks st = used_blocks st
    /\ 0 <= estimated_read_blocks st
    /\ 0 <= estimated_write_blocks st.
Proof.
  apply (read_write_estimate
           {| raw_pool_size_bytes := 4096000; raw_total_blocks := 1000;
              raw_used_blocks := 500; raw_dirty_blocks := 50;
              raw_read_hits := 80; raw_read_misses := 20;
              raw_write_hits := 60; raw_write_misses := 40 |}).
  - unfold raw_sample_ok. simpl. lia.
  - simpl. lia.
  - simpl. lia.
Defined.

(** C2 fails as stated.  The int [2^53 + 3] converts to the float
    [2^53 + 4]: with reads only, the estimate of the read blocks exceeds
    [used_blocks] and the estimate of the write blocks is -1. *)
Lemma estimate_negative :
  let r := {| raw_pool_size_bytes := 2 ^ 72; raw_total_blocks := 2 ^ 60;
              raw_used_blocks := 2 ^ 53 + 3; raw_dirty_blocks := 0;
              raw_read_hits := 1; raw_read_misses := 0;
              raw_write_hits := 0; raw_write_misses := 0 |} in
  raw_sample_ok r
  /\ exists st : stats,
       derive r = Ok st
       /\ estimated_read_blocks st = 2 ^ 53 + 4
       /\ estimated_write_blocks st = -1
       /\ ~ 0 <= estimated_write_blocks st.
Proof.
  split.
  - unfold raw_sample_ok. simpl. lia.
  - eexists. split; [vm_compute; reflexivity|]. simpl.
    repeat split; try reflexivity. lia.
Qed.

(** The exact quotient [1/49] is not the float [1/49]: on 49 used blocks
    with one read among 49 operations the estimate is 0, where the floor of
    the exact product [49 * (1/49)] is 1.  The floor of C2 is the floor of
    the float product. *)
Lemma estimate_is_float_floor :
  exists st : stats,
    derive {| raw_pool_size_bytes := 4096000; raw_total_blocks := 1000;
              raw_used_blocks := 49; raw_dirty_blocks := 0;
              raw_read_hits := 1; raw_read_misses := 0;
              raw_write_hits := 48; raw_write_misses := 0 |} = Ok st
    /\ estimated_read_blocks st = 0
    /\ Qfloor (inject_Z 49 * (1 # 49)) = 1.
Proof.
  eexists. split; [vm_compute; reflexivity|]. split; reflexivity.
Qed.

(** ** The bars (C3, C4) *)

(** The number of cells of a ratio of the unit interval on a bar of at most
    2^53 cells: [int(ratio * width)] is the floor of the float product and
    lies between 0 and [width]. *)
Lemma cells_of_ratio (w : Q) (width : Z) :
  (0 <= w)%Q -> (w <= 1)%Q -> 0 <= width <= 2 ^ 53 ->
  exists cells : Z,
    (product <- mul (PFloat (Fin w)) (PInt width) ;; int_of product) = Ok cells
    /\ (product <- mul (PFloat (Fin w)) (PInt width) ;; floor_of product)
       = Ok cells
    /\ 0 <= cells <= width.
Proof.
  intros W0 W1 Hw. unfold mul. simpl as_float.
  destruct (float_of_int_exact width Hw) as (u & Hu & E).
  rewrite Hu. cbn [bind fmul].
  destruct (fl_mul_unit w u (inject_Z width)) as (p & Hp & P0 & P1);
    try assumption.
  - rewrite E. change 0%Q with (inject_Z 0). rewrite <- Zle_Qle. lia.
  - rewrite E. apply Qle_refl.
  - now apply on_grid_Z.
  - apply Qle_lt_trans with (pow2 53); [apply inject_Z_le_pow2; lia|].
    apply pow2_lt. lia.
  - exists (Qfloor p). rewrite Hp. cbn [bind int_of floor_of].
    rewrite (Qtrunc_nonneg p P0).
    repeat split; try reflexivity; apply (Qfloor_bounds p width P0 P1).
Qed.

(** The cells of a share [blocks / total_blocks] of the cache. *)
Lemma cells_of_blocks (blocks total_blocks width : Z) :
  0 <= blocks <= total_blocks -> 0 < total_blocks -> 0 <= width <= 2 ^ 53 ->
  exists cells : Z,
    (ratio <- truediv (PInt blocks) (PInt total_blocks) ;;
     product <- mul ratio (PInt width) ;; int_of product) = Ok cells
    /\ (ratio <- truediv (PInt blocks) (PInt total_blocks) ;;
        product <- mul ratio (PInt width) ;; floor_of product) = Ok cells
    /\ 0 <= cells <= width.
Proof.
  intros Hb Ht Hw. unfold truediv.
  destruct (int_truediv_unit blocks total_blocks Hb Ht) as (w & Hq & W0 & W1).
  rewrite Hq. cbn [bind]. now apply cells_of_ratio.
Qed.

Lemma visible_repeat_only (c : N) (n : nat) :
  c <> ESC -> visible (repeat c n) = repeat c n.
Proof.
  intros Hc. rewrite <- (app_nil_r (repeat c n)) at 1.
  rewrite visible_repeat by exact Hc. now rewrite app_nil_r.
Qed.

(** The cells of a bar drawn without its colours. *)
Lemma visible_length_cells (a b c : Z) :
  0 <= a -> 0 <= b -> 0 <= c ->
  visible_length
    (repeat FULL_BLOCK (Z.to_nat a) ++ repeat FULL_BLOCK (Z.to_nat b)
     ++ repeat LIGHT_SHADE (Z.to_nat c)) = a + b + c.
Proof.
  intros Ha Hb Hc. unfold visible_length.
  rewrite !visible_repeat, visible_repeat_only by discriminate.
  rewrite !length_app, !repeat_length. lia.
Qed.

(** C3, as the code has it.  For block counts between 0 and
    [total_blocks > 0] and a width between 1 and 2^53: the two segments start
    as the floors of the float products [blocks / total_blocks * width]; if
    their sum exceeds [width] the larger one is shrunk so that the sum is
    [width]; after the correction both are non-negative and their sum is at
    most [width]; the bar is the read segment, the write segment and
    [width - (read_cells + write_cells)] empty cells, [width] visible cells
    in all. *)
Theorem dual_bar_partition (t : terminal)
  (read_blocks write_blocks total_blocks width : Z) (self : monitor) :
  0 < total_blocks ->
  0 <= read_blocks <= total_blocks -> 0 <= write_blocks <= total_blocks ->
  0 < width <= 2 ^ 53 ->
  exists read0 write0 read_cells write_cells : Z,
    (ratio <- truediv (PInt read_blocks) (PInt total_blocks) ;;
     product <- mul ratio (PInt width) ;; floor_of product) = Ok read0
    /\ (ratio <- truediv (PInt write_blocks) (PInt total_blocks) ;;
        product <- mul ratio (PInt width) ;; floor_of product) = Ok write0
    /\ (read0 + write0 <= width ->
        read_cells = read0 /\ write_cells = write0)
    /\ (width < read0 + write0 ->
        read_cells + write_cells = width
        /\ (write0 <= read0 -> write_cells = write0)
        /\ (read0 < write0 -> read_cells = read0))
    /\ 0 <= read_cells /\ 0 <= write_cells
    /\ read_cells + write_cells <= width
    /\ create_dual_cache_bar t read_blocks write_blocks total_blocks
         (Some width) self
       = Ok (color "green" ++ repeat FULL_BLOCK (Z.to_nat read_cells)
             ++ color "reset"
             ++ color "red" ++ repeat FULL_BLOCK (Z.to_nat write_cells)
             ++ color "reset"
             ++ repeat LIGHT_SHADE
                  (Z.to_nat (width - (read_cells + write_cells))),
             self)
    /\ visible_length
         (color "green" ++ repeat FULL_BLOCK (Z.to_nat read_cells)
          ++ color "reset"
          ++ color "red" ++ repeat FULL_BLOCK (Z.to_nat write_cells)
          ++ color "reset"
          ++ repeat LIGHT_SHADE
               (Z.to_nat (width - (read_cells + write_cells))))
       = width.
Proof.
  intros Ht Hr Hw Hwidth.
  destruct (cells_of_blocks read_blocks total_blocks width Hr Ht)
    as (r0 & Hr1 & Hr2 & Br); [lia|].
  destruct (cells_of_blocks write_blocks total_blocks width Hw Ht)
    as (w0 & Hw1 & Hw2 & Bw); [lia|].
  set (portions :=
         if width <? r0 + w0 then
           if w0 <=? r0 then (width - w0, w0) else (r0, width - r0)
         else (r0, w0)).
  exists r0, w0, (fst portions), (snd portions).
  assert (Hp : (r0 + w0 <= width -> portions = (r0, w0))
               /\ (width < r0 + w0 -> w0 <= r0 ->
                   portions = (width - w0, w0))
               /\ (width < r0 + w0 -> r0 < w0 ->
                   portions = (r0, width - r0))).
  { unfold portions.
    destruct (Z.ltb_spec width (r0 + w0)), (Z.leb_spec w0 r0);
      repeat split; intros; try lia; reflexivity. }
  destruct Hp as (P1 & P2 & P3).
  assert (B : 0 <= fst portions /\ 0 <= snd portions
              /\ fst portions + snd portions <= width).
  { destruct (Z_le_gt_dec (r0 + w0) width) as [C|C].
    - rewrite (P1 C). simpl. lia.
    - destruct (Z_le_gt_dec w0 r0) as [D|D].
      + rewrite (P2 ltac:(lia) D). simpl. lia.
      + rewrite (P3 ltac:(lia) ltac:(lia)). simpl. lia. }
  destruct B as (B1 & B2 & B3).
  split; [exact Hr2|]. split; [exact Hw2|].
  split; [intros C; rewrite (P1 C); split; reflexivity|].
  split.
  { intros C. destruct (Z_le_gt_dec w0 r0) as [D|D].
    - rewrite (P2 C D). simpl. repeat split; intros; lia.
    - rewrite (P3 C ltac:(lia)). simpl. repeat split; intros; lia. }
  do 3 (split; [assumption|]).
  split.
  - unfold create_dual_cache_bar. cbn [default_width bind fst snd].
    destruct (Z.eqb_spec total_blocks 0) as [E|_]; [lia|].
    rewrite Hr1. cbn [bind]. rewrite Hw1. cbn [bind].
    fold portions. rewrite !str_repeat_single.
    rewrite <- !app_assoc. reflexivity.
  - unfold visible_length.
    rewrite visible_color, visible_repeat by discriminate.
    rewrite visible_color, visible_color, visible_repeat by discriminate.
    rewrite visible_color, visible_repeat_only by discriminate.
    rewrite !length_app, !repeat_length. lia.
Qed.

Lemma dual_bar_partition_witness :
  exists read0 write0 read_cells write_cells : Z,
    (ratio <- truediv (PInt 3) (PInt 10) ;;
     product <- mul ratio (PInt 10) ;; floor_of product) = Ok read0
    /\ (ratio <- truediv (PInt 5) (PInt 10) ;;
        product <- mul ratio (PInt 10) ;; floor_of product) = Ok write0
    /\ (read0 + write0 <= 10 -> read_cells = read0 /\ write_cells = write0)
    /\ (10 < read0 + write0 ->
        read_cells + write_cells = 10
        /\ (write0 <= read0 -> write_cells = write0)
        /\ (read0 < write0 -> read_cells = read0))
    /\ 0 <= read_cells /\ 0 <= write_cells
    /\ read_cells + write_cells <= 10
    /\ create_dual_cache_bar terminal_80x24 3 5 10 (Some 10) (fresh_monitor 60)
       = Ok (color "green" ++ repeat FULL_BLOCK (Z.to_nat read_cells)
             ++ color "reset"
             ++ color "red" ++ repeat FULL_BLOCK (Z.to_nat write_cells)
             ++ color "reset"
             ++ repeat LIGHT_SHADE (Z.to_nat (10 - (read_cells + write_cells))),
             fresh_monitor 60)
    /\ visible_length
         (color "green" ++ repeat FULL_BLOCK (Z.to_nat read_cells)
          ++ color "reset"
          ++ color "red" ++ repeat FULL_BLOCK (Z.to_nat write_cells)
          ++ color "reset"
          ++ repeat LIGHT_SHADE (Z.to_nat (10 - (read_cells + write_cells))))
       = 10.
Proof.
  apply (dual_bar_partition terminal_80x24 3 5 10 10 (fresh_monitor 60)); lia.
Defined.

(** C3 fails as stated: block counts above [total_blocks] give, after the
    correction, a negative read segment, and the bar shows the 30 cells of
    the write segment on a width of 10. *)
Lemma dual_bar_overrun :
  exists bar : str,
    create_dual_cache_bar terminal_80x24 30 30 10 (Some 10) (fresh_monitor 60)
      = Ok (bar, fresh_monitor 60)
    /\ visible_length bar = 30
    /\ visible_length bar <> 10.
Proof.
  eexists. split; [vm_compute; reflexivity|]. split; [reflexivity|discriminate].
Qed.

(** With both block counts equal to [total_blocks] the sum of the segments
    is twice the width: the read segment is the one that shrinks, to 0. *)
Lemma dual_bar_correction_example :
  create_dual_cache_bar terminal_80x24 10 10 10 (Some 10) (fresh_monitor 60)
  = Ok (color "green" ++ color "reset"
        ++ color "red" ++ repeat FULL_BLOCK 10 ++ color "reset",
        fresh_monitor 60).
Proof. vm_compute. reflexivity. Qed.

Section Ratio.

Local Open Scope Q_scope.

Lemma Qdiv_unit_Q (x y : Q) :
  0 <= x -> x <= y -> 0 < y -> 0 <= x / y /\ x / y <= 1.
Proof.
  intros Hx Hxy Hy. split.
  - apply Qle_shift_div_l; [exact Hy|]. now rewrite Qmult_0_l.
  - apply Qle_shift_div_r; [exact Hy|]. now rewrite Qmult_1_l.
Qed.

Lemma on_grid_comp (x y : Q) : x == y -> on_grid x -> on_grid y.
Proof.
  intros E (M & e & HM & He & HK). exists M, e.
  split; [exact HM | split; [exact He | now rewrite <- E]].
Qed.

(** A finite non-negative number converts to a finite float; the conversion
    keeps the order with a float. *)
Lemma as_float_finite (n : num) :
  finite_num n -> 0 <= value_of n ->
  exists x : Q, as_float n = Ok (Fin x) /\ 0 <= x
    /\ (forall K : Q, on_grid K -> K <= value_of n -> K <= x)
    /\ (forall K : Q, on_grid K -> K < pow2 1024 -> value_of n <= K -> x <= K).
Proof.
  destruct n as [z | [q | s |]]; simpl; intros Hf H0; try contradiction.
  - assert (Hz : (0 <= z)%Z) by (rewrite Zle_Qle; exact H0).
    destruct (float_of_int_bounded z ltac:(lia)) as (x & Hx & X0 & X1).
    exists x. split; [exact Hx|]. split; [exact X0|]. split.
    + intros K HK HKz. unfold float_of_int in Hx.
      destruct (Z.eq_dec z 0) as [->|Hz0].
      * vm_compute in Hx. injection Hx as <-. exact HKz.
      * apply (fl_lower (inject_Z z) K x); try assumption.
        -- change 0 with (inject_Z 0). rewrite <- Zlt_Qlt. lia.
        -- destruct (fl (inject_Z z)); congruence.
    + intros K HK Hov HzK. unfold float_of_int in Hx.
      destruct (fl_bounds (inject_Z z) K H0 HzK HK Hov) as (v & Hv & _ & V1).
      rewrite Hv in Hx. injection Hx as <-. exact V1.
  - exists q. split; [reflexivity|]. split; [exact H0|]. split; auto.
Qed.

(** The quotient of a finite number by a larger positive one is a float of
    the unit interval. *)
Lemma ratio_unit (value max_value : num) :
  finite_num value -> finite_num max_value ->
  0 <= value_of value -> value_of value <= value_of max_value ->
  0 < value_of max_value ->
  exists w : Q,
    truediv value max_value = Ok (PFloat (Fin w)) /\ 0 <= w /\ w <= 1.
Proof.
  intros Fv Fm V0 Vm M0.
  assert (Hfloat : forall x y : Q,
             0 <= x -> x <= y -> 0 < y ->
             exists w : Q,
               (f <- float_truediv (Fin x) (Fin y) ;; Ok (PFloat f))
               = Ok (PFloat (Fin w)) /\ 0 <= w /\ w <= 1).
  { intros x y Hx Hxy Hy. unfold float_truediv, is_zero.
    destruct (Qeq_bool y 0) eqn:E.
    - apply Qeq_bool_iff in E. rewrite E in Hy. discriminate.
    - destruct (Qdiv_unit_Q x y Hx Hxy Hy) as [D0 D1].
      destruct (fl_bounds (x / y) 1 D0 D1 on_grid_1 one_lt_pow2_1024)
        as (w & Hw & B).
      exists w. cbn [bind fdiv]. rewrite Hw. now split. }
  destruct value as [v | fv], max_value as [m | fm].
  - simpl in *. unfold truediv.
    destruct (int_truediv_unit v m) as (w & Hw & B).
    + rewrite !Zle_Qle. split; assumption.
    + rewrite Zlt_Qlt. exact M0.
    + exists w. rewrite Hw. now split.
  - destruct fm as [y | |]; simpl in Fm; try contradiction.
    simpl in Vm, M0. destruct Fm as [Gy Oy].
    assert (Ey : Qabs y == y) by (apply Qabs_pos; now apply Qlt_le_weak).
    destruct (as_float_finite (PInt v) Fv V0) as (x & Hx & X0 & _ & Xu).
    unfold truediv. rewrite Hx. cbn [bind as_float].
    apply Hfloat; [exact X0 | | exact M0].
    apply Xu; [now apply (on_grid_comp (Qabs y)) | now rewrite <- Ey | exact Vm].
  - destruct fv as [x | |]; simpl in Fv; try contradiction.
    simpl in V0, Vm. destruct Fv as [Gx Ox].
    assert (Ex : Qabs x == x) by now apply Qabs_pos.
    destruct (as_float_finite (PInt m) Fm (Qlt_le_weak _ _ M0))
      as (y & Hy & Y0 & Yl & _).
    unfold truediv. cbn [as_float bind].
    unfold as_float in Hy. rewrite Hy. cbn [bind].
    assert (Hm1 : (1 <= m)%Z).
    { simpl in M0. change 0 with (inject_Z 0) in M0.
      rewrite <- Zlt_Qlt in M0. lia. }
    apply Hfloat; [exact V0 | |].
    + apply Yl; [now apply (on_grid_comp (Qabs x)) | exact Vm].
    + apply Qlt_le_trans with 1; [reflexivity|].
      apply Yl; [exact on_grid_1|]. simpl.
      change 1 with (inject_Z 1). rewrite <- Zle_Qle. exact Hm1.
  - destruct fv as [x | |], fm as [y | |]; simpl in Fv, Fm; try contradiction.
    simpl in *. unfold truediv. cbn [as_float bind]. now apply Hfloat.
Qed.

End Ratio.

Lemma eq_zero_false (n : num) :
  finite_num n -> (0 < value_of n)%Q -> Py.eq n (PInt 0) = false.
Proof.
  intros Hf H0. unfold Py.eq, compare.
  destruct n as [z | [q | s |]]; simpl in *; try contradiction.
  - destruct (Qcompare_spec (inject_Z z) (inject_Z 0)) as [E|E|E];
      try reflexivity.
    rewrite E in H0. discriminate.
  - destruct (Qcompare_spec q (inject_Z 0)) as [E|E|E]; try reflexivity.
    rewrite E in H0. discriminate.
Qed.

(** C4, as the code has it.  For finite numbers with
    [0 <= value <= max_value], [0 < max_value], and a width between 1 and
    2^53, the number of filled cells is the floor of the float product
    [value / max_value * width]; it lies between 0 and [width] (no clamp is
    applied: none is needed here), and the bar is that many solid glyphs
    followed by [width - filled] empty glyphs, [width] visible cells. *)
Theorem bar_graph_fill (t : terminal) (value max_value : num) (width : Z)
  (color_key : string) (self : monitor) :
  finite_num value -> finite_num max_value ->
  (0 <= value_of value)%Q -> (value_of value <= value_of max_value)%Q ->
  (0 < value_of max_value)%Q ->
  0 < width <= 2 ^ 53 ->
  exists filled : Z,
    (ratio <- truediv value max_value ;;
     product <- mul ratio (PInt width) ;; floor_of product) = Ok filled
    /\ 0 <= filled <= width
    /\ create_bar_graph t value max_value (Some width) color_key self
       = Ok (color color_key
             ++ (repeat FULL_BLOCK (Z.to_nat filled)
                 ++ repeat LIGHT_SHADE (Z.to_nat (width - filled)))
             ++ color "reset", self)
    /\ visible_length
         (color color_key
          ++ (repeat FULL_BLOCK (Z.to_nat filled)
              ++ repeat LIGHT_SHADE (Z.to_nat (width - filled)))
          ++ color "reset") = width.
Proof.
  intros Fv Fm V0 Vm M0 Hw.
  destruct (ratio_unit value max_value Fv Fm V0 Vm M0) as (w & Hq & W0 & W1).
  destruct (cells_of_ratio w width W0 W1 ltac:(lia)) as (filled & H1 & H2 & B).
  exists filled. rewrite Hq. cbn [bind]. split; [exact H2|]. split; [exact B|].
  split.
  - unfold create_bar_graph. cbn [default_width bind fst snd].
    rewrite (eq_zero_false max_value Fm M0), Hq. cbn [bind].
    rewrite H1. cbn [bind]. now rewrite !str_repeat_single.
  - unfold visible_length.
    rewrite visible_color, <- app_assoc, !visible_repeat by discriminate.
    rewrite <- (app_nil_r (color "reset")), visible_color.
    unfold visible. simpl strip_escapes.
    rewrite app_nil_r, length_app, !repeat_length. lia.
Qed.

Lemma bar_graph_fill_witness :
  exists filled : Z,
    (ratio <- truediv (PFloat (Fin 50)) (PInt 100) ;;
     product <- mul ratio (PInt 48) ;; floor_of product) = Ok filled
    /\ 0 <= filled <= 48
    /\ create_bar_graph terminal_80x24 (PFloat (Fin 50)) (PInt 100) (Some 48)
         "blue" (fresh_monitor 60)
       = Ok (color "blue"
             ++ (repeat FULL_BLOCK (Z.to_nat filled)
                 ++ repeat LIGHT_SHADE (Z.to_nat (48 - filled)))
             ++ color "reset", fresh_monitor 60)
    /\ visible_length
         (color "blue"
          ++ (repeat FULL_BLOCK (Z.to_nat filled)
              ++ repeat LIGHT_SHADE (Z.to_nat (48 - filled)))
          ++ color "reset") = 48.
Proof.
  apply (bar_graph_fill terminal_80x24 (PFloat (Fin 50)) (PInt 100) 48 "blue"
           (fresh_monitor 60)).
  - simpl. split.
    + exists 50, 0. split; [lia | split; [lia | reflexivity]].
    + reflexivity.
  - simpl. lia.
  - simpl. discriminate.
  - simpl. discriminate.
  - simpl. reflexivity.
  - lia.
Defined.

(** C4 fails as stated: the count of filled cells is not clamped.  A value
    of twice the maximum fills 20 cells on a width of 10, and the bar is 20
    cells long. *)
Lemma bar_graph_overrun :
  exists bar : str,
    create_bar_graph terminal_80x24 (PInt 200) (PInt 100) (Some 10) "green"
      (fresh_monitor 60) = Ok (bar, fresh_monitor 60)
    /\ visible bar = repeat FULL_BLOCK 20
    /\ visible_length bar = 20
    /\ visible_length bar <> 10.
Proof.
  eexists. split; [vm_compute; reflexivity|].
  split; [reflexivity | split; [reflexivity | discriminate]].
Qed.

(** A negative value is not clamped either: no cell is filled and the bar is
    longer than the width. *)
Lemma bar_graph_negative :
  exists bar : str,
    create_bar_graph terminal_80x24 (PInt (-50)) (PInt 100) (Some 10) "green"
      (fresh_monitor 60) = Ok (bar, fresh_monitor 60)
    /\ visible bar = repeat LIGHT_SHADE 15.
Proof.
  eexists. split; [vm_compute; reflexivity | reflexivity].
Qed.

(** With [max_value == 0] no cell is filled. *)
Lemma bar_graph_zero_max (t : terminal) (value max_value : num) (width : Z)
  (color_key : string) (self : monitor) :
  Py.eq max_value (PInt 0) = true ->
  create_bar_graph t value max_value (Some width) color_key self
  = Ok (color color_key ++ repeat LIGHT_SHADE (Z.to_nat width)
        ++ color "reset", self).
Proof.
  intros H. unfold create_bar_graph. cbn [default_width bind fst snd].
  rewrite H. cbn [bind]. rewrite !str_repeat_single.
  simpl Z.to_nat. rewrite Z.sub_0_r. reflexivity.
Qed.

(** ** The line chart (C8) *)

(** [int()] and the floor give the same row: they differ on a negative
    argument only, where both rows are clamped to the bottom row. *)
Lemma plot_row_chart_row (min_val range_val : num) (height : Z) (value : num) :
  plot_row min_val range_val height value
  = chart_row min_val range_val height value.
Proof.
  unfold plot_row, chart_row.
  destruct (sub value min_val) as [d|e]; [|reflexivity]. cbn [bind].
  destruct (truediv d range_val) as [ratio|e]; [|reflexivity]. cbn [bind].
  destruct (mul ratio (PInt (height - 1))) as [scaled|e]; [|reflexivity].
  cbn [bind].
  destruct scaled as [z | [q | s |]]; try reflexivity.
  cbn [int_of floor_of bind]. f_equal. unfold clamp, Qtrunc.
  destruct (Qle_bool 0 q) eqn:E; [reflexivity|].
  assert (Hq : (q < 0)%Q).
  { apply Qnot_le_lt. intros H. apply Qle_bool_iff in H. congruence. }
  assert (Hc : Qceiling q <= 0).
  { change 0 with (Qceiling 0). apply Qceiling_resp_le.
    now apply Qlt_le_weak. }
  assert (Hf : Qfloor q <= 0).
  { change 0 with (Qfloor 0). apply Qfloor_resp_le. now apply Qlt_le_weak. }
  lia.
Qed.

Lemma chart_row_range (min_val range_val : num) (height : Z) (value : num)
  (r : Z) :
  0 < height -> chart_row min_val range_val height value = Ok r ->
  0 <= r < height.
Proof.
  intros Hh. unfold chart_row, bind.
  destruct (sub value min_val); [|discriminate].
  destruct (truediv _ range_val); [|discriminate].
  destruct (mul _ _); [|discriminate].
  destruct (floor_of _); [|discriminate].
  intros H. injection H as <-. unfold clamp. lia.
Qed.

Section Charts.

Local Open Scope nat_scope.

Lemma map_const_seq {A : Type} (c : A) (a n : nat) :
  map (fun _ => c) (seq a n) = repeat c n.
Proof.
  revert a. induction n as [|n IH]; intros a; simpl.
  - reflexivity.
  - now rewrite IH.
Qed.

Lemma map_seq_ext {A : Type} (f g : nat -> A) (a n : nat) :
  (forall x, a <= x < a + n -> f x = g x) ->
  map f (seq a n) = map g (seq a n).
Proof.
  intros H. apply map_ext_in. intros x Hx. apply in_seq in Hx. now apply H.
Qed.

Lemma set_nth_map_seq {A : Type} (f : nat -> A) (a n i : nat) (v : A) :
  set_nth (map f (seq a n)) i v
  = map (fun x => if x =? a + i then v else f x) (seq a n).
Proof.
  revert a i. induction n as [|n IH]; intros a i; simpl.
  - reflexivity.
  - destruct i as [|i]; simpl.
    + rewrite Nat.add_0_r, Nat.eqb_refl. f_equal.
      apply map_seq_ext. intros x Hx.
      destruct (Nat.eqb_spec x a); [lia | reflexivity].
    + destruct (Nat.eqb_spec a (a + S i)); [lia|]. f_equal.
      rewrite IH. apply map_seq_ext. intros x Hx.
      replace (S a + i) with (a + S i) by lia. reflexivity.
Qed.

Lemma nth_error_map_seq {A : Type} (f : nat -> A) (n x : nat) :
  x < n -> nth_error (map f (seq 0 n)) x = Some (f x).
Proof.
  intros H. rewrite nth_error_map, nth_error_seq.
  destruct (Nat.ltb_spec x n); [reflexivity | lia].
Qed.

Lemma glyph_at_snoc (rows : list Z) (r : Z) (x y : nat) :
  glyph_at (rows ++ [r]) x y
  = if x =? length rows
    then (if (r =? Z.of_nat y)%Z then BLACK_CIRCLE else SPACE)
    else glyph_at rows x y.
Proof.
  unfold glyph_at. destruct (Nat.eqb_spec x (length rows)) as [->|Hx].
  - rewrite nth_error_app2, Nat.sub_diag by lia. reflexivity.
  - destruct (Nat.lt_ge_cases x (length rows)) as [C|C].
    + now rewrite nth_error_app1 by exact C.
    + rewrite (proj2 (nth_error_None rows x)) by lia.
      rewrite (proj2 (nth_error_None (rows ++ [r]) x)); [reflexivity|].
      rewrite length_app. simpl. lia.
Qed.

End Charts.

(** Drawing the point of the next column on row [r] turns the chart of
    [rows] into the chart of [rows ++ [r]]. *)
Lemma plot_step (width height : Z) (rows : list Z) (r : Z) :
  0 <= r < height -> (length rows < Z.to_nat width)%nat ->
  (line <- getitem (chart_of_rows width height rows) r ;;
   line_list <- setitem line (Z.of_nat (length rows)) BLACK_CIRCLE ;;
   setitem (chart_of_rows width height rows) r line_list)
  = Ok (chart_of_rows width height (rows ++ [r])).
Proof.
  intros Hr Hi. unfold chart_of_rows, getitem.
  rewrite nth_error_map_seq by lia. cbn [bind].
  unfold setitem. rewrite Nat2Z.id, !length_map, !length_seq.
  destruct (Nat.ltb_spec (length rows) (Z.to_nat width)) as [_|C]; [|lia].
  cbn [bind].
  destruct (Nat.ltb_spec (Z.to_nat r) (Z.to_nat height)) as [_|C]; [|lia].
  f_equal. rewrite !set_nth_map_seq. apply map_seq_ext. intros y Hy.
  simpl Nat.add. destruct (Nat.eqb_spec y (Z.to_nat r)) as [->|Hne].
  - apply map_seq_ext. intros x Hx. rewrite glyph_at_snoc.
    destruct (Nat.eqb_spec x (length rows)) as [_|_]; [|reflexivity].
    destruct (Z.eqb_spec r (Z.of_nat (Z.to_nat r))) as [_|C]; [reflexivity|lia].
  - apply map_seq_ext. intros x Hx. rewrite glyph_at_snoc.
    destruct (Nat.eqb_spec x (length rows)) as [->|_]; [|reflexivity].
    destruct (Z.eqb_spec r (Z.of_nat y)) as [C|_]; [lia|].
    unfold glyph_at. now rewrite (proj2 (nth_error_None rows (length rows))).
Qed.

(** The loop of [create_line_graph] draws the chart of the rows of its
    points, or raises what the first point that fails raises. *)
Lemma plot_points_chart (min_val range_val : num) (width height : Z)
  (points : list num) (rows : list Z) :
  0 < height ->
  (length rows + length points <= Z.to_nat width)%nat ->
  plot_points min_val range_val width height points
    (Z.of_nat (length rows)) (chart_of_rows width height rows)
  = (rs <- mapM (chart_row min_val range_val height) points ;;
     Ok (chart_of_rows width height (rows ++ rs))).
Proof.
  intros Hh. revert rows.
  induction points as [|value points IH]; intros rows Hlen.
  - simpl. now rewrite app_nil_r.
  - simpl in Hlen. cbn [plot_points mapM].
    destruct (Z.leb_spec width (Z.of_nat (length rows))) as [C|_]; [lia|].
    rewrite plot_row_chart_row.
    destruct (chart_row min_val range_val height value) as [r|e] eqn:Er;
      [|reflexivity].
    cbn [bind].
    pose proof (chart_row_range _ _ _ _ _ Hh Er) as Hr.
    pose proof (plot_step width height rows r Hr ltac:(lia)) as Hs.
    destruct (getitem (chart_of_rows width height rows) r) as [line|e];
      [|discriminate].
    cbn [bind] in Hs |- *.
    destruct (setitem line (Z.of_nat (length rows)) BLACK_CIRCLE)
      as [line_list|e]; [|discriminate].
    cbn [bind] in Hs |- *. rewrite Hs. cbn [bind].
    replace (Z.of_nat (length rows) + 1) with (Z.of_nat (length (rows ++ [r])))
      by (rewrite length_app; simpl; lia).
    rewrite IH by (rewrite length_app; simpl; lia).
    destruct (mapM (chart_row min_val range_val height) points) as [rs|e];
      [|reflexivity].
    cbn [bind]. now rewrite <- app_assoc.
Qed.

Lemma list_repeat_single {A : Type} (x : A) (n : Z) :
  list_repeat [x] n = repeat x (Z.to_nat n).
Proof.
  unfold list_repeat. induction (Z.to_nat n) as [|k IH]; simpl.
  - reflexivity.
  - now rewrite IH.
Qed.

(** The loop plots the last [width] points. *)
Lemma plot_slice (min_val range_val : num) (width height : Z)
  (data : list num) :
  0 < height ->
  plot_points min_val range_val width height (slice_last data width) 0
    (chart_of_rows width height [])
  = (rs <- mapM (chart_row min_val range_val height)
             (lastn (Z.to_nat width) data) ;;
     Ok (chart_of_rows width height rs)).
Proof.
  intros Hh. unfold slice_last.
  destruct (Z.ltb_spec 0 width) as [C|C].
  - fold (lastn (Z.to_nat width) data).
    apply (plot_points_chart min_val range_val width height _ [] Hh).
    simpl. rewrite lastn_length. lia.
  - replace (Z.to_nat width) with 0%nat by lia.
    unfold lastn. rewrite Nat.sub_0_r, skipn_all. cbn [mapM bind].
    destruct (skipn (Z.to_nat (- width)) data) as [|v rest]; [reflexivity|].
    cbn [plot_points].
    destruct (Z.leb_spec width 0) as [_|C']; [reflexivity | lia].
Qed.

Lemma blank_chart (width height : Z) :
  map (fun _ : nat => str_repeat [SPACE] width) (seq 0 (Z.to_nat height))
  = chart_of_rows width height [].
Proof.
  unfold chart_of_rows. apply map_seq_ext. intros y _.
  rewrite str_repeat_single, <- (map_const_seq SPACE 0).
  apply map_seq_ext. intros x _. unfold glyph_at. now destruct x.
Qed.

(** The program and the specification draw the same chart. *)
Lemma create_line_graph_spec (t : terminal) (data : list num)
  (width height : Z) (self : monitor) :
  0 < height ->
  create_line_graph t data (Some width) height self
  = (lines <- line_chart_spec data width height ;; Ok (lines, self)).
Proof.
  intros Hh. unfold create_line_graph, line_chart_spec.
  cbn [default_width bind fst snd].
  destruct (length data <? 2)%nat.
  - now rewrite list_repeat_single.
  - destruct (min_of data) as [min_val|e]; [|reflexivity]. cbn [bind].
    destruct (max_of data) as [max_val|e]; [|reflexivity]. cbn [bind].
    unfold ne.
    assert (E : (if negb (Py.eq max_val min_val) then sub max_val min_val
                 else Ok (PInt 1))
                = (if Py.eq max_val min_val then Ok (PInt 1)
                   else sub max_val min_val))
      by now destruct (Py.eq max_val min_val).
    rewrite E.
    destruct (if Py.eq max_val min_val then Ok (PInt 1)
              else sub max_val min_val) as [range_val|e]; [|reflexivity].
    cbn [bind]. rewrite blank_chart, plot_slice by exact Hh.
    destruct (mapM (chart_row min_val range_val height)
                (lastn (Z.to_nat width) data)); reflexivity.
Qed.




(** ** The line chart on finite data

    On the values the monitor stores, non-negative finite numbers, the
    chart is produced: no step of [create_line_graph] raises.  This needs
    two more facts on the rounding: it is monotone, and its results are on
    the grid. *)

Section Monotone.

Local Open Scope Q_scope.

Lemma pow2_lt_inv (a b : Z) : pow2 a < pow2 b -> (a < b)%Z.
Proof. intros H. apply (Qpower_lt_compat_l_inv 2 a b H). reflexivity. Qed.

Lemma Qlog2_unique (q : Q) (l : Z) :
  0 < q -> pow2 l <= q -> q < pow2 (l + 1) -> Qlog2 q = l.
Proof.
  intros Hq L1 L2. destruct (Qlog2_spec q Hq) as [S1 S2].
  assert (A : (l < Qlog2 q + 1)%Z).
  { apply pow2_lt_inv. now apply Qle_lt_trans with q. }
  assert (B : (Qlog2 q < l + 1)%Z).
  { apply pow2_lt_inv. now apply Qle_lt_trans with q. }
  lia.
Qed.

Lemma Qlog2_comp (q q' : Q) : 0 < q -> q == q' -> Qlog2 q = Qlog2 q'.
Proof.
  intros Hq E. assert (Hq' : 0 < q') by now rewrite <- E.
  destruct (Qlog2_spec q' Hq') as [S1 S2].
  apply Qlog2_unique; [exact Hq | now rewrite E | now rewrite E].
Qed.

Lemma round_pos_comp (q q' : Q) : 0 < q -> q == q' -> round_pos q = round_pos q'.
Proof.
  intros Hq E. unfold round_pos. rewrite (Qlog2_comp q q' Hq E).
  rewrite (rne_comp (q / pow2 (fexp (Qlog2 q'))) (q' / pow2 (fexp (Qlog2 q')))).
  - reflexivity.
  - now rewrite E.
Qed.

(** Rounding depends on the value of the rational only. *)
Lemma fl_comp (q q' : Q) : q == q' -> fl q = fl q'.
Proof.
  intros E. unfold fl. rewrite <- E.
  destruct (Qcompare_spec q 0) as [C|C|C].
  - reflexivity.
  - assert (H : 0 < - q) by lra.
    assert (E' : - q == - q') by now rewrite E.
    now rewrite (round_pos_comp (- q) (- q') H E').
  - now rewrite (round_pos_comp q q' C E).
Qed.

Lemma Qlog2_mono (q1 q2 : Q) : 0 < q1 -> q1 <= q2 -> (Qlog2 q1 <= Qlog2 q2)%Z.
Proof.
  intros H1 H12. assert (H2 : 0 < q2) by now apply Qlt_le_trans with q1.
  destruct (Qlog2_spec q1 H1) as [A _]. destruct (Qlog2_spec q2 H2) as [_ B].
  assert (C : (Qlog2 q1 < Qlog2 q2 + 1)%Z).
  { apply pow2_lt_inv. apply Qle_lt_trans with q1; [exact A|].
    now apply Qle_lt_trans with q2. }
  lia.
Qed.

(** Rounding is monotone. *)
Lemma round_pos_mono (q1 q2 : Q) :
  0 < q1 -> q1 <= q2 -> round_pos q1 <= round_pos q2.
Proof.
  intros H1 H12. assert (H2 : 0 < q2) by now apply Qlt_le_trans with q1.
  pose proof (Qlog2_mono q1 q2 H1 H12) as Hl.
  destruct (Z.eq_dec (fexp (Qlog2 q1)) (fexp (Qlog2 q2))) as [E|E].
  - unfold round_pos. rewrite E.
    apply Qmult_le_compat_r; [|apply Qlt_le_weak, pow2_pos].
    rewrite <- Zle_Qle. apply rne_mono.
    apply Qdiv_le_compat; [apply pow2_pos | exact H12].
  - destruct (Qlog2_spec q1 H1) as [_ A]. destruct (Qlog2_spec q2 H2) as [B _].
    assert (Hl2 : (-1074 <= Qlog2 q2)%Z) by (unfold fexp in E; lia).
    assert (Hl12 : (Qlog2 q1 + 1 <= Qlog2 q2)%Z) by (unfold fexp in E; lia).
    apply Qle_trans with (pow2 (Qlog2 q2)).
    + apply round_pos_le; [exact H1 | | now apply on_grid_pow2].
      apply Qlt_le_weak. apply Qlt_le_trans with (pow2 (Qlog2 q1 + 1)); [exact A|].
      now apply pow2_le.
    + apply round_pos_ge; [exact H2 | exact B | now apply on_grid_pow2].
Qed.

Lemma fl_mono (q1 q2 v1 v2 : Q) :
  0 <= q1 -> q1 <= q2 -> fl q1 = Fin v1 -> fl q2 = Fin v2 -> v1 <= v2.
Proof.
  intros H1 H12. unfold fl.
  destruct (Qcompare_spec q1 0) as [C1|C1|C1].
  - intros E1. injection E1 as <-.
    destruct (Qcompare_spec q2 0) as [C2|C2|C2].
    + intros E2. injection E2 as <-. apply Qle_refl.
    + exfalso. lra.
    + destruct (Qle_bool _ _); [discriminate|]. intros E2. injection E2 as <-.
      now apply round_pos_nonneg.
  - exfalso. lra.
  - destruct (Qcompare_spec q2 0) as [C2|C2|C2]; try (exfalso; lra).
    destruct (Qle_bool _ (round_pos q1)); [discriminate|].
    destruct (Qle_bool _ (round_pos q2)); [discriminate|].
    intros E1 E2. injection E1 as <-. injection E2 as <-.
    now apply round_pos_mono.
Qed.

(** The result of a rounding is on the grid. *)
Lemma round_pos_on_grid (q : Q) : 0 < q -> on_grid (round_pos q).
Proof.
  intros Hq. destruct (Qlog2_spec q Hq) as [L1 L2]. unfold round_pos.
  set (l := Qlog2 q) in *. set (e := fexp l).
  exists (rne (q / pow2 e)), e.
  assert (He : (-1074 <= e)%Z) by (unfold e, fexp; lia).
  split; [|split; [exact He | reflexivity]]. split.
  - apply rne_ge_int. apply Qle_shift_div_l; [apply pow2_pos|].
    rewrite Qmult_0_l. now apply Qlt_le_weak.
  - apply rne_le_int. rewrite <- pow2_Z by lia.
    apply Qle_shift_div_r; [apply pow2_pos|]. rewrite <- pow2_add.
    apply Qlt_le_weak. apply Qlt_le_trans with (pow2 (l + 1)); [exact L2|].
    apply pow2_le. unfold e, fexp. lia.
Qed.

Lemma fl_nonneg_finite (q v : Q) :
  0 <= q -> fl q = Fin v -> 0 <= v /\ on_grid v /\ v < pow2 1024.
Proof.
  intros H0. unfold fl. destruct (Qcompare_spec q 0) as [C|C|C].
  - intros E. injection E as <-.
    split; [apply Qle_refl | split; [exact on_grid_0 | apply pow2_pos]].
  - exfalso. lra.
  - destruct (Qle_bool (pow2 1024) (round_pos q)) eqn:B; [discriminate|].
    intros E. injection E as <-.
    split; [now apply round_pos_nonneg | split; [now apply round_pos_on_grid|]].
    apply Qnot_le_lt. intros H. apply Qle_bool_iff in H. congruence.
Qed.

End Monotone.

Section PlainValues.

Local Open Scope Q_scope.

Lemma grid_multiple (a : Q) :
  on_grid a -> exists N : Z, a == inject_Z N * pow2 (-1074).
Proof.
  intros (M & E & HM & HE & Ha).
  exists (M * 2 ^ (E - -1074))%Z.
  rewrite <- (scale_int M E (-1074) HE), Qdiv_mult_pow2. exact Ha.
Qed.

(** Two points of the grid are at least one subnormal step apart. *)
Lemma grid_gap (a b : Q) :
  on_grid a -> on_grid b -> b < a -> pow2 (-1074) <= a - b.
Proof.
  intros Ga Gb Hab.
  destruct (grid_multiple a Ga) as (Na & Ea).
  destruct (grid_multiple b Gb) as (Nb & Eb).
  pose proof (pow2_pos (-1074)) as Pu.
  assert (HN : (Nb < Na)%Z).
  { destruct (Z_lt_le_dec Nb Na) as [C|C]; [exact C|]. exfalso.
    apply (Qlt_irrefl a). apply Qle_lt_trans with b; [|exact Hab].
    rewrite Ea, Eb. apply Qmult_le_compat_r; [|now apply Qlt_le_weak].
    now rewrite <- Zle_Qle. }
  assert (E : a - b == inject_Z (Na - Nb) * pow2 (-1074)).
  { rewrite Ea, Eb. unfold Z.sub. rewrite inject_Z_plus, inject_Z_opp. ring. }
  rewrite E. rewrite <- (Qmult_1_l (pow2 (-1074))) at 1.
  apply Qmult_le_compat_r; [|now apply Qlt_le_weak].
  change 1 with (inject_Z 1). rewrite <- Zle_Qle. lia.
Qed.

Lemma plain_on_grid (v : num) :
  plain_value v -> on_grid (value_of v) /\ value_of v < pow2 1024.
Proof.
  intros (Hf & H0 & Hb). destruct v as [z | [q | s |]]; cbn [finite_num value_of as_float] in *;
    try contradiction.
  - assert (Hz : (0 <= z)%Z) by (rewrite Zle_Qle; exact H0). split.
    + apply on_grid_Z. lia.
    + apply Qle_lt_trans with (pow2 53); [apply inject_Z_le_pow2; lia|].
      apply pow2_lt. lia.
  - destruct Hf as [G O]. assert (E : Qabs q == q) by now apply Qabs_pos.
    split; [now apply (on_grid_comp (Qabs q)) | now rewrite <- E].
Qed.

Lemma as_float_plain (v : num) :
  plain_value v -> exists x : Q, as_float v = Ok (Fin x) /\ x == value_of v.
Proof.
  intros (Hf & H0 & Hb). destruct v as [z | [q | s |]]; cbn [finite_num value_of as_float] in *;
    try contradiction.
  - assert (Hz : (0 <= z)%Z) by (rewrite Zle_Qle; exact H0).
    apply float_of_int_exact. lia.
  - exists q. split; reflexivity.
Qed.

Lemma compare_plain (a b : num) :
  plain_value a -> plain_value b ->
  compare a b = Some (Qcompare (value_of a) (value_of b)).
Proof.
  intros (Fa & _) (Fb & _). unfold compare.
  destruct a as [za | [qa | sa |]], b as [zb | [qb | sb |]];
    cbn [finite_num value_of] in *; try contradiction; reflexivity.
Qed.

(** The float a finite non-negative rational rounds to. *)
Lemma finite_float_num (v : Q) :
  0 <= v -> on_grid v -> v < pow2 1024 -> finite_num (PFloat (Fin v)).
Proof.
  intros H0 G O. cbn [finite_num]. assert (E : Qabs v == v) by now apply Qabs_pos.
  split; [apply (on_grid_comp v); [now symmetry | exact G] | now rewrite E].
Qed.

(** The difference of two plain values is the rounded difference, also
    when both are ints: their difference is then on the grid. *)
Lemma sub_plain (a b : num) :
  plain_value a -> plain_value b -> value_of b <= value_of a ->
  exists (d : num) (v : Q),
    sub a b = Ok d /\ fl (value_of a - value_of b) = Fin v
    /\ value_of d == v /\ finite_num d /\ 0 <= v.
Proof.
  intros Pa Pb Hba.
  destruct (plain_on_grid a Pa) as [Ga Oa].
  pose proof Pa as (_ & A0 & _). pose proof Pb as (_ & B0 & _).
  assert (D0 : 0 <= value_of a - value_of b) by lra.
  assert (D1 : value_of a - value_of b <= value_of a) by lra.
  destruct (fl_bounds _ _ D0 D1 Ga Oa) as (v & Hv & V0 & V1).
  destruct (fl_nonneg_finite _ _ D0 Hv) as (_ & Gv & Ov).
  assert (Hfloat : forall xa xb : Q,
             xa == value_of a -> xb == value_of b ->
             exists (d : num) (v : Q),
               Ok (PFloat (fsub (Fin xa) (Fin xb))) = Ok d
               /\ fl (value_of a - value_of b) = Fin v
               /\ value_of d == v /\ finite_num d /\ 0 <= v).
  { intros xa xb Ea Eb. exists (PFloat (Fin v)), v.
    cbn [fsub]. rewrite (fl_comp (xa - xb) (value_of a - value_of b))
      by now rewrite Ea, Eb.
    rewrite Hv. repeat split; try reflexivity; try assumption.
    - now apply (on_grid_comp v); [symmetry; apply Qabs_pos|].
    - now rewrite (Qabs_pos v V0). }
  destruct a as [za | fa], b as [zb | fb].
  - exists (PInt (za - zb)), v. cbn [finite_num value_of sub] in *.
    destruct Pa as (Fa & _ & Ua), Pb as (Fb & _ & Ub).
    assert (Hza : (0 <= za)%Z) by (rewrite Zle_Qle; exact A0).
    assert (Hzb : (0 <= zb)%Z) by (rewrite Zle_Qle; exact B0).
    assert (Hzab : (zb <= za)%Z) by (rewrite Zle_Qle; exact Hba).
    assert (E : inject_Z za - inject_Z zb == inject_Z (za - zb)).
    { unfold Z.sub. rewrite inject_Z_plus, inject_Z_opp. ring. }
    destruct (fl_exact (inject_Z (za - zb))) as (v' & Hv' & Ev').
    + apply on_grid_Z. lia.
    + apply Qle_lt_trans with (pow2 53); [apply inject_Z_le_pow2; lia|].
      apply pow2_lt. lia.
    + change 0 with (inject_Z 0). rewrite <- Zle_Qle. lia.
    + pose proof Hv as Hv2. rewrite (fl_comp _ _ E), Hv' in Hv2.
      injection Hv2 as Evv.
      split; [reflexivity|]. split; [exact Hv|].
      split; [rewrite <- Evv; now symmetry|].
      split; [lia | exact V0].
  - destruct (as_float_plain _ Pa) as (xa & Hxa & Ea).
    destruct (as_float_plain _ Pb) as (xb & Hxb & Eb).
    unfold sub. rewrite Hxa, Hxb. cbn [bind]. now apply Hfloat.
  - destruct (as_float_plain _ Pa) as (xa & Hxa & Ea).
    destruct (as_float_plain _ Pb) as (xb & Hxb & Eb).
    unfold sub. rewrite Hxa, Hxb. cbn [bind]. now apply Hfloat.
  - destruct (as_float_plain _ Pa) as (xa & Hxa & Ea).
    destruct (as_float_plain _ Pb) as (xb & Hxb & Eb).
    unfold sub. rewrite Hxa, Hxb. cbn [bind]. now apply Hfloat.
Qed.

End PlainValues.

Section Extremes.

Local Open Scope Q_scope.

Lemma lt_plain (a b : num) :
  plain_value a -> plain_value b ->
  lt a b = true <-> value_of a < value_of b.
Proof.
  intros Pa Pb. unfold lt. rewrite (compare_plain a b Pa Pb).
  destruct (Qcompare_spec (value_of a) (value_of b)) as [C|C|C]; split;
    intros H; try discriminate; try reflexivity; try assumption; exfalso; lra.
Qed.

Lemma gt_plain (a b : num) :
  plain_value a -> plain_value b ->
  gt a b = true <-> value_of b < value_of a.
Proof.
  intros Pa Pb. unfold gt. rewrite (compare_plain a b Pa Pb).
  destruct (Qcompare_spec (value_of a) (value_of b)) as [C|C|C]; split;
    intros H; try discriminate; try reflexivity; try assumption; exfalso; lra.
Qed.

Lemma eq_plain (a b : num) :
  plain_value a -> plain_value b ->
  Py.eq a b = true <-> value_of a == value_of b.
Proof.
  intros Pa Pb. unfold Py.eq. rewrite (compare_plain a b Pa Pb).
  destruct (Qcompare_spec (value_of a) (value_of b)) as [C|C|C]; split;
    intros H; try discriminate; try reflexivity; try assumption; exfalso; lra.
Qed.

(** The fold of [min]: the result is an element, below all the others. *)
Lemma fold_min_plain (rest : list num) (x : num) :
  Forall plain_value (x :: rest) ->
  let m := fold_left (fun m y => if lt y m then y else m) rest x in
  In m (x :: rest) /\ forall v, In v (x :: rest) -> value_of m <= value_of v.
Proof.
  revert x. induction rest as [|y rest IH]; intros x Hall.
  - simpl. split; [now left|]. intros v [<- | []]. apply Qle_refl.
  - inversion Hall as [|? ? Px Hrest]; subst.
    inversion Hrest as [|? ? Py Hrest']; subst.
    cbn [fold_left].
    destruct (lt y x) eqn:E.
    + apply (lt_plain y x Py Px) in E.
      destruct (IH y Hrest) as [Hin Hle]. split.
      * right. exact Hin.
      * intros v [<- | Hv]; [|now apply Hle].
        apply Qle_trans with (value_of y); [apply Hle; now left | lra].
    + assert (Hxy : value_of x <= value_of y).
      { apply Qnot_lt_le. intros H. apply (lt_plain y x Py Px) in H. congruence. }
      destruct (IH x (Forall_cons x Px Hrest')) as [Hin Hle]. split.
      * destruct Hin as [<- | Hin]; [now left | right; now right].
      * intros v [<- | [<- | Hv]].
        -- apply Hle. now left.
        -- apply Qle_trans with (value_of x); [apply Hle; now left | exact Hxy].
        -- apply Hle. now right.
Qed.

Lemma fold_max_plain (rest : list num) (x : num) :
  Forall plain_value (x :: rest) ->
  let m := fold_left (fun m y => if gt y m then y else m) rest x in
  In m (x :: rest) /\ forall v, In v (x :: rest) -> value_of v <= value_of m.
Proof.
  revert x. induction rest as [|y rest IH]; intros x Hall.
  - simpl. split; [now left|]. intros v [<- | []]. apply Qle_refl.
  - inversion Hall as [|? ? Px Hrest]; subst.
    inversion Hrest as [|? ? Py Hrest']; subst.
    cbn [fold_left].
    destruct (gt y x) eqn:E.
    + apply (gt_plain y x Py Px) in E.
      destruct (IH y Hrest) as [Hin Hle]. split.
      * right. exact Hin.
      * intros v [<- | Hv]; [|now apply Hle].
        apply Qle_trans with (value_of y); [lra | apply Hle; now left].
    + assert (Hxy : value_of y <= value_of x).
      { apply Qnot_lt_le. intros H. apply (gt_plain y x Py Px) in H. congruence. }
      destruct (IH x (Forall_cons x Px Hrest')) as [Hin Hle]. split.
      * destruct Hin as [<- | Hin]; [now left | right; now right].
      * intros v [<- | [<- | Hv]].
        -- apply Hle. now left.
        -- apply Qle_trans with (value_of x); [exact Hxy | apply Hle; now left].
        -- apply Hle. now right.
Qed.

End Extremes.

Section ChartTotal.

Local Open Scope Q_scope.

(** The range of a series of plain values is a positive finite number that
    bounds the rounded distance of every point to the minimum. *)
Lemma range_plain (min_val max_val : num) :
  plain_value min_val -> plain_value max_val ->
  value_of min_val <= value_of max_val ->
  exists range_val : num,
    (if Py.eq max_val min_val then Ok (PInt 1) else sub max_val min_val)
    = Ok range_val
    /\ finite_num range_val /\ 0 < value_of range_val
    /\ forall (v : num) (x : Q),
        plain_value v -> value_of min_val <= value_of v ->
        value_of v <= value_of max_val ->
        fl (value_of v - value_of min_val) = Fin x ->
        x <= value_of range_val.
Proof.
  intros Pmin Pmax Hmm.
  destruct (Py.eq max_val min_val) eqn:E.
  - apply (eq_plain max_val min_val Pmax Pmin) in E.
    exists (PInt 1). split; [reflexivity|]. cbn [finite_num value_of].
    split; [lia|]. split; [reflexivity|].
    intros v x Pv Hlo Hhi Hx.
    assert (E0 : value_of v - value_of min_val == 0) by lra.
    rewrite (fl_comp _ _ E0) in Hx. vm_compute in Hx. injection Hx as <-.
    discriminate.
  - destruct (sub_plain max_val min_val Pmax Pmin Hmm)
      as (r & vr & Hsub & Hfl & Er & Fr & R0).
    exists r. split; [exact Hsub|]. split; [exact Fr|].
    assert (Hlt : value_of min_val < value_of max_val).
    { apply Qnot_le_lt. intros H.
      assert (Eq : value_of max_val == value_of min_val) by lra.
      apply (eq_plain max_val min_val Pmax Pmin) in Eq. congruence. }
    destruct (plain_on_grid min_val Pmin) as [Gmin _].
    destruct (plain_on_grid max_val Pmax) as [Gmax _].
    pose proof (grid_gap _ _ Gmax Gmin Hlt) as Hgap.
    pose proof (pow2_pos (-1074)) as Pu.
    assert (Hvr : pow2 (-1074) <= vr).
    { apply (fl_lower (value_of max_val - value_of min_val)); try assumption.
      - lra.
      - apply on_grid_pow2. lia. }
    split; [rewrite Er; lra|].
    intros v x Pv Hlo Hhi Hx. rewrite Er.
    apply (fl_mono (value_of v - value_of min_val)
                   (value_of max_val - value_of min_val)); try assumption; lra.
Qed.

(** The row of a point of the series is computed without an exception. *)
Lemma chart_row_plain (min_val range_val v : num) (height : Z) :
  plain_value min_val -> plain_value v ->
  value_of min_val <= value_of v ->
  finite_num range_val -> 0 < value_of range_val ->
  (forall x : Q, fl (value_of v - value_of min_val) = Fin x ->
                 x <= value_of range_val) ->
  (0 < height <= 2 ^ 53 + 1)%Z ->
  exists r : Z, chart_row min_val range_val height v = Ok r.
Proof.
  intros Pmin Pv Hlo Fr R0 Hx Hh. unfold chart_row.
  destruct (sub_plain v min_val Pv Pmin Hlo) as (d & x & Hsub & Hfl & Ed & Fd & X0).
  rewrite Hsub. cbn [bind].
  destruct (ratio_unit d range_val Fd Fr) as (w & Hw & W0 & W1).
  - rewrite Ed. exact X0.
  - rewrite Ed. now apply Hx.
  - exact R0.
  - rewrite Hw. cbn [bind].
    destruct (cells_of_ratio w (height - 1) W0 W1 ltac:(lia))
      as (cells & _ & Hc & _).
    destruct (mul (PFloat (Fin w)) (PInt (height - 1))) as [p|e];
      [|discriminate].
    cbn [bind] in Hc |- *. rewrite Hc. cbn [bind]. eauto.
Qed.

End ChartTotal.

Lemma mapM_total {A B : Type} (f : A -> result B) (xs : list A) :
  (forall x, In x xs -> exists y, f x = Ok y) ->
  exists ys : list B, mapM f xs = Ok ys /\ length ys = length xs.
Proof.
  induction xs as [|x xs IH]; intros H.
  - exists []. split; reflexivity.
  - destruct (H x (or_introl eq_refl)) as (y & Hy).
    destruct IH as (ys & Hys & Hl); [intros z Hz; apply H; now right|].
    exists (y :: ys). cbn [mapM]. rewrite Hy. cbn [bind]. rewrite Hys.
    split; [reflexivity | simpl; now rewrite Hl].
Qed.

Lemma In_lastn {A : Type} (n : nat) (xs : list A) (x : A) :
  In x (lastn n xs) -> In x xs.
Proof.
  unfold lastn. intros H.
  rewrite <- (firstn_skipn (length xs - n) xs). apply in_or_app. now right.
Qed.

(** On a series of plain values the line chart is produced: [height] lines,
    of [width] cells each when the series has two points or more. *)
Lemma line_chart_total (t : terminal) (data : list num) (width height : Z)
  (self : monitor) :
  Forall plain_value data -> 0 < height <= 2 ^ 53 + 1 ->
  exists lines : list str,
    create_line_graph t data (Some width) height self = Ok (lines, self)
    /\ length lines = Z.to_nat height
    /\ ((2 <= length data)%nat ->
        exists rows : list Z,
          lines = chart_of_rows width height rows
          /\ length rows = Nat.min (Z.to_nat width) (length data)
          /\ Forall (fun r => 0 <= r < height) rows).
Proof.
  intros Hall Hh. rewrite create_line_graph_spec by lia.
  unfold line_chart_spec.
  destruct (Nat.ltb_spec (length data) 2) as [C|C].
  - exists (repeat [] (Z.to_nat height)). cbn [bind].
    split; [reflexivity|]. split; [apply repeat_length | lia].
  - destruct data as [|x rest]; [simpl in C; lia|].
    cbn [min_of max_of bind].
    destruct (fold_min_plain rest x Hall) as [Imin Lmin].
    destruct (fold_max_plain rest x Hall) as [Imax Lmax].
    set (min_val := fold_left (fun m y => if lt y m then y else m) rest x) in *.
    set (max_val := fold_left (fun m y => if gt y m then y else m) rest x) in *.
    rewrite Forall_forall in Hall.
    pose proof (Hall _ Imin) as Pmin. pose proof (Hall _ Imax) as Pmax.
    destruct (range_plain min_val max_val Pmin Pmax (Lmin _ Imax))
      as (range_val & Hr & Fr & R0 & Hbound).
    rewrite Hr. cbn [bind].
    destruct (mapM_total (chart_row min_val range_val height)
                (lastn (Z.to_nat width) (x :: rest))) as (rows & Hrows & Hl).
    { intros v Hv. apply In_lastn in Hv.
      apply (chart_row_plain min_val range_val v height);
        try assumption; try (now apply Hall); try (now apply Lmin).
      intros q Hq. apply (Hbound v q); try assumption;
        [now apply Hall | now apply Lmin | now apply Lmax]. }
    rewrite Hrows. cbn [bind].
    exists (chart_of_rows width height rows).
    split; [reflexivity|]. split.
    + unfold chart_of_rows. now rewrite length_map, length_seq.
    + intros _. exists rows. split; [reflexivity|]. split.
      * rewrite Hl. apply lastn_length.
      * clear Hl. revert rows Hrows.
        induction (lastn (Z.to_nat width) (x :: rest)) as [|v vs IH];
          intros rows Hrows.
        -- injection Hrows as <-. constructor.
        -- cbn [mapM] in Hrows.
           destruct (chart_row min_val range_val height v) as [r|e] eqn:Ev;
             [|discriminate].
           cbn [bind] in Hrows.
           destruct (mapM (chart_row min_val range_val height) vs) as [rs|e];
             [|discriminate].
           injection Hrows as <-. constructor.
           ++ apply (chart_row_range _ _ _ _ _ (proj1 Hh) Ev).
           ++ now apply IH.
Qed.

(* ================================================================== *)
(** * Further properties of the code *)
(* ================================================================== *)

(** ** The layout and the probe of the terminal *)

(** Whatever the terminal answers, the bar is at least 20 cells wide and the
    graph at least 30; the graph is wider than the bar by 10 to 20 cells;
    from 52 columns on, the bar takes the width less 32 and the graph the
    width less 12; the width returned is the one the monitor now caches. *)
Theorem layout_bounds (t : terminal) (self self' : monitor) (ws : widths) :
  get_dynamic_widths t self = Ok (ws, self') ->
  20 <= bar_width ws /\ 30 <= graph_width ws
  /\ bar_width ws + 10 <= graph_width ws <= bar_width ws + 20
  /\ widths_terminal_width ws = terminal_width self'
  /\ (52 <= terminal_width self' ->
      bar_width ws = terminal_width self' - 32
      /\ graph_width ws = terminal_width self' - 12).
Proof.
  unfold get_dynamic_widths. intros H.
  destruct (update_terminal_size t self) as [m|e]; [|discriminate].
  cbn [bind] in H. injection H as <- <-. cbn [bar_width graph_width widths_terminal_width].
  repeat split; lia.
Qed.

Lemma layout_bounds_witness :
  20 <= 88 /\ 30 <= 108 /\ 88 + 10 <= 108 <= 88 + 20
  /\ 120 = terminal_width (set_terminal_size (fresh_monitor 60) 120 40)
  /\ (52 <= terminal_width (set_terminal_size (fresh_monitor 60) 120 40) ->
      88 = terminal_width (set_terminal_size (fresh_monitor 60) 120 40) - 32
      /\ 108 = terminal_width (set_terminal_size (fresh_monitor 60) 120 40) - 12).
Proof.
  apply (layout_bounds
           {| get_terminal_size := Ok (120, 40); env_COLUMNS := None;
              env_LINES := None |}
           (fresh_monitor 60) (set_terminal_size (fresh_monitor 60) 120 40)
           {| bar_width := 88; graph_width := 108;
              widths_terminal_width := 120 |}).
  reflexivity.
Defined.

(** When the query of the size raises [OSError] or [AttributeError], the
    probe always returns: with the two values of the environment (80 and 24
    standing for an unset variable) when both are integers, and with 80x24
    as soon as one of them is not -- never a mix of the two.  Any other
    exception of the query leaves the probe. *)
Theorem terminal_size_fallback (t : terminal) (self : monitor) (e : exn) :
  get_terminal_size t = Raise e ->
  (e = OSError \/ e = AttributeError ->
   exists w h : Z,
     update_terminal_size t self = Ok (set_terminal_size self w h)
     /\ ((env_int (env_COLUMNS t) 80 = Ok w /\ env_int (env_LINES t) 24 = Ok h)
         \/ ((env_COLUMNS t = Some None \/ env_LINES t = Some None)
             /\ w = 80 /\ h = 24)))
  /\ (e <> OSError -> e <> AttributeError ->
      update_terminal_size t self = Raise e).
Proof.
  intros He. unfold update_terminal_size. rewrite He. split.
  - intros [-> | ->]; cbn;
      destruct (env_COLUMNS t) as [[c|]|], (env_LINES t) as [[l|]|]; cbn;
      do 2 eexists; (split; [reflexivity|]); auto.
  - intros H1 H2. destruct e; cbn; congruence.
Qed.

Lemma terminal_size_fallback_witness :
  exists w h : Z,
    update_terminal_size
      {| get_terminal_size := Raise OSError; env_COLUMNS := Some (Some 120);
         env_LINES := Some None |} (fresh_monitor 60)
    = Ok (set_terminal_size (fresh_monitor 60) w h)
    /\ ((Ok 120 = Ok w /\ Raise ValueError = Ok h)
        \/ ((Some (Some 120) = Some None \/ Some None = Some (@None Z))
            /\ w = 80 /\ h = 24)).
Proof.
  apply (proj1 (terminal_size_fallback
                  {| get_terminal_size := Raise OSError;
                     env_COLUMNS := Some (Some 120); env_LINES := Some None |}
                  (fresh_monitor 60) OSError eq_refl)).
  left. reflexivity.
Defined.

(** ** The series and the constructor *)

Lemma append_all_ok (vs : list num) (d : Deque.deque) :
  deque_ok d -> deque_ok (append_all d vs).
Proof.
  revert d. induction vs as [|v vs IH]; intros d H.
  - exact H.
  - rewrite append_all_cons. apply IH. now apply append_ok.
Qed.

(** A series never holds more than [maxlen] values: after any appends its
    length is the smaller of [maxlen] and the number of values it was
    given, and its capacity is unchanged.  With [maxlen = 0] it stays
    empty. *)
Theorem series_length (d : Deque.deque) (vs : list num) :
  deque_ok d ->
  Deque.len (append_all d vs)
  = Z.min (Deque.maxlen d) (Deque.len d + Z.of_nat (length vs))
  /\ Deque.maxlen (append_all d vs) = Deque.maxlen d
  /\ deque_ok (append_all d vs)
  /\ (Deque.maxlen d = 0 -> Deque.items (append_all d vs) = []).
Proof.
  intros Hd. pose proof Hd as [H0 H1].
  assert (L : Deque.len (append_all d vs)
              = Z.min (Deque.maxlen d) (Deque.len d + Z.of_nat (length vs))).
  { unfold Deque.len in *. rewrite append_all_items by exact Hd.
    rewrite lastn_length, length_app. lia. }
  split; [exact L|]. split; [apply append_all_maxlen|].
  split; [now apply append_all_ok|].
  intros E. rewrite E in L. unfold Deque.len in L.
  destruct (Deque.items (append_all d vs)); [reflexivity|].
  simpl length in L. unfold Deque.len in H1. lia.
Qed.

Lemma series_length_witness :
  Deque.len (append_all {| Deque.maxlen := 2; Deque.items := [PInt 7] |}
                        [PInt 1; PInt 2; PInt 3])
  = Z.min 2 (1 + 3).
Proof.
  apply (proj1 (series_length {| Deque.maxlen := 2; Deque.items := [PInt 7] |}
                              [PInt 1; PInt 2; PInt 3]
                              ltac:(split; unfold Deque.len; simpl; lia))).
Defined.



(** ** The loop: interrupt, crash, composition *)

Section LoopFacts.

Variable format_1f : float -> str.
Variable refresh_interval : Z.

(** The loop on two stretches of events is the loop on the first followed,
    if it still runs, by the loop on the second from the monitor the first
    leaves. *)
Lemma loop_app (events1 events2 : list event) (self : monitor) :
  loop format_1f refresh_interval (events1 ++ events2) self
  = match snd (loop format_1f refresh_interval events1 self) with
    | Running self1 =>
      (fst (loop format_1f refresh_interval events1 self)
         ++ fst (loop format_1f refresh_interval events2 self1),
       snd (loop format_1f refresh_interval events2 self1))
    | _ => loop format_1f refresh_interval events1 self
    end.
Proof.
  revert self. induction events1 as [|ev events1 IH]; intros self.
  - simpl. now destruct (loop format_1f refresh_interval events2 self).
  - destruct ev as [p t|]; [|reflexivity].
    cbn [app loop].
    destruct (tick format_1f refresh_interval p t self) as [[out s1]|e];
      [|reflexivity].
    rewrite IH. cbv zeta. cbn [fst snd].
    destruct (loop format_1f refresh_interval events1 s1) as [o1 st1].
    cbn [fst snd]. destruct st1; cbn [fst snd]; try reflexivity.
    now rewrite app_assoc.
Qed.

(** An interrupt ends the loop with the exit code 0: what was printed before
    is kept, the notice "Monitoring stopped." is the last line, and what
    would have come after the interrupt does not happen. *)
Theorem interrupt_exits (before after : list event) (self self1 : monitor)
  (out : list action) :
  loop format_1f refresh_interval before self = (out, Running self1) ->
  loop format_1f refresh_interval (before ++ KeyboardInterrupt :: after) self
  = (out ++ [Print ([10%N] ++ color "cyan" ++ lit "Monitoring stopped."
                    ++ color "reset")],
     Exited 0).
Proof.
  intros H. rewrite loop_app, H. reflexivity.
Qed.

(** Once the loop has exited or crashed, the remaining events change
    nothing. *)
Theorem loop_stops (events after : list event) (self : monitor) :
  (forall self1, snd (loop format_1f refresh_interval events self)
                 <> Running self1) ->
  loop format_1f refresh_interval (events ++ after) self
  = loop format_1f refresh_interval events self.
Proof.
  intros H. rewrite loop_app.
  destruct (snd (loop format_1f refresh_interval events self)) as [s| |] eqn:E;
    try reflexivity.
  exfalso. now apply (H s).
Qed.


End LoopFacts.

Lemma interrupt_exits_witness :
  loop (fun _ => []) 2
       ([Poll {| pool_run := Ok (Some 4096000); lvs_run := Ok [] |}
              terminal_80x24]
          ++ KeyboardInterrupt :: [KeyboardInterrupt])
       (fresh_monitor 60)
  = ([Print error_line_1; Print error_line_2; Sleep 2]
       ++ [Print ([10%N] ++ color "cyan" ++ lit "Monitoring stopped."
                  ++ color "reset")],
     Exited 0).
Proof.
  apply (interrupt_exits (fun _ => []) 2
           [Poll {| pool_run := Ok (Some 4096000); lvs_run := Ok [] |}
                 terminal_80x24]
           [KeyboardInterrupt] (fresh_monitor 60) (fresh_monitor 60)).
  reflexivity.
Defined.

Lemma loop_stops_witness :
  loop (fun _ => []) 2 ([KeyboardInterrupt] ++ [KeyboardInterrupt])
       (fresh_monitor 60)
  = loop (fun _ => []) 2 [KeyboardInterrupt] (fresh_monitor 60).
Proof.
  apply (loop_stops (fun _ => []) 2 [KeyboardInterrupt] [KeyboardInterrupt]
                    (fresh_monitor 60)).
  intros self1. discriminate.
Defined.

(** ** The poll: what is caught and what is not *)

(** An exception of [subprocess.run] other than [CalledProcessError],
    [ValueError] and [IndexError] -- the [OSError] of a missing executable,
    for one -- is not turned into an unavailable sample: it leaves
    [get_lvm_cache_stats], the iteration and the loop, whose output of that
    iteration is lost. *)
Theorem uncaught_exception_crashes (format_1f : float -> str)
  (refresh_interval : Z) (p : poll) (t : terminal) (self : monitor)
  (rest : list event) (e : exn) :
  e <> CalledProcessError -> e <> ValueError -> e <> IndexError ->
  pool_run p = Raise e
  \/ (exists z, pool_run p = Ok (Some z) /\ lvs_run p = Raise e) ->
  get_lvm_cache_stats p = Raise e
  /\ tick format_1f refresh_interval p t self = Raise e
  /\ loop format_1f refresh_interval (Poll p t :: rest) self = ([], Crashed e).
Proof.
  intros H1 H2 H3 Hp.
  assert (Hg : get_lvm_cache_stats p = Raise e).
  { unfold get_lvm_cache_stats.
    destruct Hp as [Hp | (z & Hp & Hl)]; rewrite Hp; cbn [bind parse_int];
      try rewrite Hl; cbn [bind]; destruct e; cbn; congruence. }
  assert (Ht : tick format_1f refresh_interval p t self = Raise e).
  { unfold tick. now rewrite Hg. }
  split; [exact Hg|]. split; [exact Ht|]. cbn [loop]. now rewrite Ht.
Qed.

Lemma uncaught_exception_crashes_witness :
  get_lvm_cache_stats {| pool_run := Raise OSError; lvs_run := Ok [] |}
  = Raise OSError
  /\ tick (fun _ => []) 2 {| pool_run := Raise OSError; lvs_run := Ok [] |}
          terminal_80x24 (fresh_monitor 60) = Raise OSError
  /\ loop (fun _ => []) 2
          [Poll {| pool_run := Raise OSError; lvs_run := Ok [] |}
                terminal_80x24]
          (fresh_monitor 60) = ([], Crashed OSError).
Proof.
  apply (uncaught_exception_crashes (fun _ => []) 2
           {| pool_run := Raise OSError; lvs_run := Ok [] |}
           terminal_80x24 (fresh_monitor 60) [] OSError);
    try discriminate.
  left. reflexivity.
Defined.

(** Only the first seven tokens of the output of [lvs] are read: what
    follows them, well formed or not, changes nothing. *)
Theorem extra_tokens_ignored (pool : result (option Z))
  (values extra : list (option Z)) :
  (7 <= length values)%nat ->
  get_lvm_cache_stats {| pool_run := pool; lvs_run := Ok (values ++ extra) |}
  = get_lvm_cache_stats {| pool_run := pool; lvs_run := Ok values |}.
Proof.
  intros H.
  do 7 (destruct values as [|? values]; [simpl in H; lia|]).
  unfold get_lvm_cache_stats. cbn [pool_run lvs_run].
  destruct pool as [[z|]|e]; try reflexivity. cbn [bind parse_int].
  cbn [app].
  destruct (Z.leb_spec 7 (Z.of_nat (length
              (o :: o0 :: o1 :: o2 :: o3 :: o4 :: o5 :: values ++ extra))))
    as [_|C]; [|simpl in C; lia].
  destruct (Z.leb_spec 7 (Z.of_nat (length
              (o :: o0 :: o1 :: o2 :: o3 :: o4 :: o5 :: values))))
    as [_|C]; [|simpl in C; lia].
  reflexivity.
Qed.

Lemma extra_tokens_ignored_witness :
  get_lvm_cache_stats
    {| pool_run := Ok (Some 4096000);
       lvs_run := Ok ([Some 1000; Some 500; Some 50; Some 80; Some 20;
                       Some 60; Some 40] ++ [None; Some 3]) |}
  = get_lvm_cache_stats
      {| pool_run := Ok (Some 4096000);
         lvs_run := Ok [Some 1000; Some 500; Some 50; Some 80; Some 20;
                        Some 60; Some 40] |}.
Proof.
  apply (extra_tokens_ignored (Ok (Some 4096000))
           [Some 1000; Some 500; Some 50; Some 80; Some 20; Some 60; Some 40]
           [None; Some 3]).
  simpl. lia.
Defined.



(** ** The percentages *)

Section Percent.

Local Open Scope Q_scope.

Lemma on_grid_100 : on_grid 100.
Proof. apply (on_grid_Z 100). lia. Qed.

Lemma lt_100_pow2_1024 : 100 < pow2 1024.
Proof.
  apply Qlt_trans with (pow2 7); [reflexivity | apply pow2_lt; lia].
Qed.

Lemma float_100 :
  exists c : Q, float_of_int 100 = Ok (Fin c) /\ c == 100.
Proof. apply (float_of_int_exact 100). lia. Qed.

(** The percentage of a float of the unit interval. *)
Lemma mul_100_unit (w : Q) :
  0 <= w -> w <= 1 ->
  exists v : Q,
    mul (PFloat (Fin w)) (PInt 100) = Ok (PFloat (Fin v))
    /\ fl (w * 100) = Fin v /\ 0 <= v /\ v <= 100.
Proof.
  intros W0 W1. unfold mul. cbn [as_float].
  destruct float_100 as (c & Hc & Ec). rewrite Hc. cbn [bind fmul].
  assert (E : w * c == w * 100) by now rewrite Ec.
  rewrite (fl_comp _ _ E).
  destruct (fl_bounds (w * 100) 100) as (v & Hv & V0 & V1).
  - apply Qmult_le_0_compat; [exact W0 | discriminate].
  - rewrite <- (Qmult_1_l 100) at 2. apply Qmult_le_compat_r;
      [exact W1 | discriminate].
  - exact on_grid_100.
  - exact lt_100_pow2_1024.
  - exists v. rewrite Hv. repeat split; assumption.
Qed.

(** The value [percent n d] computes, for a part [n] of a whole [d]. *)
Lemma percent_value (n d : Z) :
  (0 <= n <= d)%Z -> (0 < d)%Z ->
  exists w v : Q,
    fl (inject_Z n / inject_Z d) = Fin w /\ fl (w * 100) = Fin v
    /\ percent n d = Ok (PFloat (Fin v))
    /\ 0 <= w /\ w <= 1 /\ 0 <= v /\ v <= 100.
Proof.
  intros Hn Hd. unfold percent.
  destruct (Z.ltb_spec 0 d) as [_|C]; [|lia].
  destruct (int_truediv_unit n d Hn Hd) as (w & Hw & W0 & W1).
  unfold truediv. rewrite Hw. cbn [bind].
  destruct (mul_100_unit w W0 W1) as (v & Hm & Hv & V0 & V1).
  exists w, v. unfold int_truediv in Hw.
  destruct (Z.eqb_spec d 0) as [E|_]; [lia|].
  destruct (fl (inject_Z n / inject_Z d)) as [q | s |] eqn:Eq;
    try discriminate.
  injection Hw as ->. repeat split; assumption.
Qed.

End Percent.

(** A percentage of a part in its whole is a plain value, at most 100. *)
Lemma percent_plain (n d : Z) :
  0 <= n <= d ->
  exists v : num,
    percent n d = Ok v /\ plain_value v /\ (value_of v <= 100)%Q.
Proof.
  intros Hn. destruct (Z_lt_le_dec 0 d) as [Hd|Hd].
  - destruct (percent_value n d Hn Hd)
      as (w & v & Hw & Hv & Hp & W0 & W1 & V0 & V1).
    exists (PFloat (Fin v)). split; [exact Hp|].
    destruct (fl_nonneg_finite (w * 100) v) as (_ & Gv & Ov);
      [apply Qmult_le_0_compat; [exact W0 | discriminate] | exact Hv |].
    split; [|exact V1].
    split; [now apply finite_float_num|]. split; [exact V0 | exact I].
  - exists (PInt 0). rewrite percent_zero by lia.
    split; [reflexivity|]. split; [|cbn [value_of]; discriminate].
    split; [cbn [finite_num]; lia|]. split; [cbn; discriminate | lia].
Qed.

(** A percentage of a part in its whole is a finite float between 0 and
    100 (the integer 0 when the whole is 0): 0 for an empty part and exactly
    100 for the whole itself, whatever the rounding. *)
Theorem percent_range (n d : Z) :
  0 <= n <= d ->
  exists v : num,
    percent n d = Ok v /\ plain_value v
    /\ (value_of v <= 100)%Q
    /\ (n = 0 -> (value_of v == 0)%Q)
    /\ (0 < d -> n = d -> (value_of v == 100)%Q).
Proof.
  intros Hn. destruct (percent_plain n d Hn) as (v & Hp & Pv & V1).
  exists v. split; [exact Hp|]. split; [exact Pv|]. split; [exact V1|].
  destruct (Z_lt_le_dec 0 d) as [Hd|Hd].
  - destruct (percent_value n d Hn Hd)
      as (w & x & Hw & Hx & Hp' & _).
    rewrite Hp' in Hp. injection Hp as <-. cbn [value_of]. split.
    + intros ->.
      assert (E : (inject_Z 0 / inject_Z d == 0)%Q) by (unfold Qdiv; ring).
      rewrite (fl_comp _ _ E) in Hw. vm_compute in Hw. injection Hw as <-.
      vm_compute in Hx. injection Hx as <-. reflexivity.
    + intros _ ->.
      assert (E : (inject_Z d / inject_Z d == 1)%Q).
      { apply Qmult_inv_r. change 0%Q with (inject_Z 0).
        rewrite inject_Z_injective. lia. }
      rewrite (fl_comp _ _ E) in Hw. vm_compute in Hw. injection Hw as <-.
      vm_compute in Hx. injection Hx as <-. reflexivity.
  - rewrite percent_zero in Hp by lia. injection Hp as <-. cbn [value_of].
    split; [reflexivity | lia].
Qed.

Lemma percent_range_witness :
  exists v : num,
    percent 500 1000 = Ok v /\ plain_value v
    /\ (value_of v <= 100)%Q
    /\ (500 = 0 -> (value_of v == 0)%Q)
    /\ (0 < 1000 -> 500 = 1000 -> (value_of v == 100)%Q).
Proof. apply (percent_range 500 1000). lia. Defined.

(** A larger part never shows a smaller percentage. *)
Theorem percent_monotone (n1 n2 d : Z) (v1 v2 : num) :
  0 <= n1 <= n2 -> n2 <= d ->
  percent n1 d = Ok v1 -> percent n2 d = Ok v2 ->
  (value_of v1 <= value_of v2)%Q.
Proof.
  intros H1 H2. destruct (Z_lt_le_dec 0 d) as [Hd|Hd].
  - destruct (percent_value n1 d ltac:(lia) Hd)
      as (w1 & x1 & Hw1 & Hx1 & Hp1 & W10 & _).
    destruct (percent_value n2 d ltac:(lia) Hd)
      as (w2 & x2 & Hw2 & Hx2 & Hp2 & W20 & _).
    rewrite Hp1, Hp2. intros E1 E2. injection E1 as <-. injection E2 as <-.
    cbn [value_of].
    assert (Hw : (w1 <= w2)%Q).
    { apply (fl_mono (inject_Z n1 / inject_Z d) (inject_Z n2 / inject_Z d));
        try assumption.
      - apply (Qdiv_le_num n1 d); lia.
      - apply Qdiv_le_compat.
        + change 0%Q with (inject_Z 0). rewrite <- Zlt_Qlt. exact Hd.
        + rewrite <- Zle_Qle. lia. }
    apply (fl_mono (w1 * 100) (w2 * 100)); try assumption.
    + apply Qmult_le_0_compat; [exact W10 | discriminate].
    + apply Qmult_le_compat_r; [exact Hw | discriminate].
  - rewrite !percent_zero by lia. intros E1 E2.
    injection E1 as <-. injection E2 as <-. apply Qle_refl.
Qed.

Lemma percent_monotone_witness :
  exists v1 v2 : num,
    percent 1 3 = Ok v1 /\ percent 2 3 = Ok v2
    /\ (value_of v1 <= value_of v2)%Q.
Proof.
  do 2 eexists. split; [vm_compute; reflexivity|].
  split; [vm_compute; reflexivity|].
  apply (percent_monotone 1 2 3); [lia | lia | |]; vm_compute; reflexivity.
Defined.

(** ** The metrics of a consistent sample *)

Lemma cache_block_size_bounds (pool total : Z) :
  0 <= pool <= 2 ^ 64 -> 0 <= cache_block_size pool total <= 2 ^ 64.
Proof.
  intros Hp. unfold cache_block_size.
  destruct (Z.ltb_spec 0 total) as [C|C]; [|lia].
  pose proof (Z.div_pos pool total ltac:(lia) C).
  pose proof (Z.div_le_upper_bound pool total pool C ltac:(nia)). lia.
Qed.

(** The derivation on a consistent sample. *)
Lemma derive_sane (r : raw_sample) :
  sane_sample r -> exists st : stats, derive r = Ok st /\ sane_stats st.
Proof.
  intros (Hr & Hu & Hd & Ht & Hp).
  pose proof Hr as (P0 & T0 & U0 & D0 & H1 & H2 & H3 & H4).
  assert (Hpow : 2 ^ 53 <= 2 ^ 1023) by (apply Z.pow_le_mono_r; lia).
  destruct (derive_ok r Hr)
    as (cu & dr & hr & rhr & whr & w & p & Hcu & Hdr & Hhr & Hrhr & Hwhr
        & _ & _ & _ & _ & Pp0 & Pp1 & Hderive); [lia | lia |].
  specialize (Pp1 ltac:(lia)).
  destruct (Qfloor_bounds p (raw_used_blocks r) Pp0 Pp1) as [F0 F1].
  assert (Hpct : forall n d v, 0 <= n <= d -> percent n d = Ok v ->
                               percentage v).
  { intros n d v Hn Hv. destruct (percent_plain n d Hn) as (v' & Hv' & Pv).
    rewrite Hv in Hv'. injection Hv' as <-. exact Pv. }
  assert (Pcu : percentage cu) by (eapply Hpct; [|exact Hcu]; lia).
  assert (Pdr : percentage dr) by (eapply Hpct; [|exact Hdr]; lia).
  assert (Phr : percentage hr) by (eapply Hpct; [|exact Hhr]; lia).
  assert (Prhr : percentage rhr) by (eapply Hpct; [|exact Hrhr]; lia).
  assert (Pwhr : percentage whr) by (eapply Hpct; [|exact Hwhr]; lia).
  pose proof (cache_block_size_bounds (raw_pool_size_bytes r)
                (raw_total_blocks r) ltac:(lia)).
  eexists. split; [exact Hderive|]. unfold sane_stats.
  cbn [cache_usage_pct dirty_ratio_pct hit_ratio_pct read_hit_ratio_pct
       write_hit_ratio_pct total_blocks used_blocks dirty_blocks
       estimated_read_blocks estimated_write_blocks pool_size_bytes
       block_size].
  split; [repeat (apply Forall_cons; [assumption|]); apply Forall_nil|].
  repeat split; lia.
Qed.

(** On a consistent sample the five percentages are finite and lie between
    0 and 100, the two estimates lie between 0 and [used_blocks] and add up
    to it, and the block size is not negative. *)
Theorem derived_metrics_in_range (r : raw_sample) :
  sane_sample r ->
  exists st : stats,
    derive r = Ok st
    /\ Forall (fun v => plain_value v /\ (0 <= value_of v <= 100)%Q)
         [ cache_usage_pct st; dirty_ratio_pct st; hit_ratio_pct st;
           read_hit_ratio_pct st; write_hit_ratio_pct st ]
    /\ 0 <= estimated_read_blocks st <= used_blocks st
    /\ 0 <= estimated_write_blocks st <= used_blocks st
    /\ estimated_read_blocks st + estimated_write_blocks st = used_blocks st
    /\ used_blocks st = raw_used_blocks r
    /\ 0 <= block_size st.
Proof.
  intros Hs. destruct (derive_sane r Hs) as (st & Hd & Hst).
  exists st. split; [exact Hd|].
  destruct Hst as (Hp & _ & _ & _ & E1 & E2 & E3 & _ & B).
  split.
  { eapply Forall_impl; [|exact Hp]. intros v [Pv V1].
    split; [exact Pv|]. split; [apply Pv | exact V1]. }
  repeat split; try lia.
  unfold derive, bind in Hd.
  repeat match type of Hd with
         | match ?c with _ => _ end = _ => destruct c; try discriminate
         end.
  now injection Hd as <-.
Qed.

Lemma derived_metrics_in_range_witness :
  exists st : stats,
    derive {| raw_pool_size_bytes := 4096000; raw_total_blocks := 1000;
              raw_used_blocks := 500; raw_dirty_blocks := 50;
              raw_read_hits := 80; raw_read_misses := 20;
              raw_write_hits := 60; raw_write_misses := 40 |} = Ok st
    /\ Forall (fun v => plain_value v /\ (0 <= value_of v <= 100)%Q)
         [ cache_usage_pct st; dirty_ratio_pct st; hit_ratio_pct st;
           read_hit_ratio_pct st; write_hit_ratio_pct st ]
    /\ 0 <= estimated_read_blocks st <= used_blocks st
    /\ 0 <= estimated_write_blocks st <= used_blocks st
    /\ estimated_read_blocks st + estimated_write_blocks st = used_blocks st
    /\ used_blocks st = 500
    /\ 0 <= block_size st.
Proof.
  apply (derived_metrics_in_range
           {| raw_pool_size_bytes := 4096000; raw_total_blocks := 1000;
              raw_used_blocks := 500; raw_dirty_blocks := 50;
              raw_read_hits := 80; raw_read_misses := 20;
              raw_write_hits := 60; raw_write_misses := 40 |}).
  unfold sane_sample, raw_sample_ok. cbn. lia.
Defined.

(** ** The historical block of the frame *)





(** ** The unit of a size *)

Section Units.

Variable format_1f : float -> str.

Local Open Scope Q_scope.

Lemma pow2_10 : pow2 10 == 1024.
Proof. reflexivity. Qed.

Lemma pow1024 (k : nat) :
  inject_Z (1024 ^ Z.of_nat k) == pow2 (10 * Z.of_nat k).
Proof.
  rewrite pow2_Z by lia. rewrite Z.pow_mul_r by lia. reflexivity.
Qed.

(** A float of 1024 at least is divided by 1024 without rounding. *)
Lemma grid_div_1024 (x : Q) : on_grid x -> 1024 <= x -> on_grid (x / 1024).
Proof.
  intros (M & E & HM & HE & Hx) H.
  exists M, (E - 10)%Z. split; [exact HM|]. split.
  - destruct (Z_lt_le_dec E (-43)) as [C|C]; [|lia]. exfalso.
    assert (B : x <= pow2 53 * pow2 (-44)).
    { rewrite Hx. apply Qle_trans with (inject_Z M * pow2 (-44)).
      - apply Qmult_le_l_weak.
        + change 0 with (inject_Z 0). rewrite <- Zle_Qle. lia.
        + apply pow2_le. lia.
      - apply Qmult_le_compat_r; [|apply Qlt_le_weak, pow2_pos].
        rewrite pow2_Z by lia. rewrite <- Zle_Qle. lia. }
    rewrite <- pow2_add in B. simpl Z.add in B.
    assert (pow2 9 < 1024) by reflexivity. lra.
  - rewrite pow2_sub, Hx, pow2_10. unfold Qdiv. ring.
Qed.

Lemma format_units_stop (unit : str) (rest : list str) (x : Q) :
  x < 1024 ->
  format_units format_1f (unit :: rest) (PFloat (Fin x))
  = Ok (format_1f (Fin x) ++ unit).
Proof.
  intros H. cbn [format_units]. unfold lt, compare.
  rewrite Qlt_alt in H. rewrite H. reflexivity.
Qed.

Lemma format_units_step (unit : str) (rest : list str) (x : Q) :
  on_grid x -> 1024 <= x -> x < pow2 1024 ->
  exists x' : Q,
    x' == x / 1024 /\ on_grid x' /\ x' < pow2 1024
    /\ format_units format_1f (unit :: rest) (PFloat (Fin x))
       = format_units format_1f rest (PFloat (Fin x')).
Proof.
  intros G H B. cbn [format_units]. unfold lt, compare.
  destruct (Qcompare x 1024) eqn:C;
    try (rewrite <- Qlt_alt in C; lra).
  all: pose proof (grid_div_1024 x G H) as G';
    assert (B' : x / 1024 < pow2 1024)
      by (apply Qle_lt_trans with x; [|exact B];
          apply Qle_shift_div_r; [reflexivity | lra]);
    assert (P' : 0 <= x / 1024)
      by (apply Qle_shift_div_l; [reflexivity | lra]);
    destruct (fl_exact (x / 1024) G' B' P') as (v & Hv & Ev);
    exists v; split; [exact Ev|];
    split; [apply (on_grid_comp (x / 1024)); [now symmetry | exact G']|];
    split; [lra|];
    unfold truediv, float_truediv; cbn [as_float bind is_zero fdiv];
    change (Qeq_bool 1024 0) with false; cbv iota; cbn [bind];
    rewrite Hv; reflexivity.
Qed.

(** The unit [format_units] picks for a float, and the number it prints
    before it. *)
Lemma format_units_float (us : list str) :
  forall (k : nat) (x : Q),
    on_grid x -> x < pow2 1024 -> (k <= length us)%nat ->
    (k = 0%nat \/ pow2 (10 * Z.of_nat k) <= x) ->
    (k = length us \/ x < pow2 (10 * (Z.of_nat k + 1))) ->
    exists x' : Q,
      x' == x / pow2 (10 * Z.of_nat k)
      /\ format_units format_1f us (PFloat (Fin x))
         = Ok (format_1f (Fin x') ++ nth k (us ++ [lit "PB"]) []).
Proof.
  induction us as [|unit rest IH]; intros k x G B Hk Hlo Hhi.
  - assert (k = 0%nat) by (simpl in Hk; lia). subst k.
    exists x. split; [|reflexivity].
    change (pow2 (10 * Z.of_nat 0)) with 1. unfold Qdiv.
    change (/ 1) with 1. ring.
  - destruct k as [|k].
    + exists x. split.
      * change (pow2 (10 * Z.of_nat 0)) with 1. unfold Qdiv.
        change (/ 1) with 1. ring.
      * destruct Hhi as [Hhi|Hhi]; [discriminate|].
        apply format_units_stop. exact Hhi.
    + destruct Hlo as [Hlo|Hlo]; [discriminate|].
      assert (H1024 : 1024 <= x).
      { apply Qle_trans with (pow2 (10 * Z.of_nat (S k))); [|exact Hlo].
        rewrite <- pow2_10. apply pow2_le. lia. }
      destruct (format_units_step unit rest x G H1024 B)
        as (x1 & E1 & G1 & B1 & Hstep).
      assert (Esplit : pow2 (10 * Z.of_nat (S k))
                       == 1024 * pow2 (10 * Z.of_nat k)).
      { replace (10 * Z.of_nat (S k))%Z with (10 + 10 * Z.of_nat k)%Z by lia.
        rewrite pow2_add, pow2_10. reflexivity. }
      assert (Esplit' : pow2 (10 * (Z.of_nat (S k) + 1))
                        == 1024 * pow2 (10 * (Z.of_nat k + 1))).
      { replace (10 * (Z.of_nat (S k) + 1))%Z
          with (10 + 10 * (Z.of_nat k + 1))%Z by lia.
        rewrite pow2_add, pow2_10. reflexivity. }
      destruct (IH k x1 G1 B1) as (x' & Ex' & Hx').
      * simpl in Hk. lia.
      * right. rewrite E1. apply Qle_shift_div_l; [reflexivity|].
        rewrite Esplit in Hlo. lra.
      * destruct Hhi as [Hhi|Hhi]; [left; simpl in Hhi; lia|].
        right. rewrite E1. apply Qlt_shift_div_r; [reflexivity|].
        rewrite Esplit' in Hhi. lra.
      * exists x'. split.
        -- rewrite Ex', E1, Esplit. field.
           pose proof (pow2_pos (10 * Z.of_nat k)). lra.
        -- rewrite Hstep, Hx'. reflexivity.
Qed.

(** An int enters the loop as the float it converts to. *)
Lemma format_units_int (us : list str) (b : Z) (y : Q) :
  (0 <= b)%Z -> float_of_int b = Ok (Fin y) ->
  format_units format_1f us (PInt b)
  = format_units format_1f us (PFloat (Fin y)).
Proof.
  intros Hb Hy. destruct us as [|unit rest].
  - cbn [format_units]. unfold fmt_1f. cbn [as_float]. now rewrite Hy.
  - assert (Hfl : fl (inject_Z b) = Fin y).
    { unfold float_of_int in Hy.
      destruct (fl (inject_Z b)); try discriminate. now injection Hy as ->. }
    cbn [format_units]. unfold lt, compare.
    destruct (Z_lt_le_dec b 1024) as [C|C].
    + destruct (float_of_int_exact b ltac:(lia)) as (v & Hv & Ev).
      rewrite Hy in Hv. injection Hv as <-.
      assert (L : inject_Z b < 1024)
        by (change 1024 with (inject_Z 1024); rewrite <- Zlt_Qlt; exact C).
      assert (L' : y < 1024) by lra.
      rewrite Qlt_alt in L, L'. rewrite L, L'.
      unfold fmt_1f. cbn [as_float]. now rewrite Hy.
    + assert (L : 1024 <= inject_Z b)
        by (change 1024 with (inject_Z 1024); rewrite <- Zle_Qle; exact C).
      assert (L' : 1024 <= y).
      { apply (fl_lower (inject_Z b) 1024 y); try assumption; [lra|].
        apply (on_grid_Z 1024). lia. }
      destruct (Qcompare (inject_Z b) 1024) eqn:C1;
        try (rewrite <- Qlt_alt in C1; lra);
        destruct (Qcompare y 1024) eqn:C2;
        try (rewrite <- Qlt_alt in C2; lra);
        unfold truediv; cbn [as_float]; rewrite Hy; reflexivity.
Qed.

End Units.

(** [format_bytes] on a size of [b] bytes prints the float of [b] divided
    [k] times by 1024, followed by the [k]-th unit of B, KB, MB, GB, TB,
    PB, where [k] is the largest index of at most 5 with [1024^k <= b]; the
    divisions are exact, and so is the number printed up to [2^53] bytes.
    [format_size] does the same on the product of its arguments, with 4096
    for a missing block size. *)
Theorem format_bytes_unit (format_1f : float -> str) (b : Z) (k : nat) :
  0 <= b <= 2 ^ 1023 -> (k <= 5)%nat ->
  (k = 0%nat \/ 1024 ^ Z.of_nat k <= b) ->
  (k = 5%nat \/ b < 1024 ^ (Z.of_nat k + 1)) ->
  exists y x : Q,
    float_of_int b = Ok (Fin y)
    /\ (b <= 2 ^ 53 -> (y == inject_Z b)%Q)
    /\ (x == y / inject_Z (1024 ^ Z.of_nat k))%Q
    /\ format_bytes format_1f b
       = Ok (format_1f (Fin x)
             ++ nth k [lit "B"; lit "KB"; lit "MB"; lit "GB"; lit "TB";
                       lit "PB"] [])
    /\ (forall blocks block_size : Z,
          blocks * block_size = b ->
          format_size format_1f blocks (Some block_size)
          = format_bytes format_1f b)
    /\ (forall blocks : Z,
          blocks * 4096 = b ->
          format_size format_1f blocks None = format_bytes format_1f b).
Proof.
  intros Hb Hk Hlo Hhi.
  destruct (float_of_int_bounded b Hb) as (y & Hy & Y0 & Y1).
  assert (Hfl : fl (inject_Z b) = Fin y).
  { unfold float_of_int in Hy.
    destruct (fl (inject_Z b)); try discriminate. now injection Hy as ->. }
  assert (B0 : (0 <= inject_Z b)%Q)
    by (change 0%Q with (inject_Z 0); rewrite <- Zle_Qle; lia).
  destruct (fl_nonneg_finite (inject_Z b) y B0 Hfl) as (_ & G & B).
  assert (Hexact : b <= 2 ^ 53 -> (y == inject_Z b)%Q).
  { intros C. destruct (float_of_int_exact b ltac:(lia)) as (v & Hv & Ev).
    rewrite Hy in Hv. now injection Hv as <-. }
  destruct (format_units_float format_1f units k y G B)
    as (x & Ex & Hx).
  - exact Hk.
  - destruct Hlo as [Hlo|Hlo]; [now left | right].
    rewrite <- pow1024.
    apply (fl_lower (inject_Z b) _ y); try assumption.
    + apply Qlt_le_trans with (inject_Z (1024 ^ Z.of_nat k)).
      * change 0%Q with (inject_Z 0). rewrite <- Zlt_Qlt.
        apply Z.pow_pos_nonneg; lia.
      * rewrite <- Zle_Qle. exact Hlo.
    + rewrite <- Zle_Qle. exact Hlo.
    + apply (on_grid_comp (pow2 (10 * Z.of_nat k)));
        [symmetry; apply pow1024 | apply on_grid_pow2; lia].
  - destruct (Nat.eq_dec k 5) as [E5|N5]; [now left | right].
    destruct Hhi as [Hhi|Hhi]; [contradiction|].
    assert (Hle : 1024 ^ (Z.of_nat k + 1) <= 1024 ^ 5)
      by (apply Z.pow_le_mono_r; lia).
    change (1024 ^ 5) with (2 ^ 50) in Hle.
    assert (H53 : 2 ^ 50 <= 2 ^ 53) by (apply Z.pow_le_mono_r; lia).
    rewrite (Hexact ltac:(lia)).
    replace (Z.of_nat k + 1) with (Z.of_nat (S k)) by lia.
    rewrite <- pow1024, <- Zlt_Qlt.
    replace (Z.of_nat (S k)) with (Z.of_nat k + 1) by lia. exact Hhi.
  - exists y, x. split; [exact Hy|]. split; [exact Hexact|].
    split; [rewrite Ex, pow1024; reflexivity|].
    split.
    + unfold format_bytes. rewrite (format_units_int format_1f _ b y);
        [exact Hx | lia | exact Hy].
    + split.
      * intros blocks block_size <-. reflexivity.
      * intros blocks <-. reflexivity.
Qed.

Lemma format_bytes_unit_witness :
  exists y x : Q,
    float_of_int 1536 = Ok (Fin y)
    /\ (1536 <= 2 ^ 53 -> (y == inject_Z 1536)%Q)
    /\ (x == y / inject_Z (1024 ^ Z.of_nat 1))%Q
    /\ format_bytes (fun _ => lit "1.5") 1536
       = Ok (lit "1.5"
             ++ nth 1 [lit "B"; lit "KB"; lit "MB"; lit "GB"; lit "TB";
                       lit "PB"] [])
    /\ (forall blocks block_size : Z,
          blocks * block_size = 1536 ->
          format_size (fun _ => lit "1.5") blocks (Some block_size)
          = format_bytes (fun _ => lit "1.5") 1536)
    /\ (forall blocks : Z,
          blocks * 4096 = 1536 ->
          format_size (fun _ => lit "1.5") blocks None
          = format_bytes (fun _ => lit "1.5") 1536).
Proof.
  apply (format_bytes_unit (fun _ => lit "1.5") 1536 1).
  - split; [lia|]. apply Z.leb_le. vm_compute. reflexivity.
  - lia.
  - right. cbn. lia.
  - right. cbn. lia.
Defined.

(** ** Renderers that take their width from the terminal *)

(** The layout on a terminal that reports its size. *)
Lemma get_dynamic_widths_ok (t : terminal) (self : monitor) (w h : Z) :
  get_terminal_size t = Ok (w, h) ->
  get_dynamic_widths t self
  = Ok ({| bar_width := Z.max 20 (w - 32); graph_width := Z.max 30 (w - 12);
           widths_terminal_width := w |},
        set_terminal_size self w h).
Proof.
  intros Ht. unfold get_dynamic_widths, update_terminal_size.
  rewrite Ht. cbn. do 3 f_equal; lia.
Qed.

Lemma default_width_ok (t : terminal) (key : widths -> Z) (self : monitor)
  (w h : Z) :
  get_terminal_size t = Ok (w, h) ->
  default_width t None key self
  = Ok (key {| bar_width := Z.max 20 (w - 32);
               graph_width := Z.max 30 (w - 12);
               widths_terminal_width := w |},
        set_terminal_size self w h).
Proof.
  intros Ht. unfold default_width.
  now rewrite (get_dynamic_widths_ok t self w h Ht).
Qed.

(** A renderer called without a width is the renderer called with the width
    of the layout, on the monitor that caches the size of the terminal. *)
Lemma create_bar_graph_default (t : terminal) (value max_value : num)
  (color_key : string) (self : monitor) (w h : Z) :
  get_terminal_size t = Ok (w, h) ->
  create_bar_graph t value max_value None color_key self
  = create_bar_graph t value max_value (Some (Z.max 20 (w - 32))) color_key
      (set_terminal_size self w h).
Proof.
  intros Ht. unfold create_bar_graph.
  rewrite (default_width_ok t bar_width self w h Ht). reflexivity.
Qed.

Lemma create_dual_cache_bar_default (t : terminal)
  (read_blocks write_blocks total_blocks : Z) (self : monitor) (w h : Z) :
  get_terminal_size t = Ok (w, h) ->
  create_dual_cache_bar t read_blocks write_blocks total_blocks None self
  = create_dual_cache_bar t read_blocks write_blocks total_blocks
      (Some (Z.max 20 (w - 32))) (set_terminal_size self w h).
Proof.
  intros Ht. unfold create_dual_cache_bar.
  rewrite (default_width_ok t bar_width self w h Ht). reflexivity.
Qed.

Lemma create_line_graph_default (t : terminal) (data : list num)
  (height : Z) (self : monitor) (w h : Z) :
  get_terminal_size t = Ok (w, h) ->
  create_line_graph t data None height self
  = create_line_graph t data (Some (Z.max 30 (w - 12))) height
      (set_terminal_size self w h).
Proof.
  intros Ht. unfold create_line_graph.
  rewrite (default_width_ok t graph_width self w h Ht). reflexivity.
Qed.

(** The bar of a part of its whole, at a given width. *)
Lemma bar_of_ratio (t : terminal) (value max_value : num) (width : Z)
  (color_key : string) (self : monitor) :
  finite_num value -> finite_num max_value ->
  (0 <= value_of value)%Q -> (value_of value <= value_of max_value)%Q ->
  (0 < value_of max_value)%Q ->
  0 <= width <= 2 ^ 53 ->
  exists filled : Z,
    0 <= filled <= width
    /\ create_bar_graph t value max_value (Some width) color_key self
       = Ok (color color_key
             ++ (repeat FULL_BLOCK (Z.to_nat filled)
                 ++ repeat LIGHT_SHADE (Z.to_nat (width - filled)))
             ++ color "reset", self).
Proof.
  intros Fv Fm V0 Vm M0 Hw.
  destruct (ratio_unit value max_value Fv Fm V0 Vm M0) as (w & Hq & W0 & W1).
  destruct (cells_of_ratio w width W0 W1 Hw) as (filled & H1 & _ & B).
  exists filled. split; [exact B|].
  unfold create_bar_graph. cbn [default_width bind fst snd].
  rewrite (eq_zero_false max_value Fm M0), Hq. cbn [bind].
  rewrite H1. cbn [bind]. now rewrite !str_repeat_single.
Qed.

Lemma visible_bar (color_key : string) (filled width : Z) :
  0 <= filled <= width ->
  visible_length
    (color color_key
     ++ (repeat FULL_BLOCK (Z.to_nat filled)
         ++ repeat LIGHT_SHADE (Z.to_nat (width - filled)))
     ++ color "reset") = width.
Proof.
  intros B. unfold visible_length.
  rewrite visible_color, <- app_assoc, !visible_repeat by discriminate.
  rewrite <- (app_nil_r (color "reset")), visible_color.
  unfold visible. simpl strip_escapes.
  rewrite app_nil_r, length_app, !repeat_length. lia.
Qed.

(** The two portions of the dual bar, at a given width. *)
Lemma dual_bar_of_blocks (t : terminal)
  (read_blocks write_blocks total_blocks width : Z) (self : monitor) :
  0 <= read_blocks <= total_blocks -> 0 <= write_blocks <= total_blocks ->
  0 <= width <= 2 ^ 53 ->
  exists bar : str,
    create_dual_cache_bar t read_blocks write_blocks total_blocks
      (Some width) self = Ok (bar, self)
    /\ visible_length bar = width.
Proof.
  intros Hr Hw Hwidth.
  unfold create_dual_cache_bar. cbn [default_width bind fst snd].
  destruct (Z.eqb_spec total_blocks 0) as [E|N].
  { eexists. split; [reflexivity|]. unfold visible_length.
    rewrite str_repeat_single, visible_repeat_only by discriminate.
    rewrite repeat_length. lia. }
  destruct (cells_of_blocks read_blocks total_blocks width Hr ltac:(lia) Hwidth)
    as (r0 & Hr1 & _ & Br).
  destruct (cells_of_blocks write_blocks total_blocks width Hw ltac:(lia)
              Hwidth) as (w0 & Hw1 & _ & Bw).
  rewrite Hr1. cbn [bind]. rewrite Hw1. cbn [bind].
  set (portions :=
         if width <? r0 + w0 then
           if w0 <=? r0 then (width - w0, w0) else (r0, width - r0)
         else (r0, w0)).
  assert (B : 0 <= fst portions /\ 0 <= snd portions
              /\ fst portions + snd portions <= width).
  { unfold portions.
    destruct (Z.ltb_spec width (r0 + w0)), (Z.leb_spec w0 r0); cbn; lia. }
  destruct B as (B1 & B2 & B3).
  eexists. split; [reflexivity|].
  rewrite !str_repeat_single, <- !app_assoc. unfold visible_length.
  rewrite visible_color, visible_repeat by discriminate.
  rewrite visible_color, visible_color, visible_repeat by discriminate.
  rewrite visible_color, visible_repeat_only by discriminate.
  rewrite !length_app, !repeat_length. lia.
Qed.

Lemma chart_of_rows_width (width height : Z) (rows : list Z) :
  Forall (fun line : str => Z.of_nat (length line) = Z.max 0 width)
         (chart_of_rows width height rows).
Proof.
  unfold chart_of_rows. apply Forall_forall. intros line Hin.
  apply in_map_iff in Hin as (y & <- & _).
  rewrite length_map, length_seq. lia.
Qed.

(** Called without a width on a terminal of [w] columns, the two bars are
    [max(20, w - 32)] cells wide and the rows of a chart of two points at
    least [max(30, w - 12)] columns, whatever size the monitor had cached:
    each call reads the size of the terminal again and caches it. *)
Theorem renderers_follow_terminal (t : terminal) (self : monitor) (w h : Z)
  (pct : num) (color_key : string) (read_blocks write_blocks total_blocks : Z)
  (data : list num) (height : Z) :
  get_terminal_size t = Ok (w, h) -> w <= 2 ^ 53 ->
  plain_value pct -> (value_of pct <= 100)%Q ->
  0 <= read_blocks <= total_blocks -> 0 <= write_blocks <= total_blocks ->
  Forall plain_value data -> (2 <= length data)%nat ->
  0 < height <= 2 ^ 53 + 1 ->
  let self' := set_terminal_size self w h in
  exists (bar dual : str) (lines : list str),
    create_bar_graph t pct (PInt 100) None color_key self = Ok (bar, self')
    /\ visible_length bar = Z.max 20 (w - 32)
    /\ create_dual_cache_bar t read_blocks write_blocks total_blocks None self
       = Ok (dual, self')
    /\ visible_length dual = Z.max 20 (w - 32)
    /\ create_line_graph t data None height self = Ok (lines, self')
    /\ length lines = Z.to_nat height
    /\ Forall (fun line : str => Z.of_nat (length line) = Z.max 30 (w - 12))
              lines.
Proof.
  intros Ht Hw (Fp & P0 & _) P100 Hr Hwb Hdata Hlen Hh self'.
  assert (Hpow : 2 ^ 53 <= 2 ^ 1023) by (apply Z.pow_le_mono_r; lia).
  assert (Hbw : 0 <= Z.max 20 (w - 32) <= 2 ^ 53) by lia.
  destruct (bar_of_ratio t pct (PInt 100) (Z.max 20 (w - 32)) color_key self')
    as (filled & Bf & Hbar); try assumption.
  { cbn [finite_num]. lia. }
  { reflexivity. }
  destruct (dual_bar_of_blocks t read_blocks write_blocks total_blocks
              (Z.max 20 (w - 32)) self' Hr Hwb Hbw) as (dual & Hdual & Vdual).
  destruct (line_chart_total t data (Z.max 30 (w - 12)) height self' Hdata Hh)
    as (lines & Hlines & Llines & Hrows).
  destruct (Hrows Hlen) as (rows & -> & _ & _).
  eexists _, dual, _.
  split; [rewrite (create_bar_graph_default _ _ _ _ _ w h Ht); exact Hbar|].
  split; [apply visible_bar; exact Bf|].
  split; [rewrite (create_dual_cache_bar_default _ _ _ _ _ w h Ht);
          exact Hdual|].
  split; [exact Vdual|].
  split; [rewrite (create_line_graph_default _ _ _ _ w h Ht); exact Hlines|].
  split; [exact Llines|].
  eapply Forall_impl; [|apply chart_of_rows_width].
  intros line E. cbv beta in E. lia.
Qed.

Lemma renderers_follow_terminal_witness :
  exists (bar dual : str) (lines : list str),
    create_bar_graph terminal_80x24 (PInt 50) (PInt 100) None "blue"
      (fresh_monitor 60)
    = Ok (bar, set_terminal_size (fresh_monitor 60) 80 24)
    /\ visible_length bar = Z.max 20 (80 - 32)
    /\ create_dual_cache_bar terminal_80x24 3 5 10 None (fresh_monitor 60)
       = Ok (dual, set_terminal_size (fresh_monitor 60) 80 24)
    /\ visible_length dual = Z.max 20 (80 - 32)
    /\ create_line_graph terminal_80x24 series_10_20 None 8 (fresh_monitor 60)
       = Ok (lines, set_terminal_size (fresh_monitor 60) 80 24)
    /\ length lines = Z.to_nat 8
    /\ Forall (fun line : str => Z.of_nat (length line) = Z.max 30 (80 - 12))
              lines.
Proof.
  apply (renderers_follow_terminal terminal_80x24 (fresh_monitor 60) 80 24
           (PInt 50) "blue" 3 5 10 series_10_20 8).
  - reflexivity.
  - apply Z.leb_le. vm_compute. reflexivity.
  - split; [|split].
    + cbn. split; [lia|]. apply Z.leb_le. vm_compute. reflexivity.
    + cbn. discriminate.
    + apply Z.leb_le. vm_compute. reflexivity.
  - cbn. discriminate.
  - lia.
  - lia.
  - unfold series_10_20.
    repeat constructor; cbn; try discriminate;
      try (apply Z.leb_le; vm_compute; reflexivity); lia.
  - cbn. lia.
  - split; [lia|]. apply Z.leb_le. vm_compute. reflexivity.
Defined.

(** ** A healthy run never crashes *)





Section Healthy.

Variable format_1f : float -> str.





Variables (t : terminal) (w h : Z).
Hypothesis Ht : get_terminal_size t = Ok (w, h).
Hypothesis Hw : w <= 2 ^ 53.





End Healthy.


Section HealthyLoop.

Variable format_1f : float -> str.
Variable refresh_interval : Z.
Hypothesis Hinterval : 0 <= refresh_interval.



End HealthyLoop.



(** ** The selection menu *)

Lemma str_eqb_eq (a b : str) : str_eqb a b = true <-> a = b.
Proof.
  revert b. induction a as [|x a IH]; intros [|y b]; simpl;
    try (split; [discriminate | discriminate]); try tauto.
  rewrite andb_true_iff, N.eqb_eq, IH. split.
  - now intros [-> ->].
  - intros H. now injection H.
Qed.

Lemma str_eqb_neq (a b : str) : a <> b -> str_eqb a b = false.
Proof.
  intros H. destruct (str_eqb a b) eqn:E; [|reflexivity].
  apply str_eqb_eq in E. contradiction.
Qed.

Lemma subscript_in_range {A : Type} (xs : list A) (i : Z) :
  0 <= i < Z.of_nat (length xs) ->
  exists a : A, subscript xs i = Ok a /\ nth_error xs (Z.to_nat i) = Some a.
Proof.
  intros H. unfold subscript.
  destruct (Z.ltb_spec i 0) as [C|_]; [lia|].
  destruct (Z.ltb_spec i 0) as [C|_]; [lia|].
  destruct (Z.leb_spec (Z.of_nat (length xs)) i) as [C|_]; [lia|].
  cbn [orb].
  destruct (nth_error xs (Z.to_nat i)) as [a|] eqn:E.
  - exists a. split; reflexivity.
  - apply nth_error_None in E. lia.
Qed.

Section Menu.

Variable cache_volumes : list (str * str).

Local Abbreviation n := (Z.of_nat (length cache_volumes)).

(** What a key does to the menu that highlights the entry [selected]. *)
Lemma menu_down (rest : list keypress) (selected : Z) :
  0 <= selected < n ->
  snd (menu_loop cache_volumes (Key KEY_DOWN :: rest) selected)
  = snd (menu_loop cache_volumes rest ((selected + 1) mod n)).
Proof.
  intros H. destruct (subscript_in_range cache_volumes selected H) as (v & Hv & _).
  cbn [menu_loop]. rewrite Hv.
  change (str_eqb KEY_DOWN KEY_UP) with false.
  change (str_eqb KEY_DOWN KEY_DOWN) with true. cbv iota.
  unfold py_mod. fold n.
  destruct (Z.eqb_spec n 0) as [E|_]; [lia|]. reflexivity.
Qed.

Lemma menu_up (rest : list keypress) (selected : Z) :
  0 <= selected < n ->
  snd (menu_loop cache_volumes (Key KEY_UP :: rest) selected)
  = snd (menu_loop cache_volumes rest ((selected - 1) mod n)).
Proof.
  intros H. destruct (subscript_in_range cache_volumes selected H) as (v & Hv & _).
  cbn [menu_loop]. rewrite Hv.
  change (str_eqb KEY_UP KEY_UP) with true. cbv iota.
  unfold py_mod. fold n.
  destruct (Z.eqb_spec n 0) as [E|_]; [lia|]. reflexivity.
Qed.

Lemma menu_enter (rest : list keypress) (selected : Z) (key : str) :
  key = [13%N] \/ key = [10%N] ->
  0 <= selected < n ->
  exists vg lv : str,
    nth_error cache_volumes (Z.to_nat selected) = Some (vg, lv)
    /\ snd (menu_loop cache_volumes (Key key :: rest) selected)
       = Returned (Some vg) (Some lv).
Proof.
  intros Hk H.
  destruct (subscript_in_range cache_volumes selected H) as ([vg lv] & Hv & Hn).
  exists vg, lv. split; [exact Hn|].
  cbn [menu_loop]. rewrite Hv.
  destruct Hk as [-> | ->]; reflexivity.
Qed.

Lemma menu_other (rest : list keypress) (selected : Z) (key : str) :
  key <> KEY_UP -> key <> KEY_DOWN -> key <> [13%N] -> key <> [10%N] ->
  key <> [3%N] ->
  0 <= selected < n ->
  snd (menu_loop cache_volumes (Key key :: rest) selected)
  = snd (menu_loop cache_volumes rest selected).
Proof.
  intros H1 H2 H3 H4 H5 H.
  destruct (subscript_in_range cache_volumes selected H) as (v & Hv & _).
  cbn [menu_loop]. rewrite Hv.
  rewrite (str_eqb_neq _ _ H1), (str_eqb_neq _ _ H2), (str_eqb_neq _ _ H3),
    (str_eqb_neq _ _ H4), (str_eqb_neq _ _ H5).
  reflexivity.
Qed.

Lemma menu_downs (k : nat) (rest : list keypress) :
  forall selected : Z,
    0 <= selected < n ->
    snd (menu_loop cache_volumes (repeat (Key KEY_DOWN) k ++ rest) selected)
    = snd (menu_loop cache_volumes rest ((selected + Z.of_nat k) mod n)).
Proof.
  induction k as [|k IH]; intros selected H.
  - cbn [repeat app]. rewrite Z.add_0_r, Z.mod_small by exact H. reflexivity.
  - cbn [repeat app]. rewrite menu_down by exact H.
    rewrite IH by (apply Z.mod_pos_bound; lia).
    rewrite Zplus_mod_idemp_l.
    replace (selected + 1 + Z.of_nat k) with (selected + Z.of_nat (S k)) by lia.
    reflexivity.
Qed.

Lemma menu_ups (k : nat) (rest : list keypress) :
  forall selected : Z,
    0 <= selected < n ->
    snd (menu_loop cache_volumes (repeat (Key KEY_UP) k ++ rest) selected)
    = snd (menu_loop cache_volumes rest ((selected - Z.of_nat k) mod n)).
Proof.
  induction k as [|k IH]; intros selected H.
  - cbn [repeat app]. rewrite Z.sub_0_r, Z.mod_small by exact H. reflexivity.
  - cbn [repeat app]. rewrite menu_up by exact H.
    rewrite IH by (apply Z.mod_pos_bound; lia).
    rewrite Zminus_mod_idemp_l.
    replace (selected - 1 - Z.of_nat k) with (selected - Z.of_nat (S k)) by lia.
    reflexivity.
Qed.

(** Where the menu can stand after any keys. *)
Lemma menu_loop_safe (keys : list keypress) :
  forall selected : Z,
    0 <= selected < n ->
    match snd (menu_loop cache_volumes keys selected) with
    | Selecting i => 0 <= i < n
    | Returned (Some vg) (Some lv) => In (vg, lv) cache_volumes
    | Returned _ _ => False
    | MenuExited code => code = 0
    | MenuCrashed _ => False
    end.
Proof.
  induction keys as [|k keys IH]; intros selected H;
    destruct (subscript_in_range cache_volumes selected H) as ([vg lv] & Hv & Hn).
  - cbn [menu_loop]. rewrite Hv. exact H.
  - destruct k as [key|]; [|cbn [menu_loop]; rewrite Hv; reflexivity].
    assert (Hn0 : n <> 0) by lia.
    cbn [menu_loop]. rewrite Hv. unfold py_mod. fold n.
    destruct (Z.eqb_spec n 0) as [E|_]; [contradiction|].
    destruct (str_eqb key KEY_UP);
      [apply IH; apply Z.mod_pos_bound; lia|].
    destruct (str_eqb key KEY_DOWN);
      [apply IH; apply Z.mod_pos_bound; lia|].
    destruct (str_eqb key [13%N] || str_eqb key [10%N]);
      [cbn [snd]; eapply nth_error_In; exact Hn|].
    destruct (str_eqb key [3%N]); [reflexivity|].
    apply IH. exact H.
Qed.

End Menu.

(** The keys read from the input are those of the successive calls of
    [get_key]. *)
Lemma keys_of_get_key (pending : list input) :
  match get_key pending with
  | None => keys_of pending = []
  | Some (Interrupt, _) => keys_of pending = [Interrupt]
  | Some (Key key, rest) => keys_of pending = Key key :: keys_of rest
  end.
Proof.
  destruct pending as [|[ch|] rest]; try reflexivity.
  cbn [get_key keys_of].
  destruct (ch =? ESC)%N; [|reflexivity].
  destruct rest as [|[a|] [|[b|] rest]]; reflexivity.
Qed.


(** The arrows move the highlight by one entry modulo the length of the
    list: Down then Up, and Up then Down, come back to the same entry, and
    so do as many Downs, or Ups, as the list has entries. *)
Theorem menu_navigation_wraps (cache_volumes : list (str * str))
  (rest : list keypress) (selected : Z) :
  0 <= selected < Z.of_nat (length cache_volumes) ->
  snd (menu_loop cache_volumes (Key KEY_DOWN :: Key KEY_UP :: rest) selected)
  = snd (menu_loop cache_volumes rest selected)
  /\ snd (menu_loop cache_volumes (Key KEY_UP :: Key KEY_DOWN :: rest) selected)
     = snd (menu_loop cache_volumes rest selected)
  /\ snd (menu_loop cache_volumes
            (repeat (Key KEY_DOWN) (length cache_volumes) ++ rest) selected)
     = snd (menu_loop cache_volumes rest selected)
  /\ snd (menu_loop cache_volumes
            (repeat (Key KEY_UP) (length cache_volumes) ++ rest) selected)
     = snd (menu_loop cache_volumes rest selected).
Proof.
  intros H. set (n := Z.of_nat (length cache_volumes)) in *.
  assert (Hn : 0 < n) by lia.
  split; [|split; [|split]].
  - rewrite menu_down by exact H.
    rewrite menu_up by (apply Z.mod_pos_bound; exact Hn). fold n.
    rewrite Zminus_mod_idemp_l.
    replace (selected + 1 - 1) with selected by lia.
    now rewrite Z.mod_small by exact H.
  - rewrite menu_up by exact H.
    rewrite menu_down by (apply Z.mod_pos_bound; exact Hn). fold n.
    rewrite Zplus_mod_idemp_l.
    replace (selected - 1 + 1) with selected by lia.
    now rewrite Z.mod_small by exact H.
  - rewrite menu_downs by exact H. fold n.
    rewrite <- (Z.mul_1_l n) at 1. rewrite Z.mod_add by lia.
    now rewrite Z.mod_small by exact H.
  - rewrite menu_ups by exact H. fold n.
    replace (selected - n) with (selected + (-1) * n) by lia.
    rewrite Z.mod_add by lia.
    now rewrite Z.mod_small by exact H.
Qed.

Lemma menu_navigation_wraps_witness :
  snd (menu_loop [(lit "vg0", lit "a"); (lit "vg0", lit "b")]
         (Key KEY_DOWN :: Key KEY_UP :: []) 1)
  = snd (menu_loop [(lit "vg0", lit "a"); (lit "vg0", lit "b")] [] 1).
Proof.
  apply (proj1 (menu_navigation_wraps
                  [(lit "vg0", lit "a"); (lit "vg0", lit "b")] [] 1
                  ltac:(simpl; lia))).
Defined.

(** From the first display, [k] Downs followed by Enter select the entry
    of index [k mod n] of a list of [n] entries, and [k] Ups followed by
    Enter the entry of index [(-k) mod n]; a line feed does as a carriage
    return, and the keys that follow are not read. *)
Theorem menu_enter_selects (cache_volumes : list (str * str)) (k : nat)
  (enter : str) (rest : list keypress) :
  cache_volumes <> [] -> enter = [13%N] \/ enter = [10%N] ->
  let n := Z.of_nat (length cache_volumes) in
  (exists vg lv : str,
      nth_error cache_volumes (Z.to_nat (Z.of_nat k mod n)) = Some (vg, lv)
      /\ snd (interactive_volume_selection cache_volumes
                (repeat (Key KEY_DOWN) k ++ Key enter :: rest))
         = Returned (Some vg) (Some lv))
  /\ (exists vg lv : str,
         nth_error cache_volumes (Z.to_nat ((- Z.of_nat k) mod n))
         = Some (vg, lv)
         /\ snd (interactive_volume_selection cache_volumes
                   (repeat (Key KEY_UP) k ++ Key enter :: rest))
            = Returned (Some vg) (Some lv)).
Proof.
  intros Hne He n.
  assert (Hn : 0 < n) by (destruct cache_volumes; [contradiction | cbn; lia]).
  assert (E : forall keys,
             snd (interactive_volume_selection cache_volumes keys)
             = snd (menu_loop cache_volumes keys 0)).
  { intros keys. destruct cache_volumes; [contradiction | reflexivity]. }
  split.
  - destruct (menu_enter cache_volumes rest (Z.of_nat k mod n) enter He)
      as (vg & lv & Hnth & Hsel); [apply Z.mod_pos_bound; exact Hn|].
    exists vg, lv. split; [exact Hnth|].
    rewrite E, menu_downs by (fold n; lia). exact Hsel.
  - destruct (menu_enter cache_volumes rest ((- Z.of_nat k) mod n) enter He)
      as (vg & lv & Hnth & Hsel); [apply Z.mod_pos_bound; exact Hn|].
    exists vg, lv. split; [exact Hnth|].
    rewrite E, menu_ups by (fold n; lia). exact Hsel.
Qed.

Lemma menu_enter_selects_witness :
  exists vg lv : str,
    nth_error [(lit "vg0", lit "a"); (lit "vg0", lit "b")]
      (Z.to_nat (Z.of_nat 3 mod 2)) = Some (vg, lv)
    /\ snd (interactive_volume_selection
              [(lit "vg0", lit "a"); (lit "vg0", lit "b")]
              (repeat (Key KEY_DOWN) 3 ++ Key [13%N] :: []))
       = Returned (Some vg) (Some lv).
Proof.
  apply (proj1 (menu_enter_selects
                  [(lit "vg0", lit "a"); (lit "vg0", lit "b")] 3 [13%N] []
                  ltac:(discriminate) ltac:(left; reflexivity))).
Defined.

(** After an ESC, [get_key] takes the next two characters into the same
    key: unless the three form an arrow, they are ignored together, so that
    an Enter or a Ctrl+C typed right after a lone ESC does not select and
    does not cancel. *)
Theorem escape_swallows_two (cache_volumes : list (str * str))
  (a b : N) (pending : list input) (selected : Z) :
  0 <= selected < Z.of_nat (length cache_volumes) ->
  [a; b] <> lit "[A" -> [a; b] <> lit "[B" ->
  get_key (Typed ESC :: Typed a :: Typed b :: pending)
  = Some (Key [ESC; a; b], pending)
  /\ snd (menu_loop cache_volumes
            (keys_of (Typed ESC :: Typed a :: Typed b :: pending)) selected)
     = snd (menu_loop cache_volumes (keys_of pending) selected).
Proof.
  intros H Hup Hdown. split; [reflexivity|].
  change (keys_of (Typed ESC :: Typed a :: Typed b :: pending))
    with (Key [ESC; a; b] :: keys_of pending).
  apply menu_other; try exact H; try discriminate.
  - intros E. apply Hup. unfold KEY_UP in E. now injection E as -> ->.
  - intros E. apply Hdown. unfold KEY_DOWN in E. now injection E as -> ->.
Qed.

Lemma escape_swallows_two_witness :
  get_key (Typed ESC :: Typed 13%N :: Typed 3%N :: [])
  = Some (Key [ESC; 13%N; 3%N], [])
  /\ snd (menu_loop [(lit "vg0", lit "a"); (lit "vg0", lit "b")]
            (keys_of (Typed ESC :: Typed 13%N :: Typed 3%N :: [])) 1)
     = snd (menu_loop [(lit "vg0", lit "a"); (lit "vg0", lit "b")]
              (keys_of []) 1).
Proof.
  apply (escape_swallows_two [(lit "vg0", lit "a"); (lit "vg0", lit "b")]
           13%N 3%N [] 1).
  - simpl. lia.
  - discriminate.
  - discriminate.
Defined.

(** ** The detection of the cache volumes *)

Lemma lstrip_spaces (ws s : str) :
  Forall (fun ch => isspace ch = true) ws -> lstrip (ws ++ s) = lstrip s.
Proof.
  induction 1 as [|ch ws Hch _ IH]; [reflexivity|].
  cbn [app lstrip]. now rewrite Hch.
Qed.

Lemma lstrip_id (s : str) : starts_clean s -> lstrip s = s.
Proof. destruct s as [|ch s]; [reflexivity|]. cbn. now intros ->. Qed.

Lemma lstrip_starts (s : str) : starts_clean (lstrip s).
Proof.
  induction s as [|ch s IH]; [exact I|]. cbn [lstrip].
  destruct (isspace ch) eqn:E; [exact IH | exact E].
Qed.

Lemma rstrip_id (s : str) : ends_clean s -> rstrip s = s.
Proof.
  intros H. unfold rstrip. rewrite lstrip_id by exact H. apply rev_involutive.
Qed.

Lemma rstrip_ends (s : str) : ends_clean (rstrip s).
Proof.
  unfold ends_clean, rstrip. rewrite rev_involutive. apply lstrip_starts.
Qed.

Lemma rstrip_spaces (s ws : str) :
  Forall (fun ch => isspace ch = true) ws -> rstrip (s ++ ws) = rstrip s.
Proof.
  intros H. unfold rstrip. rewrite rev_app_distr, lstrip_spaces; [reflexivity|].
  now apply Forall_rev.
Qed.

Lemma lstrip_keeps_last (xs : str) (ch : N) :
  isspace ch = false -> exists u : str, lstrip (xs ++ [ch]) = u ++ [ch].
Proof.
  intros H. induction xs as [|x xs IH].
  - exists []. cbn. now rewrite H.
  - cbn [app lstrip]. destruct (isspace x); [exact IH|].
    exists (x :: xs). reflexivity.
Qed.

Lemma rstrip_starts (s : str) : starts_clean s -> starts_clean (rstrip s).
Proof.
  destruct s as [|ch s]; [intros _; exact I|]. cbn [starts_clean]. intros H.
  unfold rstrip. cbn [rev].
  destruct (lstrip_keeps_last (rev s) ch H) as (u & ->).
  rewrite rev_app_distr. exact H.
Qed.

Lemma strip_clean (s : str) : starts_clean (strip s) /\ ends_clean (strip s).
Proof.
  unfold strip. split; [apply rstrip_starts, lstrip_starts | apply rstrip_ends].
Qed.

Lemma strip_id (s : str) : starts_clean s -> ends_clean s -> strip s = s.
Proof.
  intros H1 H2. unfold strip. rewrite lstrip_id by exact H1.
  now apply rstrip_id.
Qed.

Lemma strip_strip (s : str) : strip (strip s) = strip s.
Proof. destruct (strip_clean s). now apply strip_id. Qed.

Lemma strip_fixed (s : str) : strip s = s -> starts_clean s /\ ends_clean s.
Proof. intros <-. apply strip_clean. Qed.

Lemma In_lstrip (ch : N) (s : str) : In ch (lstrip s) -> In ch s.
Proof.
  induction s as [|x s IH]; [exact (fun H => H)|]. cbn [lstrip].
  destruct (isspace x); [intros H; right; now apply IH | exact (fun H => H)].
Qed.

Lemma In_strip (ch : N) (s : str) : In ch (strip s) -> In ch s.
Proof.
  unfold strip, rstrip. intros H. apply In_lstrip.
  apply in_rev in H. apply In_lstrip in H. now apply in_rev.
Qed.

Lemma starts_clean_app (a b : str) :
  a <> [] -> starts_clean a -> starts_clean (a ++ b).
Proof. destruct a; [contradiction | exact (fun _ H => H)]. Qed.

Lemma ends_clean_app (a b : str) :
  b <> [] -> ends_clean b -> ends_clean (a ++ b).
Proof.
  unfold ends_clean. intros Hb H. rewrite rev_app_distr.
  apply starts_clean_app; [|exact H].
  intros E. apply Hb. now rewrite <- (rev_involutive b), E.
Qed.

(** *** Splitting *)

Lemma split_cons (sep : N) (s : str) :
  exists part parts, split sep s = part :: parts.
Proof.
  induction s as [|ch s (part & parts & IH)]; [now exists [], []|].
  cbn [split]. destruct (ch =? sep)%N; [now exists [], (split sep s)|].
  rewrite IH. now exists (ch :: part), parts.
Qed.

Lemma split_plain (sep : N) (a : str) : ~ In sep a -> split sep a = [a].
Proof.
  induction a as [|ch a IH]; [reflexivity|]. intros H. cbn [split].
  destruct (N.eqb_spec ch sep) as [E|_]; [exfalso; apply H; now left|].
  rewrite IH; [reflexivity|]. intros Hin. apply H. now right.
Qed.

Lemma split_app (sep : N) (a b : str) :
  ~ In sep a -> split sep (a ++ sep :: b) = a :: split sep b.
Proof.
  induction a as [|ch a IH]; intros H.
  - cbn [app split]. now rewrite N.eqb_refl.
  - cbn [app split].
    destruct (N.eqb_spec ch sep) as [E|_]; [exfalso; apply H; now left|].
    rewrite IH; [reflexivity|]. intros Hin. apply H. now right.
Qed.

Lemma In_split (sep ch : N) (s part : str) :
  In part (split sep s) -> In ch part -> In ch s /\ ch <> sep.
Proof.
  revert part. induction s as [|x s IH]; intros part Hp Hc.
  - cbn in Hp. destruct Hp as [<-|[]]. destruct Hc.
  - cbn [split] in Hp. destruct (N.eqb_spec x sep) as [E|N].
    + destruct Hp as [<-|Hp]; [destruct Hc|].
      destruct (IH part Hp Hc) as [H1 H2]. split; [now right | exact H2].
    + destruct (split_cons sep s) as (p0 & ps & Es). rewrite Es in Hp, IH.
      destruct Hp as [<-|Hp].
      * destruct Hc as [<-|Hc]; [split; [now left | exact N]|].
        destruct (IH p0 (or_introl eq_refl) Hc) as [H1 H2].
        split; [now right | exact H2].
      * destruct (IH part (or_intror Hp) Hc) as [H1 H2].
        split; [now right | exact H2].
Qed.

(** *** The scan *)

Lemma scan_volumes_clean (lines : list str) :
  Forall (fun line => ~ In LINE_FEED line) lines ->
  forall cache_volumes : list (str * str),
    Forall (fun v => clean (fst v) /\ clean (snd v)) cache_volumes ->
    Forall (fun v => clean (fst v) /\ clean (snd v))
           (scan_volumes lines cache_volumes).
Proof.
  induction 1 as [|line lines Hline _ IH]; intros acc Hacc; [exact Hacc|].
  cbn [scan_volumes].
  destruct (nonempty (strip line)); [|now apply IH].
  assert (Hparts : Forall clean (map strip (split PIPE line))).
  { apply Forall_forall. intros part Hin.
    apply in_map_iff in Hin as (raw & <- & Hraw).
    split; [|split; [|apply strip_strip]].
    - intros Hc. apply In_strip in Hc.
      now destruct (In_split PIPE PIPE line raw Hraw Hc).
    - intros Hc. apply In_strip in Hc.
      now destruct (In_split PIPE LINE_FEED line raw Hraw Hc). }
  destruct (map strip (split PIPE line)) as [|vg [|lv [|policy parts]]];
    try (now apply IH).
  destruct (nonempty policy); [|now apply IH].
  apply IH. apply Forall_app. split; [exact Hacc|].
  inversion Hparts as [|? ? Hvg Hrest]. inversion Hrest as [|? ? Hlv _].
  constructor; [split; assumption | constructor].
Qed.

(** Whatever [lvs] answers, the detection returns names without a
    separator, without a line feed and without a space at their ends; a
    failure of the command with [CalledProcessError] or
    [FileNotFoundError] gives an empty list, as a report without a cached
    volume does, and any other exception leaves the function. *)
Theorem detect_outcomes (run : run_outcome) :
  match run with
  | Completed stdout =>
    exists cache_volumes : list (str * str),
      detect_cache_volumes run = Ok cache_volumes
      /\ Forall (fun v => clean (fst v) /\ clean (snd v)) cache_volumes
  | FileNotFoundError => detect_cache_volumes run = Ok []
  | Raised e =>
    (e = CalledProcessError -> detect_cache_volumes run = Ok [])
    /\ (e <> CalledProcessError -> detect_cache_volumes run = Raise e)
  end.
Proof.
  destruct run as [stdout| |e].
  - eexists. split; [reflexivity|].
    apply scan_volumes_clean; [|constructor].
    apply Forall_forall. intros line Hin Hc.
    now destruct (In_split LINE_FEED LINE_FEED _ line Hin Hc).
  - reflexivity.
  - split; [now intros -> | destruct e; cbn; congruence].
Qed.

(** *** The report of [lvs] read back *)

Lemma isspace_spaces : Forall (fun ch => isspace ch = true) (lit "  ").
Proof. repeat constructor. Qed.

(** The line of a volume without its indentation. *)
Lemma report_body (vg lv policy : str) :
  clean vg -> clean lv -> clean policy ->
  let body := vg ++ [PIPE] ++ lv ++ [PIPE] ++ policy in
  body <> [] /\ starts_clean body /\ ends_clean body /\ ~ In LINE_FEED body.
Proof.
  intros (Pv & Lv & Sv) (Pl & Ll & Sl) (Pp & Lp & Sp) body.
  apply strip_fixed in Sv as [Sv _]. apply strip_fixed in Sp as [_ Sp].
  split; [|split; [|split]].
  - unfold body. now destruct vg.
  - unfold body. destruct vg as [|ch vg]; [reflexivity | exact Sv].
  - unfold body. destruct policy as [|ch policy].
    + rewrite app_nil_r, !app_assoc.
      apply ends_clean_app; [discriminate | reflexivity].
    + rewrite !app_assoc. apply ends_clean_app; [discriminate | exact Sp].
  - unfold body. intros H.
    repeat (apply in_app_or in H as [H|H]); try contradiction;
      destruct H as [H|[]]; unfold PIPE, LINE_FEED in H; discriminate H.
Qed.

(** What the scan does on the line of a volume, indented or not. *)
Lemma scan_report_line (ws vg lv policy : str) (lines : list str)
  (cache_volumes : list (str * str)) :
  Forall (fun ch => isspace ch = true) ws -> ~ In PIPE ws ->
  clean vg -> clean lv -> clean policy ->
  scan_volumes ((ws ++ vg ++ [PIPE] ++ lv ++ [PIPE] ++ policy) :: lines)
               cache_volumes
  = scan_volumes lines
      (if nonempty policy then cache_volumes ++ [(vg, lv)]
       else cache_volumes).
Proof.
  intros Hws Pws Hvg Hlv Hp.
  destruct (report_body vg lv policy Hvg Hlv Hp) as (Bne & Bs & Be & _).
  pose proof Hvg as (Pv & _ & Sv). pose proof Hlv as (Pl & _ & Sl).
  pose proof Hp as (Pp & _ & Sp).
  cbn [scan_volumes].
  assert (E1 : strip (ws ++ vg ++ [PIPE] ++ lv ++ [PIPE] ++ policy)
               = vg ++ [PIPE] ++ lv ++ [PIPE] ++ policy).
  { unfold strip. rewrite lstrip_spaces by exact Hws.
    rewrite lstrip_id by exact Bs. now apply rstrip_id. }
  rewrite E1.
  destruct (vg ++ [PIPE] ++ lv ++ [PIPE] ++ policy) eqn:Eb;
    [contradiction|].
  cbn [nonempty]. rewrite <- Eb. clear Eb.
  assert (E2 : split PIPE (ws ++ vg ++ [PIPE] ++ lv ++ [PIPE] ++ policy)
               = [ws ++ vg; lv; policy]).
  { rewrite app_assoc. cbn [app].
    rewrite split_app.
    2: { intros H. apply in_app_or in H as [H|H]; contradiction. }
    rewrite split_app by exact Pl. now rewrite split_plain by exact Pp. }
  rewrite E2. cbn [map].
  assert (E3 : strip (ws ++ vg) = vg).
  { apply strip_fixed in Sv as [S1 S2]. unfold strip.
    rewrite lstrip_spaces by exact Hws.
    rewrite lstrip_id by exact S1. now apply rstrip_id. }
  rewrite E3, Sl, Sp. now destruct (nonempty policy).
Qed.

Lemma scan_report_lines (rows : list (str * str * str)) :
  Forall (fun row => clean (fst (fst row)) /\ clean (snd (fst row))
                     /\ clean (snd row)) rows ->
  forall (cache_volumes : list (str * str)) (last_line : list str),
    scan_volumes (map report_line rows ++ last_line) cache_volumes
    = scan_volumes last_line (cache_volumes ++ cached rows).
Proof.
  induction 1 as [|[[vg lv] policy] rows (Hvg & Hlv & Hp) _ IH];
    intros acc last_line.
  - cbn. now rewrite app_nil_r.
  - cbn [map app]. unfold report_line at 1. cbn [fst snd].
    rewrite (scan_report_line (lit "  ") vg lv policy);
      [|exact isspace_spaces | cbn; intuition discriminate
       | exact Hvg | exact Hlv | exact Hp].
    rewrite IH. unfold cached. cbn [filter snd].
    destruct (nonempty policy); cbn [map fst]; [|reflexivity].
    now rewrite <- app_assoc.
Qed.

(** A text of lines that end with a line feed, cut at its last one. *)
Lemma lines_joined (lines : list str) :
  lines <> [] ->
  Forall (fun line => ~ In LINE_FEED line /\ ends_clean line /\ line <> [])
         lines ->
  exists text : str,
    concat (map (fun line => line ++ [LINE_FEED]) lines) = text ++ [LINE_FEED]
    /\ split LINE_FEED text = lines /\ ends_clean text /\ text <> [].
Proof.
  intros Hne H. induction H as [|line lines (Hl & He & Hn) Hrest IH];
    [contradiction|].
  destruct lines as [|line' lines].
  - exists line. cbn [map concat]. rewrite app_nil_r.
    split; [reflexivity|]. split; [now apply split_plain|].
    split; assumption.
  - destruct (IH ltac:(discriminate)) as (text & Et & Es & Ee & En).
    exists (line ++ LINE_FEED :: text).
    cbn [map concat] in *. rewrite Et. split.
    + now rewrite <- !app_assoc.
    + split; [now rewrite split_app, Es by exact Hl|].
      split; [|now destruct line].
      change (line ++ LINE_FEED :: text) with (line ++ [LINE_FEED] ++ text).
      rewrite app_assoc. now apply ends_clean_app.
Qed.

(** Read back from the report of [lvs] -- one line for each volume, made
    of the two names and the cache policy separated by [|], indented by
    two spaces and ended by a line feed -- the detection gives the names of
    the volumes that have a cache policy, in the order of the report. *)
Theorem detect_round_trip (rows : list (str * str * str)) :
  Forall (fun row => clean (fst (fst row)) /\ clean (snd (fst row))
                     /\ clean (snd row)) rows ->
  detect_cache_volumes (Completed (report rows)) = Ok (cached rows).
Proof.
  intros H. unfold detect_cache_volumes. f_equal.
  destruct rows as [|[[vg lv] policy] rows]; [reflexivity|].
  inversion H as [|? ? (Hvg & Hlv & Hp) Hrows]; subst.
  destruct (report_body vg lv policy Hvg Hlv Hp) as (Bne & Bs & Be & Bl).
  set (body := vg ++ [PIPE] ++ lv ++ [PIPE] ++ policy) in *.
  destruct (lines_joined (body :: map report_line rows)) as
      (text & Et & Es & Ee & En); [discriminate| |].
  { constructor; [repeat split; assumption|].
    apply Forall_forall. intros line Hin.
    apply in_map_iff in Hin as ([[vg' lv'] policy'] & <- & Hin).
    rewrite Forall_forall in Hrows.
    destruct (Hrows _ Hin) as (Hvg' & Hlv' & Hp'). cbn [fst snd] in *.
    destruct (report_body vg' lv' policy' Hvg' Hlv' Hp')
      as (Bne' & _ & Be' & Bl').
    unfold report_line. cbn [fst snd].
    split; [|split].
    - intros Hc. apply in_app_or in Hc as [Hc|Hc]; [|contradiction].
      cbn in Hc. intuition discriminate.
    - now apply ends_clean_app.
    - discriminate. }
  assert (E : strip (report ((vg, lv, policy) :: rows)) = text).
  { assert (Er : report ((vg, lv, policy) :: rows)
                 = lit "  "
                   ++ concat (map (fun line => line ++ [LINE_FEED])
                                  (body :: map report_line rows))).
    { unfold report. cbn [map concat]. rewrite map_map.
      unfold report_line at 1. cbn [fst snd]. fold body.
      now rewrite <- !app_assoc. }
    rewrite Er. unfold strip.
    rewrite lstrip_spaces by exact isspace_spaces.
    rewrite lstrip_id.
    2: { cbn [map concat]. rewrite <- app_assoc.
         apply starts_clean_app; assumption. }
    rewrite Et, rstrip_spaces by (repeat constructor).
    now apply rstrip_id. }
  rewrite E, Es. subst body.
  etransitivity.
  { apply (scan_report_line [] vg lv policy (map report_line rows) []);
      [constructor | exact (fun H => H) | exact Hvg | exact Hlv | exact Hp]. }
  rewrite <- (app_nil_r (map report_line rows)).
  rewrite scan_report_lines by exact Hrows. cbn [scan_volumes].
  unfold cached. cbn [filter snd].
  destruct (nonempty policy); reflexivity.
Qed.

Lemma detect_round_trip_witness :
  detect_cache_volumes
    (Completed (report [ (lit "vg_games", lit "games", lit "smq");
                         (lit "vg_games", lit "games_cache_cpool", []);
                         (lit "vg0", lit "home", lit "mq") ]))
  = Ok (cached [ (lit "vg_games", lit "games", lit "smq");
                 (lit "vg_games", lit "games_cache_cpool", []);
                 (lit "vg0", lit "home", lit "mq") ]).
Proof.
  apply (detect_round_trip
           [ (lit "vg_games", lit "games", lit "smq");
             (lit "vg_games", lit "games_cache_cpool", []);
             (lit "vg0", lit "home", lit "mq") ]).
  repeat constructor; cbn; intuition discriminate.
Defined.

(** ** The entry point *)

(** Where the volume [main] goes on with comes from, and how [main] can
    end before the verification. *)
Lemma select_volume_spec (args : arguments) (w : world) :
  (forall out : list action,
      ~ In (Monitoring out) (fst (select_volume args w)))
  /\ match snd (select_volume args w) with
     | Selected vg_name lv_name =>
       exists vg lv : str,
         vg_name = Some vg /\ lv_name = Some lv
         /\ ((args_pick args = false /\ args_vg args = Some vg
              /\ args_lv args = Some lv /\ vg <> [] /\ lv <> [])
             \/ (exists cache_volumes : list (str * str),
                    detect_cache_volumes (detection w) = Ok cache_volumes
                    /\ In (vg, lv) cache_volumes))
     | Stopped status =>
       (forall self : monitor, status <> MainRunning self)
       /\ (forall code : Z, status = MainExited code -> code = 0 \/ code = 1)
     end.
Proof.
  unfold select_volume. cbv zeta.
  destruct (truthy (args_vg args) && truthy (args_lv args)
            && negb (args_pick args)) eqn:C.
  - apply andb_true_iff in C as [C Cp]. apply andb_true_iff in C as [Cv Cl].
    split.
    + intros out [H|[]]. discriminate H.
    + cbn [snd]. destruct (args_vg args) as [vg|]; [|discriminate].
      destruct (args_lv args) as [lv|]; [|discriminate].
      exists vg, lv. split; [reflexivity|]. split; [reflexivity|]. left.
      split; [now destruct (args_pick args)|].
      split; [reflexivity|]. split; [reflexivity|].
      split; [now destruct vg | now destruct lv].
  - destruct (detect_cache_volumes (detection w)) as [vols|e] eqn:Ed.
    2: { split; [intros out [H|[]]; discriminate H|].
         cbn [snd]. split; [discriminate | discriminate]. }
    destruct vols as [|first others].
    { split; [intros out [H|[H|[H|[]]]]; discriminate H|].
      cbn [snd]. split; [discriminate|].
      intros code H. injection H as <-. now right. }
    destruct ((Z.of_nat (length (first :: others)) =? 1) && negb _).
    { split; [intros out [H|[H|[]]]; discriminate H|].
      cbn [snd]. exists (fst first), (snd first).
      split; [reflexivity|]. split; [reflexivity|]. right.
      exists (first :: others). split; [reflexivity|].
      left. now destruct first. }
    destruct (args_pick args).
    all: pose proof (menu_loop_safe (first :: others) (keys w) 0
                  ltac:(cbn [length]; lia)) as Hm.
    all: change (snd (menu_loop (first :: others) (keys w) 0))
      with (snd (interactive_volume_selection (first :: others) (keys w)))
      in Hm.
    all: destruct (snd (interactive_volume_selection (first :: others)
                         (keys w)))
      as [i|[vg|] [lv|]|code|e]; try contradiction.
    all: try (split; [intros out [H|[H|[H|[]]]]; discriminate H|];
              cbn [snd]; split; discriminate).
    all: try (split; [intros out [H|[H|[H|[]]]]; discriminate H|];
              cbn [snd]; split; [discriminate|];
              intros c H; injection H as <-; now left).
    all: destruct (negb (truthy (Some vg)) || negb (truthy (Some lv))).
    all: try (split; [intros out [H|[H|[H|[H|[]]]]]; discriminate H|];
              cbn [snd]; split; [discriminate|];
              intros code H; injection H as <-; now right).
    all: split; [intros out [H|[H|[H|[]]]]; discriminate H|];
      cbn [snd]; exists vg, lv; split; [reflexivity|];
      split; [reflexivity|]; right; exists (first :: others);
      split; [reflexivity | exact Hm].
Qed.

Lemma init_names (t : terminal) (vg lv : str) (n : Z) (self : monitor) :
  init t vg lv n = Ok self -> vg_name self = vg /\ lv_name self = lv.
Proof.
  unfold init, Deque.new. destruct (n <? 0); [discriminate|].
  cbn [bind]. intros H.
  apply update_terminal_size_sets in H as (w & h & ->). split; reflexivity.
Qed.

Section MainFacts.

Variable format_1f : float -> str.

Lemma tick_names (refresh_interval : Z) (p : poll) (t : terminal)
  (self self' : monitor) (out : list action) :
  tick format_1f refresh_interval p t self = Ok (out, self') ->
  vg_name self' = vg_name self /\ lv_name self' = lv_name self.
Proof.
  unfold tick. intros H.
  destruct (get_lvm_cache_stats p) as [st|e]; [|discriminate].
  cbn [bind] in H.
  destruct (display_stats format_1f t st _) as [[frame m]|e] eqn:Ed;
    [|discriminate].
  cbn [bind fst snd] in H.
  destruct (sleep refresh_interval); [|discriminate].
  cbn [bind] in H. injection H as _ <-.
  apply display_stats_same in Ed as (Hv & Hl & _).
  rewrite Hv, Hl. now destruct st.
Qed.

Lemma loop_names (refresh_interval : Z) (events : list event) :
  forall (self self' : monitor),
    snd (loop format_1f refresh_interval events self) = Running self' ->
    vg_name self' = vg_name self /\ lv_name self' = lv_name self.
Proof.
  induction events as [|ev events IH]; intros self self' H.
  - cbn in H. injection H as <-. split; reflexivity.
  - destruct ev as [p t|]; [|discriminate].
    cbn [loop] in H.
    destruct (tick format_1f refresh_interval p t self) as [[out m]|e] eqn:Et;
      [|discriminate].
    cbn [snd] in H. apply IH in H as [H1 H2].
    apply tick_names in Et as [E1 E2]. split; congruence.
Qed.

(** [main] starts the monitor only on a volume for which the verification
    printed a cache policy; that volume is the one named by [--vg] and
    [--lv], both given, not empty and without [--pick], or else one of the
    volumes the detection returned; and it is the volume of the monitor
    for as long as the loop runs. *)
Theorem monitored_volume_verified (args : arguments) (w : world)
  (out : list action) :
  In (Monitoring out) (fst (main format_1f args w)) ->
  exists vg lv stdout : str,
    verification w (vg ++ lit "/" ++ lv) = Ok stdout
    /\ nonempty (strip stdout) = true
    /\ ((args_pick args = false /\ args_vg args = Some vg
         /\ args_lv args = Some lv /\ vg <> [] /\ lv <> [])
        \/ (exists cache_volumes : list (str * str),
               detect_cache_volumes (detection w) = Ok cache_volumes
               /\ In (vg, lv) cache_volumes))
    /\ (forall self : monitor,
          snd (main format_1f args w) = MainRunning self ->
          vg_name self = vg /\ lv_name self = lv).
Proof.
  unfold main. cbv zeta.
  destruct (select_volume_spec args w) as [Hno Hsel].
  destruct (snd (select_volume args w)) as [vg_name lv_name|status].
  2: { intros H. now apply Hno in H. }
  destruct Hsel as (vg & lv & -> & -> & Horigin). cbn [text_of].
  destruct (verification w (vg ++ lit "/" ++ lv)) as [stdout|e] eqn:Ev.
  2: { destruct (exn_eqb e CalledProcessError); cbn [fst]; intros H;
         [apply in_app_or in H as [H|[H|[]]]; [|discriminate H]|];
         now apply Hno in H. }
  destruct (nonempty (strip stdout)) eqn:En.
  2: { cbn [fst]. intros H.
       apply in_app_or in H as [H|[H|[]]]; [|discriminate H].
       now apply Hno in H. }
  destruct (init (terminal_at_start w) vg lv (args_history args))
    as [monitor|e] eqn:Ei.
  2: { cbn [fst]. intros H. now apply Hno in H. }
  intros _. exists vg, lv, stdout.
  split; [exact Ev|]. split; [exact En|]. split; [exact Horigin|].
  cbn [snd]. intros self Hs.
  apply init_names in Ei as [<- <-].
  unfold run in Hs. cbv zeta in Hs. cbn [snd] in Hs.
  destruct (snd (loop format_1f (args_interval args) (events w) monitor))
    as [m| |] eqn:El; try discriminate.
  injection Hs as <-. now apply loop_names in El.
Qed.

(** With [--pick], or when [--vg] or [--lv] is missing or empty, the
    names given on the command line play no part: [main] does what it does
    without them. *)
Theorem names_need_both (args : arguments) (w : world) :
  args_pick args = true \/ truthy (args_vg args) = false
  \/ truthy (args_lv args) = false ->
  main format_1f args w
  = main format_1f
      {| args_vg := None; args_lv := None;
         args_interval := args_interval args;
         args_history := args_history args;
         args_pick := args_pick args |} w.
Proof.
  intros H. unfold main, select_volume. cbv zeta.
  cbn [args_vg args_lv args_pick args_interval args_history truthy andb].
  assert (C : truthy (args_vg args) && truthy (args_lv args)
              && negb (args_pick args) = false).
  { destruct H as [-> | [-> | ->]].
    - now rewrite andb_false_r.
    - reflexivity.
    - now rewrite andb_false_r. }
  rewrite C. reflexivity.
Qed.


End MainFacts.

Lemma monitored_volume_verified_witness :
  exists vg lv stdout : str,
    verification sample_world (vg ++ lit "/" ++ lv) = Ok stdout
    /\ nonempty (strip stdout) = true
    /\ ((args_pick (sample_arguments false 60) = false
         /\ args_vg (sample_arguments false 60) = Some vg
         /\ args_lv (sample_arguments false 60) = Some lv
         /\ vg <> [] /\ lv <> [])
        \/ (exists cache_volumes : list (str * str),
               detect_cache_volumes (detection sample_world)
               = Ok cache_volumes
               /\ In (vg, lv) cache_volumes))
    /\ (forall self : monitor,
          snd (main (fun _ => []) (sample_arguments false 60) sample_world)
          = MainRunning self ->
          vg_name self = vg /\ lv_name self = lv).
Proof.
  apply (monitored_volume_verified (fun _ => [])
           (sample_arguments false 60) sample_world
           (fst (run (fun _ => []) 2 [KeyboardInterrupt]
                   (set_terminal_size (fresh_monitor 60) 80 24)))).
  vm_compute. right. left. reflexivity.
Defined.

Lemma names_need_both_witness :
  main (fun _ => []) (sample_arguments true 60) sample_world
  = main (fun _ => [])
      {| args_vg := None; args_lv := None;
         args_interval := args_interval (sample_arguments true 60);
         args_history := args_history (sample_arguments true 60);
         args_pick := args_pick (sample_arguments true 60) |} sample_world.
Proof.
  apply (names_need_both (fun _ => []) (sample_arguments true 60)
           sample_world).
  left. reflexivity.
Defined.


(** ** The extremes of a chart *)

Section Extremes.

Local Open Scope Q_scope.

(** The difference of two plain values is plain. *)
Lemma sub_plain_value (a b : num) :
  plain_value a -> plain_value b -> value_of b <= value_of a ->
  exists (d : num) (v : Q),
    sub a b = Ok d /\ fl (value_of a - value_of b) = Fin v
    /\ value_of d == v /\ plain_value d.
Proof.
  intros Pa Pb Hba.
  destruct (sub_plain a b Pa Pb Hba) as (d & v & Hsub & Hfl & Ed & Fd & V0).
  exists d, v. split; [exact Hsub|]. split; [exact Hfl|].
  split; [exact Ed|]. split; [exact Fd|]. split; [now rewrite Ed|].
  destruct d as [z|f]; [|exact I].
  destruct a as [za|fa], b as [zb|fb]; unfold sub in Hsub;
    try (destruct (as_float _) in Hsub; cbn [bind] in Hsub;
         try discriminate Hsub;
         destruct (as_float _) in Hsub; cbn [bind] in Hsub;
         discriminate Hsub).
  injection Hsub as <-.
  destruct Pa as (_ & _ & Ua), Pb as (_ & B0 & _). cbn [value_of] in B0.
  assert ((0 <= zb)%Z) by (rewrite Zle_Qle; exact B0). lia.
Qed.

(** The quotient of two plain values is the rounded quotient of their
    values. *)
Lemma truediv_plain (a b : num) :
  plain_value a -> plain_value b -> 0 < value_of b ->
  value_of a <= value_of b ->
  exists w : Q,
    truediv a b = Ok (PFloat (Fin w))
    /\ fl (value_of a / value_of b) = Fin w.
Proof.
  intros Pa Pb B0 Hab. pose proof Pa as (Fa & A0 & _).
  pose proof Pb as (Fb & _ & _).
  destruct (Qdiv_unit_Q _ _ A0 Hab B0) as [D0 D1].
  destruct (fl_bounds _ 1 D0 D1 on_grid_1 one_lt_pow2_1024) as (w & Hw & _).
  exists w. split; [|exact Hw].
  assert (Hfloat : forall xa xb : Q,
             xa == value_of a -> xb == value_of b ->
             (f <- float_truediv (Fin xa) (Fin xb) ;; Ok (PFloat f))
             = Ok (PFloat (Fin w))).
  { intros xa xb Ea Eb. unfold float_truediv, is_zero.
    destruct (Qeq_bool xb 0) eqn:E.
    - apply Qeq_bool_iff in E. rewrite Eb in E. rewrite E in B0.
      discriminate.
    - cbn [bind fdiv].
      rewrite (fl_comp (xa / xb) (value_of a / value_of b))
        by now rewrite Ea, Eb.
      now rewrite Hw. }
  destruct a as [za|fa], b as [zb|fb].
  - cbn [value_of] in *. unfold truediv, int_truediv.
    destruct (Z.eqb_spec zb 0) as [E|_].
    + subst zb. discriminate B0.
    + rewrite Hw. reflexivity.
  - destruct (as_float_plain _ Pa) as (xa & Hxa & Ea).
    destruct (as_float_plain _ Pb) as (xb & Hxb & Eb).
    unfold truediv. rewrite Hxa, Hxb. cbn [bind]. now apply Hfloat.
  - destruct (as_float_plain _ Pa) as (xa & Hxa & Ea).
    destruct (as_float_plain _ Pb) as (xb & Hxb & Eb).
    unfold truediv. rewrite Hxa, Hxb. cbn [bind]. now apply Hfloat.
  - destruct (as_float_plain _ Pa) as (xa & Hxa & Ea).
    destruct (as_float_plain _ Pb) as (xb & Hxb & Eb).
    unfold truediv. rewrite Hxa, Hxb. cbn [bind]. now apply Hfloat.
Qed.

(** A ratio of 0 or 1 scaled to the rows of the chart. *)
Lemma scale_exact (w : Q) (k n : Z) :
  (0 <= n <= 2 ^ 53)%Z -> w == inject_Z k -> (k = 0 \/ k = 1)%Z ->
  exists u : Q,
    mul (PFloat (Fin w)) (PInt n) = Ok (PFloat (Fin u))
    /\ int_of (PFloat (Fin u)) = Ok (k * n)%Z.
Proof.
  intros Hn Ew Hk. unfold mul. cbn [as_float].
  destruct (float_of_int_exact n Hn) as (c & Hc & Ec).
  rewrite Hc. cbn [bind fmul].
  assert (E : w * c == inject_Z (k * n))
    by (rewrite Ew, Ec, inject_Z_mult; reflexivity).
  assert (Hkn : (0 <= k * n <= 2 ^ 53)%Z) by (destruct Hk; subst k; lia).
  destruct (fl_exact (inject_Z (k * n))) as (u & Hu & Eu).
  - now apply on_grid_Z.
  - apply Qle_lt_trans with (pow2 53); [apply inject_Z_le_pow2; lia|].
    apply pow2_lt. lia.
  - change 0 with (inject_Z 0). rewrite <- Zle_Qle. lia.
  - exists u. rewrite (fl_comp _ _ E), Hu. split; [reflexivity|].
    cbn [int_of].
    assert (U0 : 0 <= u).
    { rewrite Eu. change 0 with (inject_Z 0). rewrite <- Zle_Qle. lia. }
    rewrite (Qtrunc_nonneg u U0), (Qfloor_comp _ _ Eu), Qfloor_Z.
    reflexivity.
Qed.

(** The row of a point whose scaled ratio is exactly 0 or 1. *)
Lemma plot_row_exact (min_val range_val v : num) (height k : Z) :
  plain_value min_val -> plain_value v -> plain_value range_val ->
  value_of min_val <= value_of v -> 0 < value_of range_val ->
  (forall x : Q, fl (value_of v - value_of min_val) = Fin x ->
                 x <= value_of range_val
                 /\ x / value_of range_val == inject_Z k) ->
  (k = 0 \/ k = 1)%Z -> (1 <= height <= 2 ^ 53 + 1)%Z ->
  plot_row min_val range_val height v
  = Ok (height - 1 - k * (height - 1))%Z.
Proof.
  intros Pmin Pv Pr Hlo R0 Hx Hk Hh. unfold plot_row.
  destruct (sub_plain_value v min_val Pv Pmin Hlo)
    as (d & x & Hsub & Hfl & Ed & Pd).
  destruct (Hx x Hfl) as [Hxr Hxk].
  rewrite Hsub. cbn [bind].
  destruct (truediv_plain d range_val Pd Pr R0) as (w & Hw & Hflw);
    [now rewrite Ed|].
  rewrite Hw. cbn [bind].
  assert (Ew : w == inject_Z k).
  { assert (E : value_of d / value_of range_val == inject_Z k)
      by now rewrite Ed.
    rewrite (fl_comp _ _ E) in Hflw.
    destruct (fl_exact (inject_Z k)) as (u & Hu & Eu).
    - apply on_grid_Z. destruct Hk; subst k; lia.
    - destruct Hk; subst k; reflexivity.
    - destruct Hk; subst k; discriminate.
    - rewrite Hu in Hflw. injection Hflw as <-. exact Eu. }
  destruct (scale_exact w k (height - 1) ltac:(lia) Ew Hk) as (u & Hm & Hi).
  rewrite Hm. cbn [bind]. rewrite Hi. cbn [bind]. f_equal. destruct Hk; subst k; lia.
Qed.

End Extremes.

(** In a chart the points of the smallest value are drawn on the bottom
    row and, unless all values are equal, the points of the largest value
    on the top row -- exactly, whatever the roundings. *)
Theorem chart_extremes (data : list num) (height : Z)
  (min_val max_val : num) :
  Forall plain_value data ->
  min_of data = Ok min_val -> max_of data = Ok max_val ->
  1 <= height <= 2 ^ 53 + 1 ->
  exists range_val : num,
    (if ne max_val min_val then sub max_val min_val else Ok (PInt 1))
    = Ok range_val
    /\ (forall v : num,
          In v data -> (value_of v == value_of min_val)%Q ->
          plot_row min_val range_val height v = Ok (height - 1))
    /\ (forall v : num,
          In v data -> (value_of v == value_of max_val)%Q ->
          ~ (value_of max_val == value_of min_val)%Q ->
          plot_row min_val range_val height v = Ok 0).
Proof.
  intros Hdata Hmin Hmax Hh.
  destruct data as [|x rest]; [discriminate|].
  cbn [min_of max_of] in Hmin, Hmax.
  injection Hmin as Emin. injection Hmax as Emax.
  destruct (fold_min_plain rest x Hdata) as [Imin Lmin].
  destruct (fold_max_plain rest x Hdata) as [Imax Lmax].
  cbv zeta in Imin, Lmin, Imax, Lmax.
  rewrite Emin in Imin, Lmin. rewrite Emax in Imax, Lmax.
  rewrite Forall_forall in Hdata.
  pose proof (Hdata _ Imin) as Pmin. pose proof (Hdata _ Imax) as Pmax.
  pose proof (Lmin _ Imax) as Hmm.
  destruct (range_plain min_val max_val Pmin Pmax Hmm)
    as (range_val & Hrange & Fr & R0 & Hbound).
  exists range_val. unfold ne.
  assert (Pr : plain_value range_val).
  { destruct (Py.eq max_val min_val).
    - injection Hrange as <-. split; [exact Fr|]. split; [discriminate|].
      cbn. lia.
    - destruct (sub_plain_value max_val min_val Pmax Pmin Hmm)
        as (r & vr & Hsub & _ & _ & Pr).
      rewrite Hsub in Hrange. now injection Hrange as <-. }
  split; [now destruct (Py.eq max_val min_val)|].
  split.
  - intros v Hin Ev.
    transitivity (Ok (A := Z) (height - 1 - 0 * (height - 1)));
      [|f_equal; lia].
    apply plot_row_exact; try assumption; try (now apply Hdata);
      [rewrite Ev; apply Qle_refl | | now left].
    intros q Hq.
    assert (E0 : (value_of v - value_of min_val == 0)%Q) by (rewrite Ev; ring).
    rewrite (fl_comp _ _ E0) in Hq. vm_compute in Hq. injection Hq as <-.
    split; [now apply Qlt_le_weak|]. unfold Qdiv. ring.
  - intros v Hin Ev Hne.
    transitivity (Ok (A := Z) (height - 1 - 1 * (height - 1)));
      [|f_equal; lia].
    apply plot_row_exact; try assumption; try (now apply Hdata);
      [now apply Lmin | | now right].
    intros q Hq.
    destruct (Py.eq max_val min_val) eqn:E.
    { apply (eq_plain max_val min_val Pmax Pmin) in E. contradiction. }
    destruct (sub_plain_value max_val min_val Pmax Pmin Hmm)
      as (r & vr & Hsub & Hflr & Er & _).
    rewrite Hsub in Hrange. injection Hrange as <-.
    assert (E1 : (value_of v - value_of min_val
                  == value_of max_val - value_of min_val)%Q)
      by (rewrite Ev; reflexivity).
    rewrite (fl_comp _ _ E1), Hflr in Hq. injection Hq as <-.
    split; [rewrite Er; apply Qle_refl|].
    rewrite Er. apply Qmult_inv_r. rewrite <- Er.
    intros Z0. rewrite Z0 in R0. discriminate.
Qed.

Lemma chart_extremes_witness :
  exists range_val : num,
    (if ne (PInt 20) (PInt 10) then sub (PInt 20) (PInt 10) else Ok (PInt 1))
    = Ok range_val
    /\ (forall v : num,
          In v series_10_20 -> (value_of v == value_of (PInt 10))%Q ->
          plot_row (PInt 10) range_val 8 v = Ok (8 - 1))
    /\ (forall v : num,
          In v series_10_20 -> (value_of v == value_of (PInt 20))%Q ->
          ~ (value_of (PInt 20) == value_of (PInt 10))%Q ->
          plot_row (PInt 10) range_val 8 v = Ok 0).
Proof.
  apply (chart_extremes series_10_20 8 (PInt 10) (PInt 20)).
  - unfold series_10_20.
    repeat constructor; cbn; try discriminate;
      try (apply Z.leb_le; vm_compute; reflexivity); lia.
  - reflexivity.
  - reflexivity.
  - split; [lia|]. apply Z.leb_le. vm_compute. reflexivity.
Defined.

(** ** The rows of a printed chart *)

(** A label of one to three digits is padded to three columns. *)
Lemma format_3d_percent (z : Z) :
  1 <= z <= 100 -> length (format_3d z) = 3%nat.
Proof.
  intros H.
  assert (Hall : forallb (fun k => Nat.eqb (length (format_3d (Z.of_nat k))) 3)
                         (seq 1 100) = true) by (vm_compute; reflexivity).
  rewrite forallb_forall in Hall.
  specialize (Hall (Z.to_nat z)). rewrite Z2Nat.id in Hall by lia.
  apply Nat.eqb_eq, Hall, in_seq. lia.
Qed.

(** The rows [display_stats] prints for a chart are aligned: beside lines
    of equal length, every row is 6 characters longer than the lines -- a
    label of three columns, the two characters of "%|" and a closing bar --
    the labels lie between 1 and 100, and the first is 100. *)
Theorem graph_rows_aligned (lines : list str) (width : nat) :
  Forall (fun line => length line = width) lines ->
  length (print_graph lines) = length lines
  /\ Forall (fun a =>
               exists (label : Z) (line : str),
                 a = Print (format_3d label ++ lit "%|" ++ line ++ lit "|")
                 /\ 1 <= label <= 100 /\ In line lines
                 /\ length (format_3d label ++ lit "%|" ++ line ++ lit "|")
                    = (width + 6)%nat)
            (print_graph lines)
  /\ (forall (first : str) (rest : list str),
         lines = first :: rest ->
         hd_error (print_graph lines)
         = Some (Print (lit "100%|" ++ first ++ lit "|"))).
Proof.
  intros Hw. unfold print_graph. split; [|split].
  - rewrite length_map, length_combine, length_seq. lia.
  - apply Forall_forall. intros a Ha.
    apply in_map_iff in Ha as ([i line] & <- & Hin).
    pose proof (in_combine_l _ _ _ _ Hin) as Hi.
    pose proof (in_combine_r _ _ _ _ Hin) as Hl.
    apply in_seq in Hi. cbn [fst snd].
    rewrite Forall_forall in Hw. specialize (Hw line Hl).
    set (n := Z.of_nat (length lines)) in *.
    assert (Hq : 0 <= Z.of_nat i * 100 / n <= 99).
    { split; [apply Z.div_pos; lia|].
      assert (Z.of_nat i * 100 / n < 100); [|lia].
      apply Z.div_lt_upper_bound; lia. }
    exists (100 - Z.of_nat i * 100 / n), line.
    split; [reflexivity|]. split; [lia|]. split; [exact Hl|].
    rewrite !length_app, format_3d_percent by lia. rewrite Hw. cbn. lia.
  - intros first rest ->. cbn [length seq combine map hd_error fst snd].
    rewrite Z.mul_0_l, Z.div_0_l by lia. reflexivity.
Qed.

Lemma graph_rows_aligned_witness :
  length (print_graph [lit "ab"; lit "cd"; lit "ef"]) = 3%nat.
Proof.
  apply (proj1 (graph_rows_aligned [lit "ab"; lit "cd"; lit "ef"] 2
                  ltac:(repeat constructor))).
Defined.
